(** * Calendar quick switch: the content script (src/src/content.ts) and
      the background script (src/src/background.ts)

    A shallow embedding of the discovery and reconciliation functions of the
    content script: [ctFindCalendarSection], [ctGetCalendarLabel],
    [ctGetCalendarCheckboxes], [ctToggleCheckbox], [ctFindDrawerScrollContainer],
    [ctFindCheckboxByLabel], [ctFindAndScrollToCheckbox], [ctWaitForCalendarLoad],
    [ctApplyCalendarGroup] and [ctGetCurrentlySelectedCalendars]; of its
    storage functions, [ctShowNotification], [ctPromptForGroupName],
    [ctCreateCalendarGroup], [ctHandleMessage] and [ctInitialize]; and of the
    menu and message functions of the background script.

    - JavaScript strings are sequences of UTF-16 code units ([jstr]), so
      that [length], [trim], [includes] and the [/checkbox/gi] replacement
      are the ones of the language.
    - The document is a tree of element and text nodes. An element
      reference is the path of child indices leading to it from the root
      element; tag names are kept in lower case; document order is the
      preorder of the tree.
    - The live properties the script reads and writes ([checked],
      [scrollTop], [scrollHeight], [clientHeight]) are kept per element
      reference, beside the tree. [click()] on a checkbox toggles [checked]
      unless the checkbox is disabled (then the call has no effect); no
      listener of the page cancels the click. Writing [scrollTop] clamps
      the value to the scrollable range.
    - Asynchronous code threads a [world] (the page, the virtual clock read
      by [Date.now()], and the logs of the clicks, scroll writes and sleeps
      issued) through an outcome monad with exceptions. The host page acts
      while the script sleeps: [ctSleep host ms] advances the clock by [ms]
      and replaces the page by what the host has made of it.
    - [chrome.storage.local] is the pair of values under the two keys the
      extension uses, with whether reads and writes are rejected.
    - The dialog of [ctPromptForGroupName] is driven by the list of the
      user's events; the host acts while it is open and leaves it in the
      body. A dialog that no event closes leaves the promise pending.
    - One message is handled at a time. The background script's state logs
      the menu entries, the messages sent to tabs and the pages opened;
      [chrome.contextMenus.create] with an id already taken creates nothing.
    - Console output is left out, and so is the timer that removes a
      notification after four seconds. *)

From Stdlib Require Import ZArith Lia.
From stdpp Require Import base decidable option list strings gmap.

Set Warnings "-register-all,-clear-no-such-hyp".
Local Open Scope Z_scope.

(* ================================================================== *)
(** ** JavaScript strings *)
(* ================================================================== *)

Module JS.

(** A string is a sequence of UTF-16 code units. *)
Definition jstr := list N.

(** An ASCII literal of the source as a [jstr]. *)
Definition lit (s : string) : jstr :=
  List.map Ascii.N_of_ascii (String.list_ascii_of_string s).

(** [s.length] *)
Definition length (s : jstr) : Z := Z.of_nat (List.length s).

(** Truthiness of a string: non-empty. *)
Definition nonempty (s : jstr) : bool :=
  match s with [] => false | _ :: _ => true end.

(** Truthiness of a [string | null | undefined] value. *)
Definition truthy (o : option jstr) : option jstr :=
  match o with
  | Some s => if nonempty s then Some s else None
  | None => None
  end.

(** WhiteSpace and LineTerminator code points removed by [String.prototype.trim]. *)
Definition is_ws (c : N) : bool :=
  ((9 <=? c) && (c <=? 13) || (c =? 32) || (c =? 160) || (c =? 5760)
   || (8192 <=? c) && (c <=? 8202) || (c =? 8232) || (c =? 8233)
   || (c =? 8239) || (c =? 8287) || (c =? 12288) || (c =? 65279))%N.

Fixpoint trimStart (s : jstr) : jstr :=
  match s with
  | [] => []
  | c :: r => if is_ws c then trimStart r else s
  end.

Definition trimEnd (s : jstr) : jstr := rev (trimStart (rev s)).

(** [s.trim()] *)
Definition trim (s : jstr) : jstr := trimEnd (trimStart s).

Definition eqb (a b : jstr) : bool := bool_decide (a = b).

(** [s] starts with [p], code units compared through [f]. *)
Fixpoint starts_with (f : N -> N) (p s : jstr) : bool :=
  match p, s with
  | [], _ => true
  | _ :: _, [] => false
  | a :: p', b :: s' => (f a =? f b)%N && starts_with f p' s'
  end.

(** [s.includes(sub)] *)
Fixpoint includes (s sub : jstr) : bool :=
  starts_with id sub s ||
  match s with
  | [] => false
  | _ :: r => includes r sub
  end.

(** Canonicalisation of a code unit under the [i] flag (without [u]): only
    the ASCII letters fold onto ASCII letters. *)
Definition upper (c : N) : N :=
  (if (97 <=? c) && (c <=? 122) then c - 32 else c)%N.

(** [s.replace(/pat/gi, "")] for a literal pattern: the matches are found
    left to right, never overlapping, and removed. *)
Fixpoint remove_ci_from (pat : jstr) (skip : nat) (s : jstr) : jstr :=
  match s with
  | [] => []
  | c :: r =>
    match skip with
    | S k => remove_ci_from pat k r
    | O =>
      if nonempty pat && starts_with upper pat s
      then remove_ci_from pat (Nat.pred (List.length pat)) r
      else c :: remove_ci_from pat O r
    end
  end.

Definition remove_ci (pat s : jstr) : jstr := remove_ci_from pat O s.

End JS.

Export JS.

(* ================================================================== *)
(** ** The document tree *)
(* ================================================================== *)

Module Dom.

(** A node is a text node or an element with its tag name (lower case),
    its attributes in source order and its child nodes. *)
Inductive node : Type :=
| Text (data : jstr)
| Elem (tag : string) (attrs : list (string * jstr)) (kids : list node).

(** An element reference: the child indices from the root element. *)
Definition path := list nat.

Definition is_elem (n : node) : bool :=
  match n with Elem _ _ _ => true | Text _ => false end.

Definition tagName (n : node) : string :=
  match n with Elem t _ _ => t | Text _ => "" end.

Definition children (n : node) : list node :=
  match n with Elem _ _ ks => ks | Text _ => [] end.

(** The node reached from [n] along [p]. *)
Fixpoint get (n : node) (p : path) : option node :=
  match p with
  | [] => Some n
  | i :: r =>
    match children n !! i with
    | Some k => get k r
    | None => None
    end
  end.

(** The element reached along [p], if [p] leads to an element. *)
Definition elem_at (d : node) (p : path) : option node :=
  match get d p with
  | Some n => if is_elem n then Some n else None
  | None => None
  end.

Fixpoint assoc (name : string) (l : list (string * jstr)) : option jstr :=
  match l with
  | [] => None
  | (k, v) :: r => if bool_decide (k = name) then Some v else assoc name r
  end.

(** [n.getAttribute(name)] *)
Definition getAttribute (n : node) (name : string) : option jstr :=
  match n with
  | Elem _ attrs _ => assoc name attrs
  | Text _ => None
  end.

(** [n.textContent]: the text of all descendants, in document order. *)
Fixpoint textContent (n : node) : jstr :=
  match n with
  | Text s => s
  | Elem _ _ ks =>
    (fix all (l : list node) : jstr :=
       match l with
       | [] => []
       | k :: r => textContent k ++ all r
       end) ks
  end.

(** The elements of the subtree [n] rooted at [p], in document order. *)
Fixpoint elems (p : path) (n : node) : list path :=
  match n with
  | Text _ => []
  | Elem _ _ ks =>
    p :: (fix all (i : nat) (l : list node) : list path :=
            match l with
            | [] => []
            | k :: r => elems (p ++ [i]) k ++ all (S i) r
            end) O ks
  end.

(** The simple selectors the script uses, and comma-separated lists of them. *)
Inductive simple : Type :=
| AttrEq (name : string) (v : jstr)        (* [name="v"]  *)
| AttrHas (name : string) (v : jstr)       (* [name*="v"] *)
| Tag (t : string)                         (* t           *)
| Checkbox.                                (* input[type="checkbox"] *)

Definition selector := list simple.

Definition matches1 (n : node) (s : simple) : bool :=
  is_elem n &&
  match s with
  | AttrEq a v =>
    match getAttribute n a with Some x => JS.eqb x v | None => false end
  | AttrHas a v =>
    match getAttribute n a with
    | Some x => JS.nonempty v && JS.includes x v
    | None => false
    end
  | Tag t => bool_decide (tagName n = t)
  | Checkbox =>
    bool_decide (tagName n = "input") &&
    match getAttribute n "type" with
    | Some x => JS.eqb (List.map JS.upper x) (List.map JS.upper (lit "checkbox"))
    | None => false
    end
  end.

(** [n.matches(sel)] *)
Definition matches (sel : selector) (n : node) : bool :=
  existsb (matches1 n) sel.

Definition matches_at (d : node) (sel : selector) (p : path) : bool :=
  match get d p with Some n => matches sel n | None => false end.

(** [root.querySelectorAll(sel)]: the matching descendants of [root]
    ([root] itself excluded), in document order. *)
Definition querySelectorAll (d : node) (root : path) (sel : selector) : list path :=
  match get d root with
  | Some n => List.filter (matches_at d sel) (List.tail (elems root n))
  | None => []
  end.

(** [root.querySelector(sel)] *)
Definition querySelector (d : node) (root : path) (sel : selector) : option path :=
  head (querySelectorAll d root sel).

(** [document.querySelectorAll(sel)]: every element of the document. *)
Definition document_querySelectorAll (d : node) (sel : selector) : list path :=
  List.filter (matches_at d sel) (elems [] d).

(** [document.querySelector(sel)] *)
Definition document_querySelector (d : node) (sel : selector) : option path :=
  head (document_querySelectorAll d sel).

(** [e.parentElement]: [null] for the root element. *)
Definition parentElement (p : path) : option path :=
  match p with
  | [] => None
  | _ :: _ => Some (removelast p)
  end.

(** [e.closest(sel)]: [e] or its nearest ancestor matching [sel]. *)
Fixpoint closest_from (d : node) (sel : selector) (fuel : nat) (p : path) : option path :=
  if matches_at d sel p then Some p
  else match fuel with
       | O => None
       | S k =>
         match parentElement p with
         | Some q => closest_from d sel k q
         | None => None
         end
       end.

Definition closest (d : node) (sel : selector) (p : path) : option path :=
  closest_from d sel (List.length p) p.

(** [document.getElementById(id)]: the first element, in document order,
    whose [id] attribute is [id]. *)
Definition getElementById (d : node) (id : jstr) : option path :=
  document_querySelector d [AttrEq "id" id].

(** The index of the first [legend] element child of the element at [a]. *)
Definition first_legend (d : node) (a : path) : option nat :=
  match get d a with
  | Some n =>
    head (List.filter (fun i => match children n !! i with
                                | Some k => bool_decide (tagName k = "legend")
                                | None => false
                                end)
                      (seq 0 (List.length (children n))))
  | None => None
  end.

(** The element at [a] is a [fieldset] with the [disabled] attribute, and
    its child [i] is not its first [legend]. *)
Definition fieldset_disables (d : node) (a : path) (i : nat) : bool :=
  matches_at d [Tag "fieldset"] a &&
  match get d a with
  | Some n => bool_decide (is_Some (getAttribute n "disabled"))
  | None => false
  end &&
  negb (bool_decide (first_legend d a = Some i)).

(** Some ancestor of the element reached from [a] along [rest] disables it. *)
Fixpoint disabled_from (d : node) (a : path) (rest : path) : bool :=
  match rest with
  | [] => false
  | i :: r => fieldset_disables d a i || disabled_from d (a ++ [i]) r
  end.

(** The form control [e] is disabled: it has the [disabled] attribute, or
    it lies in a [fieldset] that has it, outside the first [legend] of that
    [fieldset]. *)
Definition is_disabled (d : node) (e : path) : bool :=
  match get d e with
  | Some n =>
    bool_decide (is_Some (getAttribute n "disabled")) || disabled_from d [] e
  | None => false
  end.

(** [document.body]: the [body] child of the root element. *)
Definition document_body (d : node) : option path :=
  (fun i => [i]) <$>
    head (List.filter (fun i => match children d !! i with
                                | Some k => bool_decide (tagName k = "body")
                                | None => false
                                end)
                      (seq 0 (List.length (children d)))).

End Dom.

Export Dom.

(* ================================================================== *)
(** ** Constants of the content script *)
(* ================================================================== *)

(** "他のカレンダー", "カレンダー" and "ドロワー" as UTF-16 code units. *)
Definition other_calendars_ja : jstr :=
  [20182; 12398; 12459; 12524; 12531; 12480; 12540]%N.
Definition calendar_ja : jstr := [12459; 12524; 12531; 12480; 12540]%N.
Definition drawer_ja : jstr := [12489; 12525; 12527; 12540]%N.

(** The section selectors, in priority order; each is tried on its own. *)
Definition CT_CALENDAR_SELECTORS : list selector :=
  [ [AttrEq "aria-label" other_calendars_ja];
    [AttrEq "aria-label" (lit "Other calendars")];
    [AttrHas "aria-label" calendar_ja];
    [AttrHas "aria-label" (lit "calendar")];
    [AttrHas "data-testid" (lit "calendar")];
    [AttrEq "role" (lit "tree")];
    [AttrEq "role" (lit "group")] ].

Definition CT_CHECKBOX_SELECTOR : selector := [Checkbox].

(* ================================================================== *)
(** ** LabelResolver: [ctGetCalendarLabel] *)
(* ================================================================== *)

(** [e.getAttribute(name)] on an element reference. *)
Definition attr_at (d : node) (p : path) (name : string) : option jstr :=
  match get d p with Some n => getAttribute n name | None => None end.

(** [e.textContent?.trim()] on an element reference. *)
Definition trimmed_text_at (d : node) (p : path) : option jstr :=
  match get d p with Some n => Some (trim (textContent n)) | None => None end.

(** Strategy 1: [aria-labelledby]. *)
Definition label_by_reference (d : node) (checkbox : path) : option jstr :=
  match truthy (attr_at d checkbox "aria-labelledby") with
  | Some labelledBy =>
    match getElementById d labelledBy with
    | Some labelElement => truthy (trimmed_text_at d labelElement)
    | None => None
    end
  | None => None
  end.

(** Strategy 2: the checkbox's own [aria-label]. *)
Definition label_by_aria (d : node) (checkbox : path) : option jstr :=
  truthy (attr_at d checkbox "aria-label").

(** Strategy 3: the first label-like element of the nearest container. *)
Definition label_by_container (d : node) (checkbox : path) : option jstr :=
  match closest d [Tag "div"; Tag "li"; Tag "span"] checkbox with
  | Some container =>
    match querySelector d container [Tag "label"; Tag "span"; Tag "div"] with
    | Some label =>
      match truthy (attr_at d label "aria-label") with
      | Some labelAriaLabel => Some labelAriaLabel
      | None =>
        match truthy (trimmed_text_at d label) with
        | Some text =>
          if (0 <? JS.length text) && negb (includes text (lit "checkbox"))
          then Some text else None
        | None => None
        end
      end
    | None => None
    end
  | None => None
  end.

(** Strategy 4: the text of up to three ancestors, [attempts] counting up
    to 3 ([left] is what remains of the three). *)
Fixpoint label_by_ancestors (d : node) (parent : option path) (left : nat) : option jstr :=
  match parent, left with
  | Some q, S k =>
    let accepted :=
      match truthy (trimmed_text_at d q) with
      | Some text =>
        if (0 <? JS.length text) && (JS.length text <? 100)
        then
          let withoutCheckbox := trim (remove_ci (lit "checkbox") text) in
          if 0 <? JS.length withoutCheckbox then Some withoutCheckbox else None
        else None
      | None => None
      end in
    match accepted with
    | Some r => Some r
    | None => label_by_ancestors d (parentElement q) k
    end
  | _, _ => None
  end.

(** [a || b] on [string | null] values. *)
Definition or_else (a b : option jstr) : option jstr :=
  match truthy a with Some x => Some x | None => b end.

(** Strategy 5: data attributes. *)
Definition label_by_data (d : node) (checkbox : path) : option jstr :=
  truthy (or_else (attr_at d checkbox "data-name")
           (or_else (attr_at d checkbox "data-calendar-name")
                    (attr_at d checkbox "data-label"))).

Definition ctGetCalendarLabel (d : node) (checkbox : path) : option jstr :=
  match label_by_reference d checkbox with
  | Some text => Some text
  | None =>
  match label_by_aria d checkbox with
  | Some ariaLabel => Some ariaLabel
  | None =>
  match label_by_container d checkbox with
  | Some text => Some text
  | None =>
  match label_by_ancestors d (parentElement checkbox) 3 with
  | Some withoutCheckbox => Some withoutCheckbox
  | None => label_by_data d checkbox
  end end end end.

(* ================================================================== *)
(** ** Pages, worlds and the outcome monad *)
(* ================================================================== *)

(** The scroll geometry of an element. *)
Record box : Type := mkBox {
  scrollTop : Z;
  scrollHeight : Z;
  clientHeight : Z
}.

(** A page: the document tree and the live properties of its elements. *)
Record page : Type := mkPage {
  doc : node;
  checkedOf : path -> bool;        (* [e.checked] *)
  layout : path -> box
}.

(** A world: the page, the virtual clock read by [Date.now()] and the logs
    of what the script has issued so far (oldest first). *)
Record world : Type := mkWorld {
  pg : page;
  now : Z;
  clicks : list path;              (* [e.click()] calls *)
  scrolls : list (path * Z);       (* [e.scrollTop = v] writes *)
  sleeps : list Z                  (* [ctSleep(ms)] calls *)
}.

(** The host page: what the page has become when a sleep of [ms]
    milliseconds started in world [w] is over. *)
Definition host_t := Z -> world -> page.

(** A host that never re-renders. *)
Definition static_host : host_t := fun _ w => pg w.

Inductive exn : Type :=
| TypeError                               (* property read on [undefined] *)
| LoadTimeout (finalCheckboxCount : nat). (* the [Error] of [ctWaitForCalendarLoad] *)

(** Result of synchronous code. *)
Inductive res (A : Type) : Type :=
| Val (a : A)
| Err (e : exn).
Arguments Val {A} a.
Arguments Err {A} e.

(** Outcome of asynchronous code. *)
Inductive outcome (A : Type) : Type :=
| Ok (a : A) (w : world)
| Throw (e : exn) (w : world)
| OutOfFuel.
Arguments Ok {A} a w.
Arguments Throw {A} e w.
Arguments OutOfFuel {A}.

Definition M (A : Type) : Type := world -> outcome A.

Definition ret {A} (a : A) : M A := fun w => Ok a w.

Definition bind {A B} (m : M A) (k : A -> M B) : M B :=
  fun w =>
    match m w with
    | Ok a w' => k a w'
    | Throw e w' => Throw e w'
    | OutOfFuel => OutOfFuel
    end.

Definition throw {A} (e : exn) : M A := fun w => Throw e w.

(** [try { m } catch (error) { handler }] *)
Definition try_catch {A} (m : M A) (handler : exn -> M A) : M A :=
  fun w =>
    match m w with
    | Throw e w' => handler e w'
    | r => r
    end.

Definition lift {A} (r : res A) : M A :=
  fun w => match r with Val a => Ok a w | Err e => Throw e w end.

(** Read something off the current page. *)
Definition reads {A} (f : page -> A) : M A := fun w => Ok (f (pg w)) w.

#[global] Instance M_ret : MRet M := @ret.
#[global] Instance M_bind : MBind M := fun A B k m => bind m k.

(** [for (const x of l) { f(x) }] *)
Fixpoint for_each {A} (f : A -> M unit) (l : list A) : M unit :=
  match l with
  | [] => mret tt
  | x :: r => f x ;; for_each f r
  end.

(** [await ctSleep(ms)]: the clock advances by [ms] and the host acts. *)
Definition ctSleep (host : host_t) (ms : Z) : M unit :=
  fun w =>
    Ok tt {| pg := host ms w; now := now w + ms; clicks := clicks w;
             scrolls := scrolls w; sleeps := sleeps w ++ [ms] |}.

Definition flip (c : path -> bool) (e : path) : path -> bool :=
  fun q => if bool_decide (q = e) then negb (c e) else c q.

(** [e.click()] on a checkbox: the call is logged; the activation toggles
    [checked], unless the checkbox is disabled, on which [click()] does
    nothing. *)
Definition click (e : path) : M unit :=
  fun w =>
    Ok tt {| pg := {| doc := doc (pg w);
                      checkedOf := if is_disabled (doc (pg w)) e
                                   then checkedOf (pg w)
                                   else flip (checkedOf (pg w)) e;
                      layout := layout (pg w) |};
             now := now w; clicks := clicks w ++ [e];
             scrolls := scrolls w; sleeps := sleeps w |}.

(** The scroll offset a box takes when [v] is written to [scrollTop]. *)
Definition clamp (b : box) (v : Z) : Z :=
  Z.max 0 (Z.min v (scrollHeight b - clientHeight b)).

(** [e.scrollTop = v] *)
Definition set_scrollTop (e : path) (v : Z) : M unit :=
  fun w =>
    let lay := layout (pg w) in
    Ok tt {| pg := {| doc := doc (pg w); checkedOf := checkedOf (pg w);
                      layout := fun q =>
                        if bool_decide (q = e)
                        then {| scrollTop := clamp (lay e) v;
                                scrollHeight := scrollHeight (lay e);
                                clientHeight := clientHeight (lay e) |}
                        else lay q |};
             now := now w; clicks := clicks w;
             scrolls := scrolls w ++ [(e, v)]; sleeps := sleeps w |}.

(* ================================================================== *)
(** ** SectionLocator: [ctFindCalendarSection] *)
(* ================================================================== *)

(** The loop over [CT_CALENDAR_SELECTORS]. *)
Fixpoint section_by_selectors (d : node) (sels : list selector) : option path :=
  match sels with
  | [] => None
  | selector :: rest =>
    match document_querySelector d selector with
    | Some section =>
      if 0 <? Z.of_nat (List.length (querySelectorAll d section CT_CHECKBOX_SELECTOR))
      then Some section
      else section_by_selectors d rest
    | None => section_by_selectors d rest
    end
  end.

Definition fallback_selector : selector :=
  [AttrEq "role" (lit "tree"); AttrEq "role" (lit "group");
   AttrHas "aria-label" (lit "calendar"); AttrHas "aria-label" calendar_ja].

(** The loop over all checkboxes looking for a hinted ancestor. *)
Fixpoint section_by_closest (d : node) (checkboxes : list path) : option path :=
  match checkboxes with
  | [] => None
  | checkbox :: rest =>
    match closest d fallback_selector checkbox with
    | Some container => Some container
    | None => section_by_closest d rest
    end
  end.

(** The walk up from the first checkbox: [count] is [allCheckboxes.length];
    [childCheckboxes.length >= allCheckboxes.length * 0.5] is compared
    after doubling both sides. *)
Fixpoint section_by_common_parent (d : node) (count : nat)
    (parent : option path) (fuel : nat) : option path :=
  match parent, fuel with
  | Some q, S k =>
    if bool_decide (Some q = document_body d) then None
    else
      let childCheckboxes := querySelectorAll d q CT_CHECKBOX_SELECTOR in
      if Z.of_nat count <=? 2 * Z.of_nat (List.length childCheckboxes)
      then Some q
      else section_by_common_parent d count (parentElement q) k
  | _, _ => None
  end.

(** One retry round of [ctFindCalendarSection]. *)
Definition section_round (d : node) : res (option path) :=
  match section_by_selectors d CT_CALENDAR_SELECTORS with
  | Some section => Val (Some section)
  | None =>
    let allCheckboxes := document_querySelectorAll d CT_CHECKBOX_SELECTOR in
    if 0 <? Z.of_nat (List.length allCheckboxes) then
      match section_by_closest d allCheckboxes with
      | Some container => Val (Some container)
      | None =>
        match allCheckboxes !! O with
        | Some firstCheckbox =>
          Val (section_by_common_parent d (List.length allCheckboxes)
                 (parentElement firstCheckbox) (S (List.length firstCheckbox)))
        | None => Err TypeError
        end
      end
    else Val None
  end.

Fixpoint find_section_loop (host : host_t) (retries : nat) : M (option path) :=
  match retries with
  | O => mret None
  | S k =>
    r ← (fun w => lift (section_round (doc (pg w))) w);
    match r with
    | Some section => mret (Some section)
    | None => ctSleep host 500 ;; find_section_loop host k
    end
  end.

Definition ctFindCalendarSection (host : host_t) : M (option path) :=
  find_section_loop host 10.

(* ================================================================== *)
(** ** CheckboxCollector: [ctGetCalendarCheckboxes] *)
(* ================================================================== *)

Record CalendarCheckbox : Type := mkCalendarCheckbox {
  element : path;
  label : jstr;
  checked : bool
}.

(** The body of the loop over the section's checkboxes: a push when the
    label is truthy. *)
Definition collect_step (pg : page) (calendarCheckboxes : list CalendarCheckbox)
    (checkbox : path) : list CalendarCheckbox :=
  match truthy (ctGetCalendarLabel (doc pg) checkbox) with
  | Some label =>
    calendarCheckboxes ++
      [{| element := checkbox; label := label; checked := checkedOf pg checkbox |}]
  | None => calendarCheckboxes
  end.

Definition collect_in (pg : page) (section : path) : list CalendarCheckbox :=
  fold_left (collect_step pg)
    (querySelectorAll (doc pg) section CT_CHECKBOX_SELECTOR) [].

Definition ctGetCalendarCheckboxes (host : host_t) : M (list CalendarCheckbox) :=
  section ← ctFindCalendarSection host;
  match section with
  | None => mret []
  | Some section => reads (fun pg => collect_in pg section)
  end.

(** [ctToggleCheckbox(checkbox, checked)] *)
Definition ctToggleCheckbox (checkbox : path) (checked : bool) : M unit :=
  current ← reads (fun pg => checkedOf pg checkbox);
  if negb (Bool.eqb current checked) then click checkbox else mret tt.

(* ================================================================== *)
(** ** ScrollSearcher: [ctFindAndScrollToCheckbox] *)
(* ================================================================== *)

Definition is_drawer_header (d : node) (h1 : path) : bool :=
  match get d h1 with
  | Some n =>
    includes (textContent n) drawer_ja || includes (textContent n) (lit "Drawer")
  | None => false
  end.

Definition ctFindDrawerScrollContainer (d : node) : res (option path) :=
  let drawerHeaders :=
    List.filter (is_drawer_header d) (document_querySelectorAll d [Tag "h1"]) in
  if 0 <? Z.of_nat (List.length drawerHeaders) then
    match drawerHeaders !! O with
    | Some drawerHeader =>
      match parentElement drawerHeader with
      | Some scrollContainer =>
        if matches_at d [Tag "div"] scrollContainer
        then Val (Some scrollContainer) else Val None
      | None => Val None
      end
    | None => Err TypeError
    end
  else Val None.

(** The loop of [ctFindCheckboxByLabel] over the document's checkboxes. *)
Fixpoint find_labelled (d : node) (normalizedTargetLabel : jstr)
    (checkboxes : list path) : option path :=
  match checkboxes with
  | [] => None
  | checkbox :: rest =>
    match truthy (ctGetCalendarLabel d checkbox) with
    | Some checkboxLabel =>
      if JS.eqb (trim checkboxLabel) normalizedTargetLabel
      then Some checkbox
      else find_labelled d normalizedTargetLabel rest
    | None => find_labelled d normalizedTargetLabel rest
    end
  end.

Definition ctFindCheckboxByLabel (d : node) (label : jstr) : option path :=
  find_labelled d (trim label) (document_querySelectorAll d CT_CHECKBOX_SELECTOR).

Definition maxScrollAttempts : nat := 10.
Definition scrollStep : Z := 200.

(** The downward loop; [left] is [maxScrollAttempts - attempt]. *)
Fixpoint sweep_down (host : host_t) (label : jstr) (drawerContainer : path)
    (left : nat) (currentScrollTop : Z) : M (option path) :=
  match left with
  | O => mret None
  | S k =>
    let currentScrollTop := currentScrollTop + scrollStep in
    set_scrollTop drawerContainer currentScrollTop ;;
    ctSleep host 300 ;;
    checkbox ← reads (fun pg => ctFindCheckboxByLabel (doc pg) label);
    match checkbox with
    | Some c => mret (Some c)
    | None =>
      b ← reads (fun pg => layout pg drawerContainer);
      if scrollHeight b - clientHeight b <=? scrollTop b
      then mret None
      else sweep_down host label drawerContainer k currentScrollTop
    end
  end.

(** The upward loop. *)
Fixpoint sweep_up (host : host_t) (label : jstr) (drawerContainer : path)
    (left : nat) (currentScrollTop : Z) : M (option path) :=
  match left with
  | O => mret None
  | S k =>
    let currentScrollTop := Z.max 0 (currentScrollTop - scrollStep) in
    set_scrollTop drawerContainer currentScrollTop ;;
    ctSleep host 300 ;;
    checkbox ← reads (fun pg => ctFindCheckboxByLabel (doc pg) label);
    match checkbox with
    | Some c => mret (Some c)
    | None =>
      if currentScrollTop <=? 0
      then mret None
      else sweep_up host label drawerContainer k currentScrollTop
    end
  end.

Definition ctFindAndScrollToCheckbox (host : host_t) (label : jstr) : M (option path) :=
  checkbox ← reads (fun pg => ctFindCheckboxByLabel (doc pg) label);
  match checkbox with
  | Some c => mret (Some c)
  | None =>
    drawerContainer ← (fun w => lift (ctFindDrawerScrollContainer (doc (pg w))) w);
    match drawerContainer with
    | None => mret None
    | Some drawerContainer =>
      currentScrollTop ← reads (fun pg => scrollTop (layout pg drawerContainer));
      checkbox ← sweep_down host label drawerContainer maxScrollAttempts currentScrollTop;
      match checkbox with
      | Some c => mret (Some c)
      | None =>
        currentScrollTop ← reads (fun pg => scrollTop (layout pg drawerContainer));
        sweep_up host label drawerContainer maxScrollAttempts currentScrollTop
      end
    end
  end.

(* ================================================================== *)
(** ** LoadGate: [ctWaitForCalendarLoad] *)
(* ================================================================== *)

Definition maxWait : Z := 30000.
Definition checkInterval : Z := 1000.

(** The [while (Date.now() - startTime < maxWait)] loop; [fuel] bounds the
    number of iterations the model will unfold. *)
Fixpoint wait_loop (host : host_t) (startTime : Z) (fuel : nat) : M unit :=
  fun w =>
    if now w - startTime <? maxWait then
      match fuel with
      | O => OutOfFuel
      | S k =>
        (section ← ctFindCalendarSection host;
         loaded ← match section with
                  | Some _ =>
                    checkboxes ← ctGetCalendarCheckboxes host;
                    mret (0 <? Z.of_nat (List.length checkboxes))
                  | None => mret false
                  end;
         if (loaded : bool) then mret tt
         else ctSleep host checkInterval ;; wait_loop host startTime k) w
      end
    else
      Throw (LoadTimeout
               (List.length (document_querySelectorAll (doc (pg w)) CT_CHECKBOX_SELECTOR))) w.

Definition ctWaitForCalendarLoad (host : host_t) (fuel : nat) : M unit :=
  fun w => wait_loop host (now w) fuel w.

(* ================================================================== *)
(** ** GroupReconciler: [ctApplyCalendarGroup] *)
(* ================================================================== *)

Record CalendarGroup : Type := mkCalendarGroup {
  id : jstr;
  name : jstr;
  calendars : list jstr;
  createdAt : Z;
  updatedAt : Z
}.

(** [calendars.includes(label)] *)
Definition list_includes (l : list jstr) (x : jstr) : bool :=
  existsb (JS.eqb x) l.

(** The body of the loop over the initially rendered checkboxes. *)
Definition apply_visible (group : CalendarGroup) (disableOthers : bool)
    (checkbox : CalendarCheckbox) : M unit :=
  let shouldBeChecked := list_includes (calendars group) (label checkbox) in
  if shouldBeChecked && negb (checked checkbox)
  then ctToggleCheckbox (element checkbox) true
  else if negb shouldBeChecked && checked checkbox && disableOthers
  then ctToggleCheckbox (element checkbox) false
  else mret tt.

(** The loop over the initially rendered checkboxes, threading
    [processedCalendars]. *)
Fixpoint apply_rendered (group : CalendarGroup) (disableOthers : bool)
    (checkboxes : list CalendarCheckbox) (processedCalendars : gset jstr)
    : M (gset jstr) :=
  match checkboxes with
  | [] => mret processedCalendars
  | checkbox :: rest =>
    apply_visible group disableOthers checkbox ;;
    apply_rendered group disableOthers rest ({[label checkbox]} ∪ processedCalendars)
  end.

(** The [try] block run for one unprocessed calendar. *)
Definition apply_offscreen (host : host_t) (calendarLabel : jstr) : M bool :=
  checkbox ← ctFindAndScrollToCheckbox host calendarLabel;
  match checkbox with
  | Some c =>
    current ← reads (fun pg => checkedOf pg c);
    (if negb current then ctToggleCheckbox c true else mret tt) ;;
    mret true
  | None => mret false
  end.

(** The loop over [unprocessedCalendars]; an exception of one round is
    caught and the loop goes on. *)
Fixpoint apply_unprocessed (host : host_t) (unprocessedCalendars : list jstr)
    (processedCalendars : gset jstr) : M (gset jstr) :=
  match unprocessedCalendars with
  | [] => mret processedCalendars
  | calendarLabel :: rest =>
    added ← try_catch (apply_offscreen host calendarLabel) (fun _ => mret false);
    apply_unprocessed host rest
      (if (added : bool) then {[calendarLabel]} ∪ processedCalendars
       else processedCalendars)
  end.

Definition ctApplyCalendarGroup (host : host_t) (group : CalendarGroup)
    (disableOthers : bool) : M unit :=
  initialCheckboxes ← ctGetCalendarCheckboxes host;
  if (List.length initialCheckboxes =? 0)%nat then mret tt
  else
    processedCalendars ← apply_rendered group disableOthers initialCheckboxes ∅;
    let unprocessedCalendars :=
      List.filter (fun calendar => negb (bool_decide (calendar ∈ processedCalendars)))
                  (calendars group) in
    apply_unprocessed host unprocessedCalendars processedCalendars ;;
    mret tt.

(** [ctGetCurrentlySelectedCalendars] *)
Definition ctGetCurrentlySelectedCalendars (host : host_t) : M (list jstr) :=
  checkboxes ← ctGetCalendarCheckboxes host;
  mret (List.map label (List.filter checked checkboxes)).

(* ================================================================== *)
(** ** Storage, messages and the rest of the content script *)
(* ================================================================== *)

(** The part of [chrome.storage.local] the extension uses, shared by the
    content script and the background script. *)
Module Storage.

Record Settings : Type := mkSettings { disableOthers : bool }.

(** [CT_DEFAULT_SETTINGS] and [BG_DEFAULT_SETTINGS] *)
Definition DEFAULT_SETTINGS : Settings := {| disableOthers := true |}.

(** The values under the keys "calendarGroups" and "settings" (absent, or
    for the settings an object with or without [disableOthers]), and
    whether [get] and [set] reject. *)
Record storage : Type := mkStorage {
  groups_value : option (list CalendarGroup);
  settings_value : option (option bool);
  get_rejects : bool;
  set_rejects : bool
}.

(** A promise of the storage API: resolved with a value or rejected. *)
Inductive promised (A : Type) : Type :=
| Resolved (a : A)
| Rejected.
Arguments Resolved {A} a.
Arguments Rejected {A}.

(** [chrome.storage.local.get(key)] for the two keys. *)
Definition get_groups (s : storage) : promised (option (list CalendarGroup)) :=
  if get_rejects s then Rejected else Resolved (groups_value s).

Definition get_settings (s : storage) : promised (option (option bool)) :=
  if get_rejects s then Rejected else Resolved (settings_value s).

(** [chrome.storage.local.set({ calendarGroups: groups })] *)
Definition set_groups (groups : list CalendarGroup) (s : storage) : promised storage :=
  if set_rejects s then Rejected
  else Resolved {| groups_value := Some groups; settings_value := settings_value s;
                   get_rejects := get_rejects s; set_rejects := set_rejects s |}.

(** A message to the content script: its [action] and the fields the
    [applyGroup] action carries. *)
Record message : Type := mkMessage {
  action : jstr;
  group : option CalendarGroup;
  settings : option Settings
}.

End Storage.

Export Storage.

Module Content.

(** [ctLoadGroups]: the stored array, or [[]] when the key is absent or
    the read is rejected. *)
Definition ctLoadGroups (s : storage) : list CalendarGroup :=
  match get_groups s with
  | Resolved (Some groups) => groups
  | Resolved None => []
  | Rejected => []
  end.

(** [ctSaveGroups]: a rejected write is logged and thrown again. *)
Definition ctSaveGroups (groups : list CalendarGroup) (s : storage) : promised storage :=
  set_groups groups s.

(** [ctLoadSettings]: the defaults overridden by what is stored. *)
Definition ctLoadSettings (s : storage) : Settings :=
  match get_settings s with
  | Resolved (Some (Some b)) => {| disableOthers := b |}
  | Resolved (Some None) => DEFAULT_SETTINGS
  | Resolved None => DEFAULT_SETTINGS
  | Rejected => DEFAULT_SETTINGS
  end.

(** [ctAddGroup]: load, push, save. *)
Definition ctAddGroup (group : CalendarGroup) (s : storage) : promised storage :=
  let groups := ctLoadGroups s in
  ctSaveGroups (groups ++ [group]) s.

(** What [sendResponse] is called with. *)
Inductive reason : Type :=
| UnknownAction                  (* "Unknown action" *)
| Caught (e : exn)               (* the message of a caught exception *)
| CaughtStorage.                 (* the message of a rejected storage call *)

Inductive response : Type :=
| RespOk                                         (* { success: true } *)
| RespCalendars (calendars : list jstr)          (* { success: true, calendars } *)
| RespCalendarList (calendars : list (jstr * bool))
| RespError (error : reason).                    (* { success: false, error } *)

(** The content script's state: the world of the page, the storage, the
    notifications shown, the responses sent and whether the message
    listener is registered. *)
Record app : Type := mkApp {
  page_world : world;
  store : storage;
  shown : list jstr;
  responses : list response;
  listening : bool
}.

Inductive failure : Type :=
| Raised (e : exn)
| StorageRejected.

(** How an asynchronous function of the script ends: it returns, it
    throws, the fuel of a loop of the model is used up, or it waits for a
    promise that is never settled. *)
Inductive aout (A : Type) : Type :=
| AOk (a : A) (st : app)
| AThrow (e : failure) (st : app)
| AOutOfFuel
| APending.
Arguments AOk {A} a st.
Arguments AThrow {A} e st.
Arguments AOutOfFuel {A}.
Arguments APending {A}.

Definition AM (A : Type) : Type := app -> aout A.

#[global] Instance AM_ret : MRet AM := fun A a st => AOk a st.
#[global] Instance AM_bind : MBind AM := fun A B k m st =>
  match m st with
  | AOk a st' => k a st'
  | AThrow e st' => AThrow e st'
  | AOutOfFuel => AOutOfFuel
  | APending => APending
  end.

(** [try { m } catch (error) { handler }] *)
Definition a_try {A} (m : AM A) (handler : failure -> AM A) : AM A :=
  fun st =>
    match m st with
    | AThrow e st' => handler e st'
    | r => r
    end.

Definition with_world (st : app) (w : world) : app :=
  {| page_world := w; store := store st; shown := shown st;
     responses := responses st; listening := listening st |}.

(** Run a function of the page in the state of the script. *)
Definition on_page {A} (m : M A) : AM A :=
  fun st =>
    match m (page_world st) with
    | Ok a w => AOk a (with_world st w)
    | Throw e w => AThrow (Raised e) (with_world st w)
    | OutOfFuel => AOutOfFuel
    end.

(** Run a storage call; a rejection is thrown. *)
Definition on_store (f : storage -> promised storage) : AM unit :=
  fun st =>
    match f (store st) with
    | Resolved s =>
      AOk tt {| page_world := page_world st; store := s; shown := shown st;
                responses := responses st; listening := listening st |}
    | Rejected => AThrow StorageRejected st
    end.

(** [[a, b, c].join(sep)] *)
Fixpoint join (sep : jstr) (l : list jstr) : jstr :=
  match l with
  | [] => []
  | [x] => x
  | x :: r => x ++ sep ++ join sep r
  end.

(** The texts of the notifications. *)
Definition MSG_NO_SELECTION : jstr :=
  [12459; 12524; 12531; 12480; 12540; 12364; 36984; 25246; 12373; 12428;
   12390; 12356; 12414; 12379; 12435; 12290; 12464; 12523; 12540; 12503;
   12434; 20316; 25104; 12377; 12427; 12395; 12399; 12289; 23569; 12394;
   12367; 12392; 12418; 49; 12388; 12398; 12459; 12524; 12531; 12480;
   12540; 12434; 36984; 25246; 12375; 12390; 12367; 12384; 12373; 12356;
   12290]%N.

Definition MSG_DUPLICATE_NAME : jstr :=
  [21516; 12376; 21517; 21069; 12398; 12464; 12523; 12540; 12503; 12364;
   26082; 12395; 23384; 22312; 12375; 12414; 12377; 12290; 21029; 12398;
   21517; 21069; 12434; 36984; 25246; 12375; 12390; 12367; 12384; 12373;
   12356; 12290]%N.

Definition MSG_CREATE_FAILED : jstr :=
  [12464; 12523; 12540; 12503; 12398; 20316; 25104; 12395; 22833; 25943;
   12375; 12414; 12375; 12383; 12290]%N.

Definition MSG_CREATED_1 : jstr :=
  [12464; 12523; 12540; 12503; 32; 34]%N.

Definition MSG_CREATED_2 : jstr :=
  [34; 32; 12434; 20316; 25104; 12375; 12414; 12375; 12383; 12290; 10;
   21547; 12414; 12428; 12427; 12459; 12524; 12531; 12480; 12540; 58; 32]%N.

Definition msg_created (groupName : jstr) (selectedCalendars : list jstr) : jstr :=
  MSG_CREATED_1 ++ groupName ++ MSG_CREATED_2 ++ join (lit ", ") selectedCalendars.

(** The style sheet [ctShowNotification] puts into the notification. *)
Definition NOTIFICATION_STYLE : jstr := lit "
    .calendar-group-notification {
      position: fixed;
      top: 20px;
      right: 20px;
      background: #333;
      color: white;
      padding: 12px 16px;
      border-radius: 4px;
      font-size: 14px;
      z-index: 10001;
      max-width: 300px;
      word-wrap: break-word;
      white-space: pre-line;
      font-family: 'Roboto', sans-serif;
    }
  ".

(** The tree with [f] applied to the node at [p]. *)
Fixpoint update_at (n : node) (p : path) (f : node -> node) : node :=
  match p with
  | [] => f n
  | i :: r =>
    match n with
    | Elem t a ks => Elem t a (alter (fun k => update_at k r f) i ks)
    | Text _ => n
    end
  end.

(** [parent.appendChild(child)] *)
Definition appendChild (child : node) (parent : node) : node :=
  match parent with
  | Elem t a ks => Elem t a (ks ++ [child])
  | Text _ => parent
  end.

(** [ctShowNotification(message)]: a [div] with the message and the style
    sheet is appended to [document.body]; without a body the append throws.
    The removal timer (4 s) runs after the calls modelled here. *)
Definition ctShowNotification (message : jstr) : AM unit :=
  fun st =>
    let w := page_world st in
    let notification :=
      Elem "div" [("class", lit "calendar-group-notification")]
           [Text message; Elem "style" [] [Text NOTIFICATION_STYLE]] in
    match document_body (doc (pg w)) with
    | None => AThrow (Raised TypeError) st
    | Some body =>
      AOk tt
        {| page_world :=
             {| pg := {| doc := update_at (doc (pg w)) body (appendChild notification);
                         checkedOf := checkedOf (pg w); layout := layout (pg w) |};
                now := now w; clicks := clicks w; scrolls := scrolls w;
                sleeps := sleeps w |};
           store := store st; shown := shown st ++ [message];
           responses := responses st; listening := listening st |}
    end.

(** What the user does with the dialog of [ctPromptForGroupName]:
    [PressCreate v] is a click on "create", or the key Enter, with [v] in
    the input; [PressCancel] is a click on "cancel", or the key Escape. *)
Inductive dialog_event : Type :=
| PressCreate (value : jstr)
| PressCancel.

(** The user's events in order, and the time after which the dialog is
    closed; the host acts meanwhile and leaves the dialog in place. *)
Record dialog : Type := mkDialog {
  events : list dialog_event;
  open_ms : Z
}.

(** [handleCreate]: what the promise is resolved with, if it is; on an
    empty name the dialog shows [ctShowInputError] and stays open. *)
Definition handleCreate (value : jstr) : option (option jstr) :=
  let name := trim value in
  if nonempty name then Some (Some name) else None.

(** [handleCancel] resolves with [null]. *)
Definition handleCancel : option (option jstr) := Some None.

(** The value the promise of the dialog is resolved with by the first
    event that resolves it; [None] when no event does. *)
Fixpoint prompt_result (es : list dialog_event) : option (option jstr) :=
  match es with
  | [] => None
  | PressCreate value :: r =>
    match handleCreate value with
    | Some a => Some a
    | None => prompt_result r
    end
  | PressCancel :: _ => handleCancel
  end.

(** [ctPromptForGroupName]: appending the dialog to a missing
    [document.body] throws in the executor, which rejects the promise. *)
Definition ctPromptForGroupName (host : host_t) (u : dialog) : AM (option jstr) :=
  fun st =>
    let w := page_world st in
    match document_body (doc (pg w)) with
    | None => AThrow (Raised TypeError) st
    | Some _ =>
      match prompt_result (events u) with
      | None => APending
      | Some a =>
        AOk a (with_world st {| pg := host (open_ms u) w; now := now w + open_ms u;
                                clicks := clicks w; scrolls := scrolls w;
                                sleeps := sleeps w |})
      end
    end.

(** [Date.now()] *)
Definition Date_now : AM Z := fun st => AOk (now (page_world st)) st.

(** [ctCreateCalendarGroup]; [uuid] is what [ctGenerateId] returns. *)
Definition ctCreateCalendarGroup (host : host_t) (u : dialog) (uuid : jstr) : AM unit :=
  a_try
    (selectedCalendars ← on_page (ctGetCurrentlySelectedCalendars host);
     if (List.length selectedCalendars =? 0)%nat
     then ctShowNotification MSG_NO_SELECTION
     else
       groupName ← ctPromptForGroupName host u;
       match truthy groupName with
       | None => mret tt
       | Some groupName =>
         existingGroups ← (fun st => AOk (ctLoadGroups (store st)) st);
         let nameExists :=
           existsb (fun g => JS.eqb (name g) groupName) existingGroups in
         if nameExists
         then ctShowNotification MSG_DUPLICATE_NAME
         else
           created ← Date_now;
           updated ← Date_now;
           let newGroup :=
             {| id := uuid; name := groupName; calendars := selectedCalendars;
                createdAt := created; updatedAt := updated |} in
           on_store (ctAddGroup newGroup) ;;
           ctShowNotification (msg_created groupName selectedCalendars)
       end)
    (fun _ => ctShowNotification MSG_CREATE_FAILED).

(** [sendResponse(r)] *)
Definition sendResponse (r : response) : AM unit :=
  fun st =>
    AOk tt {| page_world := page_world st; store := store st; shown := shown st;
              responses := responses st ++ [r]; listening := listening st |}.

Definition reason_of (e : failure) : reason :=
  match e with
  | Raised x => Caught x
  | StorageRejected => CaughtStorage
  end.

(** [ctHandleMessage]; reading a field of a missing [settings], and
    [ctApplyCalendarGroup] reading [group.name] of a missing group, throw. *)
Definition ctHandleMessage (host : host_t) (u : dialog) (uuid : jstr)
    (message : message) : AM unit :=
  a_try
    (if JS.eqb (action message) (lit "applyGroup") then
       match settings message with
       | None => (fun st => AThrow (Raised TypeError) st)
       | Some s =>
         match group message with
         | None => (fun st => AThrow (Raised TypeError) st)
         | Some g =>
           on_page (ctApplyCalendarGroup host g (disableOthers s)) ;;
           sendResponse RespOk
         end
       end
     else if JS.eqb (action message) (lit "createGroup") then
       ctCreateCalendarGroup host u uuid ;;
       sendResponse RespOk
     else if JS.eqb (action message) (lit "getCurrentCalendars") then
       calendars ← on_page (ctGetCurrentlySelectedCalendars host);
       sendResponse (RespCalendars calendars)
     else if JS.eqb (action message) (lit "getCalendarList") then
       allCalendars ← on_page (ctGetCalendarCheckboxes host);
       sendResponse (RespCalendarList
                       (List.map (fun c => (label c, checked c)) allCalendars))
     else sendResponse (RespError UnknownAction))
    (fun e => sendResponse (RespError (reason_of e))).

(** [chrome.runtime.onMessage.addListener(...)] *)
Definition addListener : AM unit :=
  fun st =>
    AOk tt {| page_world := page_world st; store := store st; shown := shown st;
              responses := responses st; listening := true |}.

(** [ctInitialize]: the load gate's error is caught and logged, then the
    listener is registered. *)
Definition ctInitialize (host : host_t) (fuel : nat) : AM unit :=
  a_try (on_page (ctWaitForCalendarLoad host fuel)) (fun _ => mret tt) ;;
  addListener.

End Content.

(* ================================================================== *)
(** ** The background script (src/src/background.ts) *)
(* ================================================================== *)

Module Background.

(** [BG_MENU_IDS] *)
Definition MENU_PREFIX : jstr := lit "calendar-group-".
Definition MENU_CREATE : jstr := lit "create-group".
Definition MENU_UNCHECK_ALL : jstr := lit "uncheck-all".
Definition MENU_SEPARATOR : jstr := lit "separator".
Definition MENU_SETTINGS : jstr := lit "open-settings".

(** The titles of the menu entries. *)
Definition TITLE_GROUP : jstr :=
  [12464; 12523; 12540; 12503; 58; 32]%N.

Definition TITLE_CREATE : jstr :=
  [12464; 12523; 12540; 12503; 12434; 20316; 25104]%N.

Definition TITLE_UNCHECK_ALL : jstr :=
  [20840; 12390; 12481; 12455; 12483; 12463; 12434; 22806; 12377]%N.

Definition TITLE_SETTINGS : jstr :=
  [35373; 23450]%N.

(** An entry of the context menu (all entries are created for the context
    "page" on calendar.google.com). *)
Record menu_item : Type := mkItem {
  item_id : jstr;
  title : option jstr;
  is_separator : bool
}.

(** The background script's state: the storage, the context menu, the
    messages sent to tabs and the pages opened in new tabs. *)
Record bg : Type := mkBg {
  bg_store : storage;
  menus : list menu_item;
  sent : list (Z * message);
  opened : list jstr
}.

Definition bgLoadGroups (s : storage) : list CalendarGroup :=
  match get_groups s with
  | Resolved (Some groups) => groups
  | Resolved None => []
  | Rejected => []
  end.

Definition bgLoadSettings (s : storage) : Settings :=
  match get_settings s with
  | Resolved (Some (Some b)) => {| disableOthers := b |}
  | Resolved (Some None) => DEFAULT_SETTINGS
  | Resolved None => DEFAULT_SETTINGS
  | Rejected => DEFAULT_SETTINGS
  end.

(** [chrome.contextMenus.create(item)]: an entry whose id is taken is not
    created (the call reports [lastError] and goes on). *)
Definition create (item : menu_item) (l : list menu_item) : list menu_item :=
  if existsb (fun i => JS.eqb (item_id i) (item_id item)) l then l else l ++ [item].

Definition group_item (g : CalendarGroup) : menu_item :=
  {| item_id := MENU_PREFIX ++ id g; title := Some (TITLE_GROUP ++ name g);
     is_separator := false |}.

Definition fixed_item (i t : jstr) : menu_item :=
  {| item_id := i; title := Some t; is_separator := false |}.

(** The menu [bgUpdateContextMenus] builds once [removeAll] has called back. *)
Definition build_menus (groups : list CalendarGroup) : list menu_item :=
  let l := fold_left (fun l g => create (group_item g) l) groups [] in
  let l :=
    if (0 <? List.length groups)%nat
    then create {| item_id := MENU_SEPARATOR; title := None; is_separator := true |} l
    else l in
  let l := create (fixed_item MENU_CREATE TITLE_CREATE) l in
  let l := create (fixed_item MENU_UNCHECK_ALL TITLE_UNCHECK_ALL) l in
  create (fixed_item MENU_SETTINGS TITLE_SETTINGS) l.

Definition bgUpdateContextMenus (st : bg) : bg :=
  {| bg_store := bg_store st; menus := build_menus (bgLoadGroups (bg_store st));
     sent := sent st; opened := opened st |}.

(** [chrome.tabs.sendMessage(tabId, message)]; the answer is only logged. *)
Definition sendMessage (tabId : Z) (m : message) (st : bg) : bg :=
  {| bg_store := bg_store st; menus := menus st;
     sent := sent st ++ [(tabId, m)]; opened := opened st |}.

Definition bgOpenSettingsPage (st : bg) : bg :=
  {| bg_store := bg_store st; menus := menus st; sent := sent st;
     opened := opened st ++ [lit "settings.html"] |}.

Definition bgSendCreateGroupMessage (tabId : Z) (st : bg) : bg :=
  sendMessage tabId {| action := lit "createGroup"; group := None; settings := None |} st.

Definition bgSendUncheckAllMessage (tabId : Z) (st : bg) : bg :=
  sendMessage tabId {| action := lit "uncheckAll"; group := None; settings := None |} st.

(** [groups.find((g) => g.id === groupId)] *)
Definition find_group (groupId : jstr) (groups : list CalendarGroup)
    : option CalendarGroup :=
  List.find (fun g => JS.eqb (id g) groupId) groups.

Definition bgSendApplyGroupMessage (tabId : Z) (groupId : jstr) (st : bg) : bg :=
  let groups := bgLoadGroups (bg_store st) in
  match find_group groupId groups with
  | None => st
  | Some selectedGroup =>
    let settings := bgLoadSettings (bg_store st) in
    sendMessage tabId
      {| action := lit "applyGroup"; group := Some selectedGroup;
         settings := Some settings |} st
  end.

(** [s.replace(pat, "")] for a string pattern: the first occurrence goes. *)
Fixpoint remove_first (pat s : jstr) : jstr :=
  if starts_with (fun c => c) pat s then drop (List.length pat) s
  else match s with
       | [] => []
       | c :: r => c :: remove_first pat r
       end.

(** [bgHandleContextMenuClick(info, tab)]: [tab] is the tab's id when
    there is one; a missing tab or the id 0 ends the call. *)
Definition bgHandleContextMenuClick (menuItemId : jstr) (tab : option Z) (st : bg) : bg :=
  match tab with
  | None => st
  | Some tabId =>
    if tabId =? 0 then st
    else if JS.eqb menuItemId MENU_CREATE then bgSendCreateGroupMessage tabId st
    else if JS.eqb menuItemId MENU_UNCHECK_ALL then bgSendUncheckAllMessage tabId st
    else if JS.eqb menuItemId MENU_SETTINGS then bgOpenSettingsPage st
    else if starts_with (fun c => c) MENU_PREFIX menuItemId then
      let groupId := remove_first MENU_PREFIX menuItemId in
      bgSendApplyGroupMessage tabId groupId st
    else st
  end.

(** [bgHandleStorageChange(changes, namespace)]: [groups_changed] tells
    whether [changes] has the key of the groups. *)
Definition bgHandleStorageChange (groups_changed : bool) (namespace : jstr) (st : bg) : bg :=
  if JS.eqb namespace (lit "local") && groups_changed
  then bgUpdateContextMenus st
  else st.

End Background.

(* ================================================================== *)
(** ** Vocabulary of the statements *)
(* ================================================================== *)

(** Induction over the tree, with the property for every child of an element. *)
Fixpoint node_rect' (P : node -> Prop)
    (HT : forall s, P (Text s))
    (HE : forall t a ks, Forall P ks -> P (Elem t a ks))
    (n : node) : P n :=
  match n with
  | Text s => HT s
  | Elem t a ks =>
    HE t a ks
      ((fix all (l : list node) : Forall P l :=
          match l with
          | [] => @List.Forall_nil node P
          | k :: r => @List.Forall_cons node P k r (node_rect' P HT HE k) (all r)
          end) ks)
  end.

(** The elements below the children [l] of the element at [p], the first
    of which has index [i]. *)
Fixpoint elems_list (p : path) (i : nat) (l : list node) : list path :=
  match l with
  | [] => []
  | k :: r => elems (p ++ [i]) k ++ elems_list p (S i) r
  end.

(** The values the downward loop writes in [n] rounds started at [cur]. *)
Fixpoint down_writes (e : path) (cur : Z) (n : nat) : list (path * Z) :=
  match n with
  | O => []
  | S k => (e, cur + scrollStep) :: down_writes e (cur + scrollStep) k
  end.

(** The values the upward loop writes in [n] rounds started at [cur]. *)
Fixpoint up_writes (e : path) (cur : Z) (n : nat) : list (path * Z) :=
  match n with
  | O => []
  | S k => (e, Z.max 0 (cur - scrollStep)) :: up_writes e (Z.max 0 (cur - scrollStep)) k
  end.

(** [currentScrollTop] after [n] rounds of the upward loop started at [cur]. *)
Fixpoint up_pos (cur : Z) (n : nat) : Z :=
  match n with
  | O => cur
  | S k => up_pos (Z.max 0 (cur - scrollStep)) k
  end.

(** The scroll offset has reached the container's maximum. *)
Definition reached_max (b : box) : Prop := scrollHeight b - clientHeight b <= scrollTop b.

(** The invariant every host keeps: any page. *)
Definition any_page : page -> Prop := fun _ => True.

(** The entry the collector pushes for a checkbox, when its label resolves. *)
Definition handle_of (pg : page) (checkbox : path) : option CalendarCheckbox :=
  (fun l => {| element := checkbox; label := l; checked := checkedOf pg checkbox |})
    <$> ctGetCalendarLabel (doc pg) checkbox.

(** The label is not among the rendered checkboxes of the page. *)
Definition absent (label : jstr) (p : page) : Prop :=
  ctFindCheckboxByLabel (doc p) label = None.

(** The world an asynchronous function leaves. *)
Definition after {A} (m : M A) (w : world) : world :=
  match m w with Ok _ w' => w' | Throw _ w' => w' | OutOfFuel => w end.

(** The world after one round of a sweep: [v] is written to [scrollTop]
    and the settle delay of 300 ms passes. *)
Definition sweep_round (host : host_t) (e : path) (v : Z) (w : world) : world :=
  after (set_scrollTop e v ;; ctSleep host 300) w.

(** The world after [n] rounds of the downward loop started at [cur]. *)
Fixpoint down_world (host : host_t) (e : path) (cur : Z) (n : nat) (w : world) : world :=
  match n with
  | O => w
  | S k =>
    down_world host e (cur + scrollStep) k (sweep_round host e (cur + scrollStep) w)
  end.

(** The world after [n] rounds of the upward loop started at [cur]. *)
Fixpoint up_world (host : host_t) (e : path) (cur : Z) (n : nat) (w : world) : world :=
  match n with
  | O => w
  | S k =>
    up_world host e (Z.max 0 (cur - scrollStep)) k
             (sweep_round host e (Z.max 0 (cur - scrollStep)) w)
  end.

(** What [ctFindAndScrollToCheckbox] does when the label never shows up:
    without a drawer container it returns [null] at once; with one it runs
    [n] downward rounds, stopping at the first round after which the offset
    has reached the maximum, then [m] upward rounds, stopping at the first
    round that has written 0, and returns [null]. *)
Definition sweeps_exhausted (host : host_t) (label : jstr) (w : world) : Prop :=
  match ctFindDrawerScrollContainer (doc (pg w)) with
  | Val (Some e) =>
    exists n m,
      let s0 := scrollTop (layout (pg w) e) in
      let w1 := down_world host e s0 n w in
      let s1 := scrollTop (layout (pg w1) e) in
      let w' := up_world host e s1 m w1 in
      sweep_down host label e maxScrollAttempts s0 w = Ok None w1 /\
      sweep_up host label e maxScrollAttempts s1 w1 = Ok None w' /\
      ctFindAndScrollToCheckbox host label w = Ok None w' /\
      (1 <= n <= maxScrollAttempts)%nat /\ (1 <= m <= maxScrollAttempts)%nat /\
      (forall i, (1 <= i < n)%nat ->
                 ~ reached_max (layout (pg (down_world host e s0 i w)) e)) /\
      ((n < maxScrollAttempts)%nat -> reached_max (layout (pg w1) e)) /\
      (forall j, (1 <= j < m)%nat -> 0 < up_pos s1 j) /\
      ((m < maxScrollAttempts)%nat -> up_pos s1 m <= 0) /\
      scrolls w' = scrolls w ++ down_writes e s0 n ++ up_writes e s1 m /\
      sleeps w' = sleeps w ++ repeat 300 (n + m) /\
      now w' = now w + 300 * Z.of_nat (n + m)
  | _ => ctFindAndScrollToCheckbox host label w = Ok None w
  end.

(** The collector has something to return on the page: a section is
    located and one of its checkboxes has a label. *)
Definition toggles_ready (p : page) : Prop :=
  exists s, section_round (doc p) = Val (Some s) /\ collect_in p s <> [].

(** The sleeps of a run of polls: each poll spends some retries of
    500 ms looking for the section and is followed by the delay
    [checkInterval]; [rounds] gives the retries of each poll. *)
Fixpoint poll_log (rounds : list nat) : list Z :=
  match rounds with
  | [] => []
  | k :: r => repeat 500 k ++ checkInterval :: poll_log r
  end.

(** The time a log of sleeps takes on the clock. *)
Definition total (l : list Z) : Z := fold_right Z.add 0 l.

(** [document.querySelectorAll(CT_CHECKBOX_SELECTOR).length] *)
Definition raw_toggle_count (w : world) : nat :=
  List.length (document_querySelectorAll (doc (pg w)) CT_CHECKBOX_SELECTOR).

(** [w'] shows the same document, checked states and click log as [w]. *)
Definition same_toggles (w w' : world) : Prop :=
  doc (pg w') = doc (pg w) /\ checkedOf (pg w') = checkedOf (pg w) /\
  clicks w' = clicks w.

(** The section one retry round locates in the document. *)
Definition located (d : node) : option path :=
  match section_round d with Val r => r | Err _ => None end.

(** What the collector returns on a page that stays as it is. *)
Definition snapshot (p : page) : list CalendarCheckbox :=
  match located (doc p) with
  | Some s => collect_in p s
  | None => []
  end.

(** The page shows the document [d] with the checked states [c]. *)
Definition frozen (d : node) (c : path -> bool) : page -> Prop :=
  fun p => doc p = d /\ checkedOf p = c.

(** The state [ctApplyCalendarGroup] wants for a rendered checkbox with
    label [l] that is currently in state [c]. *)
Definition want (group : CalendarGroup) (disableOthers : bool) (l : jstr) (c : bool) : bool :=
  if list_includes (calendars group) l then true
  else if disableOthers then false else c.

(** The checked states once the loop over the snapshot has processed the
    elements [done] of the document [d]: [c0] are the states when the
    snapshot was taken and [L] gives the label of each snapshot element; a
    disabled checkbox stays as it was. *)
Definition settled (group : CalendarGroup) (disableOthers : bool) (d : node)
    (c0 : path -> bool) (L : path -> jstr) (done : list path) (p : path) : bool :=
  if bool_decide (p ∈ done) && negb (is_disabled d p)
  then want group disableOthers (L p) (c0 p) else c0 p.

(** The checkboxes the direct lookup returns for the labels [ls]. *)
Definition found (d : node) (ls : list jstr) : list path :=
  omap (ctFindCheckboxByLabel d) ls.

(** The label of a checkbox that has one. *)
Definition label_of (d : node) (e : path) : jstr :=
  default [] (ctGetCalendarLabel d e).

(** [unprocessedCalendars] for a snapshot [S]. *)
Definition unprocessed (group : CalendarGroup) (S : list CalendarCheckbox) : list jstr :=
  List.filter (fun l => negb (bool_decide (l ∈ List.map label S))) (calendars group).

(** The checkboxes the call gets to see: the snapshot and what the lookup
    returns for the unprocessed calendars. *)
Definition discovered (group : CalendarGroup) (p : page) : list path :=
  List.map element (snapshot p) ++ found (doc p) (unprocessed group (snapshot p)).

(** The checked states after [ctApplyCalendarGroup] on a static page. *)
Definition reconciled (group : CalendarGroup) (disableOthers : bool) (p0 : page)
    : path -> bool :=
  fun p =>
    if (List.length (snapshot p0) =? 0)%nat then checkedOf p0 p
    else
      settled group disableOthers (doc p0) (checkedOf p0) (label_of (doc p0))
              (List.map element (snapshot p0)) p
      || bool_decide (p ∈ found (doc p0) (unprocessed group (snapshot p0)))
         && negb (is_disabled (doc p0) p).

(** The host leaves the checked states alone. *)
Definition keeps_checked (host : host_t) : Prop :=
  forall ms w, checkedOf (host ms w) = checkedOf (pg w).

(** After a document of [shown] the host shows a document of [shown]. *)
Definition stays_within (host : host_t) (shown : node -> Prop) : Prop :=
  forall ms w, shown (doc (pg w)) -> shown (doc (host ms w)).

(** The checkboxes of the document. *)
(** [l] is, verbatim, one of the attribute values the label resolver
    returns untrimmed: the checkbox's [aria-label], the [aria-label] of
    the first label-like element of its nearest container, or one of the
    checkbox's data attributes. *)
Definition label_attribute (d : node) (checkbox : path) (l : jstr) : Prop :=
  attr_at d checkbox "aria-label" = Some l \/
  (exists container lab,
     closest d [Tag "div"; Tag "li"; Tag "span"] checkbox = Some container /\
     querySelector d container [Tag "label"; Tag "span"; Tag "div"] = Some lab /\
     attr_at d lab "aria-label" = Some l) \/
  attr_at d checkbox "data-name" = Some l \/
  attr_at d checkbox "data-calendar-name" = Some l \/
  attr_at d checkbox "data-label" = Some l.

Definition toggles (d : node) : list path :=
  document_querySelectorAll d CT_CHECKBOX_SELECTOR.

(** On the documents [shown] a checkbox carries one label wherever it is
    rendered, free of leading and trailing white space, and so are the
    entries of the group. *)
Definition labels_stable (shown : node -> Prop) (group : CalendarGroup) : Prop :=
  (forall d c l, shown d -> In c (toggles d) ->
                 ctGetCalendarLabel d c = Some l -> trim l = l) /\
  (forall d d' c l l', shown d -> shown d' -> In c (toggles d) -> In c (toggles d') ->
                       ctGetCalendarLabel d c = Some l ->
                       ctGetCalendarLabel d' c = Some l' -> l = l') /\
  (forall t, t ∈ calendars group -> trim t = t).

(** The worlds in which the scroll searches of the loop over the
    unprocessed calendars [ls] end, one per calendar, when the loop starts
    in [w]. *)
Fixpoint search_ends (host : host_t) (ls : list jstr) (w : world) : list world :=
  match ls with
  | [] => []
  | l :: rest =>
    after (ctFindAndScrollToCheckbox host l) w ::
    search_ends host rest (after (apply_offscreen host l) w)
  end.

(** What the searches have returned: each checkbox with the document on
    which it was found. *)
Fixpoint finds (ls : list jstr) (ends : list world) : list (path * node) :=
  match ls, ends with
  | l :: ls', w :: ends' =>
    match ctFindCheckboxByLabel (doc (pg w)) l with
    | Some c => (c, doc (pg w)) :: finds ls' ends'
    | None => finds ls' ends'
    end
  | _, _ => []
  end.

(** The search has returned [p], on a document where [p] is not disabled. *)
Definition hits (p : path) (f : path * node) : bool :=
  bool_decide (f.1 = p) && negb (is_disabled f.2 p).

(** The checkboxes [ctApplyCalendarGroup] gets to see when the collector
    has returned [S] in the world [w0]: none when [S] is empty; otherwise
    those of [S], and those its scroll searches for the calendars missing
    from [S] return. *)
Definition seen (host : host_t) (group : CalendarGroup) (disableOthers : bool)
    (S : list CalendarCheckbox) (w0 : world) : list path :=
  match S with
  | [] => []
  | _ :: _ =>
    List.map element S ++
    List.map fst
      (finds (unprocessed group S)
             (search_ends host (unprocessed group S)
                          (after (apply_rendered group disableOthers S ∅) w0)))
  end.

(** No label of a checkbox and no entry of the group has leading or
    trailing white space. *)
Definition labels_trimmed (d : node) (group : CalendarGroup) : Prop :=
  (forall c l, In c (document_querySelectorAll d CT_CHECKBOX_SELECTOR) ->
               ctGetCalendarLabel d c = Some l -> trim l = l) /\
  (forall t, t ∈ calendars group -> trim t = t).

(* ================================================================== *)
(** ** Sample pages *)
(* ================================================================== *)

(** A checkbox whose label comes from its [data-name] attribute. *)
Definition data_doc : node :=
  Elem "html" []
    [Elem "body" []
       [Elem "input" [("type", lit "checkbox"); ("data-name", lit "Team")] []]].

(** A checkbox with both attributes; the referenced [span] holds [text]. *)
Definition both_doc (text : jstr) : node :=
  Elem "html" []
    [Elem "body" []
       [Elem "span" [("id", lit "lbl")] [Text text];
        Elem "input" [("type", lit "checkbox"); ("aria-labelledby", lit "lbl");
                      ("aria-label", lit "Direct")] []]].

(** A checkbox whose [aria-labelledby] names an id no element carries. *)
Definition dangling_doc : node :=
  Elem "html" []
    [Elem "body" []
       [Elem "span" [("id", lit "lbl")] [Text (lit "Work")];
        Elem "input" [("type", lit "checkbox"); ("aria-labelledby", lit "gone");
                      ("aria-label", lit "Direct")] []]].

(** A checkbox in a [div] whose first [span] holds [text]. *)
Definition span_doc (text : jstr) : node :=
  Elem "html" []
    [Elem "body" []
       [Elem "div" []
          [Elem "input" [("type", lit "checkbox")] [];
           Elem "span" [] [Text text]]]].

(** A checkbox named by its [aria-label]. *)
Definition toggle (name : string) : node :=
  Elem "input" [("type", lit "checkbox"); ("aria-label", lit name)] [].

(** A drawer: a [div] holding the heading "Drawer" and the calendar list
    with [rows]. *)
Definition drawer_page (rows : list node) : node :=
  Elem "html" []
    [Elem "body" []
       [Elem "div" []
          [Elem "h1" [] [Text (lit "Drawer")];
           Elem "div" [("role", lit "group")] rows]]].

(** The drawer container and the [i]-th row of the list. *)
Definition drawer : path := [O; O].

Definition row (i : nat) : path := [O; O; 1%nat; i].

(** A world at time 0 with empty logs, every element with the geometry [b]. *)
Definition fresh_world (d : node) (c : path -> bool) (b : box) : world :=
  {| pg := {| doc := d; checkedOf := c; layout := fun _ => b |};
     now := 0; clicks := []; scrolls := []; sleeps := [] |}.

(** The group with the calendars [cs]. *)
Definition group_of (cs : list string) : CalendarGroup :=
  {| id := lit "g1"; name := lit "Work"; calendars := List.map lit cs;
     createdAt := 0; updatedAt := 0 |}.

(** A virtualised list: the rows "X" and "Y" are rendered only once the
    drawer is scrolled to 400 or beyond; checked states and geometry are
    the page's own. *)
Definition virtual_host : host_t := fun _ w =>
  {| doc := if 400 <=? scrollTop (layout (pg w) drawer)
            then drawer_page [toggle "A"; toggle "X"; toggle "Y"]
            else drawer_page [toggle "A"];
     checkedOf := checkedOf (pg w);
     layout := layout (pg w) |}.

(** At the top of the drawer; the row "Y", not rendered yet, is checked. *)
Definition virtual_world : world :=
  fresh_world (drawer_page [toggle "A"]) (fun p => bool_decide (p = row 2))
              (mkBox 0 1000 300).

Definition virtual_after_first : world :=
  after (ctApplyCalendarGroup virtual_host (group_of ["A"; "X"]) true) virtual_world.

Definition virtual_after_second : world :=
  after (ctApplyCalendarGroup virtual_host (group_of ["A"; "X"]) true) virtual_after_first.

(** A static list of two rows, the second one checked. *)
Definition static_world : world :=
  fresh_world (drawer_page [toggle "A"; toggle "Z"]) (fun p => bool_decide (p = row 1))
              (mkBox 0 1000 300).

(** A static list whose only row has a trailing space in its label. *)
Definition padded_world : world :=
  fresh_world (drawer_page [toggle "B "]) (fun _ => false) (mkBox 0 1000 300).

Definition padded_after : world :=
  after (ctApplyCalendarGroup static_host (group_of ["B"]) false) padded_world.

(** The documents the virtualised list shows. *)
Definition virtual_shown (d : node) : Prop :=
  d = drawer_page [toggle "A"] \/
  d = drawer_page [toggle "A"; toggle "X"; toggle "Y"].

(** A disabled checkbox named by its [aria-label]. *)
Definition disabled_toggle (name : string) : node :=
  Elem "input" [("type", lit "checkbox"); ("aria-label", lit name);
                ("disabled", lit "")] [].

(** A static list whose first row is disabled and unchecked, the second
    one checked. *)
Definition disabled_world : world :=
  fresh_world (drawer_page [disabled_toggle "A"; toggle "Z"])
              (fun p => bool_decide (p = row 1)) (mkBox 0 1000 300).

Definition disabled_after : world :=
  after (ctApplyCalendarGroup static_host (group_of ["A"]) true) disabled_world.

(** A drawer without any checkbox. *)
Definition empty_world : world :=
  fresh_world (drawer_page []) (fun _ => false) (mkBox 0 1000 300).

(** A lone checkbox labelled "Team calendar": it is its own section. *)
Definition lone_doc : node :=
  Elem "html" [] [Elem "body" [] [toggle "Team calendar"]].

Definition lone_world : world :=
  fresh_world lone_doc (fun _ => false) (mkBox 0 1000 300).

(** The label of [c] is [l] up to surrounding white space. *)
Definition label_matches (d : node) (l : jstr) (c : path) : Prop :=
  exists l', ctGetCalendarLabel d c = Some l' /\ trim l' = trim l.

(** A checkbox in a list item whose text is " checkbox Team A ". *)
Definition item_doc : node :=
  Elem "html" []
    [Elem "body" []
       [Elem "ul" []
          [Elem "li" []
             [Elem "input" [("type", lit "checkbox")] [];
              Text (lit " checkbox Team A ")]]]].

(* ================================================================== *)
(** ** Vocabulary and samples for the storage, the messages and the menu *)
(* ================================================================== *)

Module ContentVocabulary.
Import Content.

(** A storage that holds one group. *)
Definition one_group_store : storage :=
  {| groups_value := Some [group_of ["A"]]; settings_value := None;
     get_rejects := false; set_rejects := false |}.

(** The state keeps its responses, its listener flag and its click log. *)
Definition quiet (st st' : app) : Prop :=
  responses st' = responses st /\ listening st' = listening st /\
  clicks (page_world st') = clicks (page_world st).

(** The group [ctCreateCalendarGroup] stores, from state [st]. *)
Definition created_by (host : host_t) (u : dialog) (uuid : jstr) (st : app)
    (g : CalendarGroup) : Prop :=
  exists w0,
    ctGetCurrentlySelectedCalendars host (page_world st) = Ok (calendars g) w0 /\
    calendars g <> [] /\
    prompt_result (events u) = Some (Some (name g)) /\ name g <> [] /\
    id g = uuid /\
    forall h, In h (ctLoadGroups (store st)) -> name h <> name g.

(** What [ctCreateCalendarGroup] may have done to the state [st]. *)
Definition create_effect (host : host_t) (u : dialog) (uuid : jstr) (st st' : app) : Prop :=
  quiet st st' /\
  (store st' = store st \/
   exists g, created_by host u uuid st g /\
             ctAddGroup g (store st) = Resolved (store st')).

(** The state an asynchronous function of the script leaves when it ends. *)
Definition state_after {A} (o : aout A) : option app :=
  match o with
  | AOk _ st => Some st
  | AThrow _ st => Some st
  | AOutOfFuel => None
  | APending => None
  end.

(** The content script on the static list of two rows, with one stored
    group. *)
Definition sample_app : app :=
  {| page_world := static_world; store := one_group_store; shown := [];
     responses := []; listening := true |}.

(** The user presses "create" on a blank input, then names the new group
    "Home". *)
Definition sample_dialog : dialog :=
  {| events := [PressCreate (lit "  "); PressCreate (lit " Home ")];
     open_ms := 2000 |}.

(** The state after [sendResponse(r)]. *)
Definition respond (r : response) (st : app) : app :=
  {| page_world := page_world st; store := store st; shown := shown st;
     responses := responses st ++ [r]; listening := listening st |}.

(** The storage rejects every write. *)
Definition read_only_store : storage :=
  {| groups_value := Some [group_of ["A"]]; settings_value := None;
     get_rejects := false; set_rejects := true |}.

Definition create_message : message :=
  {| action := lit "createGroup"; group := None; settings := None |}.

Definition apply_message (g : CalendarGroup) (flag : bool) : message :=
  {| action := lit "applyGroup"; group := Some g;
     settings := Some {| disableOthers := flag |} |}.

End ContentVocabulary.

Module BackgroundVocabulary.
Import Content ContentVocabulary Background.

(** A background script whose storage holds the group "Work" (id "g1"). *)
Definition sample_bg : bg :=
  {| bg_store := one_group_store; menus := []; sent := []; opened := [] |}.

Definition ids (l : list menu_item) : list jstr := List.map item_id l.

(** The entries of the groups, in the order of [groups.forEach]. *)
Definition group_entries (groups : list CalendarGroup) (acc : list menu_item)
    : list menu_item :=
  fold_left (fun l g => create (group_item g) l) groups acc.

Definition separator_item : menu_item :=
  {| item_id := MENU_SEPARATOR; title := None; is_separator := true |}.

Definition fixed_items : list menu_item :=
  [fixed_item MENU_CREATE TITLE_CREATE;
   fixed_item MENU_UNCHECK_ALL TITLE_UNCHECK_ALL;
   fixed_item MENU_SETTINGS TITLE_SETTINGS].

End BackgroundVocabulary.

(* ================================================================== *)
(** ** Facts about strings and the label resolver *)
(* ================================================================== *)

Lemma truthy_Some (o : option jstr) (s : jstr) :
  truthy o = Some s -> o = Some s /\ s <> [].
Proof.
  destruct o as [t|]; simpl; [|discriminate].
  destruct t; simpl; [discriminate|].
  intros [= <-]. split; [reflexivity | discriminate].
Qed.

Lemma truthy_of_nonempty (s : jstr) : s <> [] -> truthy (Some s) = Some s.
Proof. destruct s; [congruence | reflexivity]. Qed.

Lemma length_pos_nonempty (s : jstr) : (0 <? JS.length s) = true -> s <> [].
Proof. destruct s; [discriminate | discriminate]. Qed.

Lemma nonempty_length_pos (s : jstr) : s <> [] -> 0 < JS.length s.
Proof. destruct s; [congruence|]. intros _. unfold JS.length. simpl. lia. Qed.

Lemma or_else_Some (a b : option jstr) (s : jstr) :
  truthy (or_else a b) = Some s -> s <> [].
Proof. intros H. apply truthy_Some in H. tauto. Qed.

Lemma label_by_reference_nonempty d cb s :
  label_by_reference d cb = Some s -> s <> [].
Proof.
  unfold label_by_reference.
  destruct (truthy (attr_at d cb "aria-labelledby")); [|discriminate].
  destruct (getElementById d j); [|discriminate].
  intros H. apply truthy_Some in H. tauto.
Qed.

Lemma label_by_container_nonempty d cb s :
  label_by_container d cb = Some s -> s <> [].
Proof.
  unfold label_by_container.
  destruct (closest _ _ _); [|discriminate].
  destruct (querySelector _ _ _); [|discriminate].
  destruct (truthy (attr_at _ _ _)) as [a|] eqn:Ha.
  - intros [= <-]. apply truthy_Some in Ha. tauto.
  - destruct (truthy (trimmed_text_at _ _)) as [t|] eqn:Ht; [|discriminate].
    destruct (_ && _); [|discriminate].
    intros [= <-]. apply truthy_Some in Ht. tauto.
Qed.

Lemma label_by_ancestors_nonempty d left : forall parent s,
  label_by_ancestors d parent left = Some s -> s <> [].
Proof.
  induction left as [|k IH]; intros parent s; simpl.
  - destruct parent; discriminate.
  - destruct parent as [q|]; [|discriminate].
    destruct (truthy (trimmed_text_at d q)) as [t|]; [|apply IH].
    destruct (_ && _); [|apply IH].
    destruct (0 <? JS.length _) eqn:Hlen; [|apply IH].
    intros [= <-]. now apply length_pos_nonempty.
Qed.

(** Every accepting branch of the chain returns a non-empty string. *)
Lemma label_nonempty d cb s : ctGetCalendarLabel d cb = Some s -> s <> [].
Proof.
  unfold ctGetCalendarLabel.
  destruct (label_by_reference d cb) eqn:H1.
  { intros [= <-]. eapply label_by_reference_nonempty; eauto. }
  destruct (label_by_aria d cb) eqn:H2.
  { intros [= <-]. apply truthy_Some in H2. tauto. }
  destruct (label_by_container d cb) eqn:H3.
  { intros [= <-]. eapply label_by_container_nonempty; eauto. }
  destruct (label_by_ancestors d _ 3) eqn:H4.
  { intros [= <-]. eapply label_by_ancestors_nonempty; eauto. }
  unfold label_by_data. apply or_else_Some.
Qed.

Lemma truthy_label d cb : truthy (ctGetCalendarLabel d cb) = ctGetCalendarLabel d cb.
Proof.
  destruct (ctGetCalendarLabel d cb) as [s|] eqn:H; [|reflexivity].
  apply truthy_of_nonempty. eapply label_nonempty; eauto.
Qed.

(** C10. [ctGetCalendarLabel] returns [null] or a string of positive
    length: whenever it returns a string, that string is not empty. *)
Theorem label_never_empty (d : node) (checkbox : path) (s : jstr) :
  ctGetCalendarLabel d checkbox = Some s -> 0 < JS.length s.
Proof. intros H. apply nonempty_length_pos. eapply label_nonempty; eauto. Qed.

(** C10 on a checkbox labelled by its [data-name]. *)
Lemma label_never_empty_witness :
  ctGetCalendarLabel data_doc [O; O] = Some (lit "Team") /\ 0 < JS.length (lit "Team").
Proof.
  split; [reflexivity|].
  apply (label_never_empty data_doc [O; O]). reflexivity.
Defined.

(** The first strategy wins as soon as the referenced element has text. *)
Lemma label_by_reference_wins d cb t :
  label_by_reference d cb = Some t -> ctGetCalendarLabel d cb = Some t.
Proof. intros H. unfold ctGetCalendarLabel. now rewrite H. Qed.

(** C5 (as amended). For a checkbox carrying both [aria-labelledby] and
    [aria-label]: when the referenced element exists and its trimmed text
    is not empty, the label is that trimmed text, not the [aria-label]. *)
Theorem reference_text_wins (d : node) (checkbox labelElement : path)
    (labelledBy ariaLabel text : jstr) :
  attr_at d checkbox "aria-labelledby" = Some labelledBy ->
  attr_at d checkbox "aria-label" = Some ariaLabel ->
  labelledBy <> [] ->
  getElementById d labelledBy = Some labelElement ->
  trimmed_text_at d labelElement = Some text ->
  text <> [] ->
  ctGetCalendarLabel d checkbox = Some text.
Proof.
  intros Hby _ Hne Hid Htext Hnonempty.
  apply label_by_reference_wins. unfold label_by_reference.
  rewrite Hby, (truthy_of_nonempty _ Hne), Hid, Htext.
  now apply truthy_of_nonempty.
Qed.

(** C5 on a checkbox whose referenced [span] reads " Work ". *)
Lemma reference_text_wins_witness :
  ctGetCalendarLabel (both_doc (lit " Work ")) [O; 1%nat] = Some (lit "Work").
Proof.
  apply (reference_text_wins (both_doc (lit " Work ")) [O; 1%nat] [O; O]
           (lit "lbl") (lit "Direct") (lit "Work"));
    solve [reflexivity | discriminate].
Defined.

(** C5 fails as stated: the referenced element exists, its trimmed text is
    empty, and the label is the [aria-label], not that text. *)
Lemma reference_text_blank_loses :
  attr_at (both_doc (lit "  ")) [O; 1%nat] "aria-labelledby" = Some (lit "lbl") /\
  attr_at (both_doc (lit "  ")) [O; 1%nat] "aria-label" = Some (lit "Direct") /\
  getElementById (both_doc (lit "  ")) (lit "lbl") = Some [O; O] /\
  trimmed_text_at (both_doc (lit "  ")) [O; O] = Some [] /\
  ctGetCalendarLabel (both_doc (lit "  ")) [O; 1%nat] = Some (lit "Direct").
Proof. repeat split; reflexivity. Qed.

(** The reference gives nothing when no element has the referenced id. *)
Lemma reference_to_missing_element d checkbox labelledBy :
  attr_at d checkbox "aria-labelledby" = Some labelledBy ->
  getElementById d labelledBy = None ->
  label_by_reference d checkbox = None.
Proof.
  intros Hby Hid. unfold label_by_reference. rewrite Hby.
  destruct (truthy (Some labelledBy)) as [x|] eqn:Hx; [|reflexivity].
  apply truthy_Some in Hx. destruct Hx as [[= <-] _]. now rewrite Hid.
Qed.

(** When the reference gives nothing (no such element, or no text in it), a
    non-empty [aria-label] is the label. *)
Lemma reference_falls_through d checkbox ariaLabel :
  label_by_reference d checkbox = None ->
  attr_at d checkbox "aria-label" = Some ariaLabel ->
  ariaLabel <> [] ->
  ctGetCalendarLabel d checkbox = Some ariaLabel.
Proof.
  intros Href Haria Hne. unfold ctGetCalendarLabel, label_by_aria.
  now rewrite Href, Haria, (truthy_of_nonempty _ Hne).
Qed.

(** A reference to an id no element carries: the label is the
    [aria-label]. *)
Example reference_dangling_loses :
  getElementById dangling_doc (lit "gone") = None /\
  ctGetCalendarLabel dangling_doc [O; 1%nat] = Some (lit "Direct").
Proof. split; reflexivity. Qed.

(** C6 (as amended). In strategy 3, when the container's first label-like
    descendant has no (or an empty) [aria-label], its non-empty trimmed text
    is the result unless it contains the substring "checkbox". *)
Theorem container_text_rule (d : node) (checkbox container label : path) (text : jstr) :
  closest d [Tag "div"; Tag "li"; Tag "span"] checkbox = Some container ->
  querySelector d container [Tag "label"; Tag "span"; Tag "div"] = Some label ->
  truthy (attr_at d label "aria-label") = None ->
  trimmed_text_at d label = Some text ->
  text <> [] ->
  label_by_container d checkbox =
    if includes text (lit "checkbox") then None else Some text.
Proof.
  intros Hc Hq Ha Ht Hne. unfold label_by_container.
  rewrite Hc, Hq, Ha, Ht, (truthy_of_nonempty _ Hne).
  pose proof (nonempty_length_pos _ Hne) as Hlen.
  apply Z.ltb_lt in Hlen. rewrite Hlen. simpl.
  now destruct (includes text (lit "checkbox")).
Qed.

(** C6 on a checkbox whose neighbouring [span] reads "Team sync". *)
Lemma container_text_rule_witness :
  label_by_container (span_doc (lit "Team sync")) [O; O; O] = Some (lit "Team sync").
Proof.
  apply (container_text_rule (span_doc (lit "Team sync")) [O; O; O] [O; O]
           [O; O; 1%nat] (lit "Team sync"));
    solve [reflexivity | discriminate].
Defined.

(** C6 fails as stated: the first label-like element of the container has
    no [aria-label], its text "checkbox list" is not the single word
    "checkbox", yet strategy 3 rejects it; the chain goes on to strategy 4,
    which returns "list". *)
Lemma container_text_with_checkbox_rejected :
  closest (span_doc (lit "checkbox list")) [Tag "div"; Tag "li"; Tag "span"] [O; O; O]
    = Some [O; O] /\
  querySelector (span_doc (lit "checkbox list")) [O; O] [Tag "label"; Tag "span"; Tag "div"]
    = Some [O; O; 1%nat] /\
  attr_at (span_doc (lit "checkbox list")) [O; O; 1%nat] "aria-label" = None /\
  trimmed_text_at (span_doc (lit "checkbox list")) [O; O; 1%nat]
    = Some (lit "checkbox list") /\
  JS.eqb (lit "checkbox list") (lit "checkbox") = false /\
  label_by_container (span_doc (lit "checkbox list")) [O; O; O] = None /\
  ctGetCalendarLabel (span_doc (lit "checkbox list")) [O; O; O] = Some (lit "list").
Proof. repeat split; reflexivity. Qed.

(* ================================================================== *)
(** ** Facts about the document tree *)
(* ================================================================== *)

Lemma elems_Elem t a ks p : elems p (Elem t a ks) = p :: elems_list p O ks.
Proof.
  simpl. f_equal. generalize O.
  induction ks as [|k r IH]; intros i; simpl; [reflexivity|].
  now rewrite IH.
Qed.

Lemma elems_list_in p q : forall l i,
  In q (elems_list p i l) <->
  exists j k, l !! j = Some k /\ In q (elems (p ++ [(i + j)%nat]) k).
Proof.
  induction l as [|k r IH]; intros i; simpl.
  - split; [tauto|]. intros (j & k & H & _). destruct j; discriminate.
  - rewrite in_app_iff, IH. split.
    + intros [H | (j & k' & Hj & H)].
      * exists O, k. rewrite Nat.add_0_r. auto.
      * exists (S j), k'. rewrite Nat.add_succ_r. auto.
    + intros (j & k' & Hj & H). destruct j as [|j]; simpl in Hj.
      * injection Hj as ->. rewrite Nat.add_0_r in H. auto.
      * right. exists j, k'. rewrite Nat.add_succ_r in H. auto.
Qed.

(** [elems] lists exactly the references below [p] that lead to elements. *)
Lemma elems_in n : forall p q,
  In q (elems p n) <->
  exists r e, q = p ++ r /\ get n r = Some e /\ is_elem e = true.
Proof.
  induction n as [s | t a ks IH] using node_rect'; intros p q.
  - simpl. split; [tauto|]. intros (r & e & _ & Hget & He).
    destruct r as [|i r]; simpl in Hget.
    + injection Hget as <-. discriminate.
    + discriminate.
  - rewrite elems_Elem. simpl. rewrite elems_list_in. split.
    + intros [<- | (j & k & Hj & H)].
      * exists [], (Elem t a ks). rewrite app_nil_r. auto.
      * rewrite Forall_forall in IH.
        assert (Hk : k ∈ ks) by (eapply list_elem_of_lookup_2; eauto).
        apply (IH k Hk) in H. destruct H as (r & e & -> & Hget & He).
        exists (j :: r), e. simpl. rewrite Hj. rewrite <- app_assoc. auto.
    + intros (r & e & -> & Hget & He). destruct r as [|j r]; simpl in Hget.
      * left. now rewrite app_nil_r.
      * right. destruct (ks !! j) as [k|] eqn:Hj; [|discriminate].
        exists j, k. split; [exact Hj|].
        rewrite Forall_forall in IH.
        assert (Hk : k ∈ ks) by (eapply list_elem_of_lookup_2; eauto).
        apply (IH k Hk). exists r, e. simpl. rewrite <- app_assoc. auto.
Qed.

Lemma get_app d : forall p r n, get d p = Some n -> get d (p ++ r) = get n r.
Proof.
  revert d. intros d p. revert d.
  induction p as [|i p IH]; intros d r n; simpl.
  - now intros [= ->].
  - destruct (children d !! i); [apply IH | discriminate].
Qed.

Lemma in_tail {A} (x : A) l : In x (List.tail l) -> In x l.
Proof. destruct l; simpl; auto. Qed.

(** What a subtree query finds, the document query finds too. *)
Lemma querySelectorAll_in_document d root sel q :
  In q (querySelectorAll d root sel) -> In q (document_querySelectorAll d sel).
Proof.
  unfold querySelectorAll, document_querySelectorAll.
  destruct (get d root) as [n|] eqn:Hroot; [|intros []].
  rewrite !filter_In. intros [Hin Hm]. split; [|exact Hm].
  apply in_tail, elems_in in Hin. destruct Hin as (r & e & -> & Hget & He).
  apply elems_in. exists (root ++ r), e. split; [reflexivity|].
  split; [|exact He]. now rewrite (get_app _ _ _ _ Hroot).
Qed.

(* ================================================================== *)
(** ** What the asynchronous functions do, under a page invariant *)
(* ================================================================== *)

(** Closes a conjunction of closed equations by evaluation. *)
Ltac evaluate :=
  repeat match goal with |- _ /\ _ => split; [vm_compute; reflexivity|] end;
  vm_compute; reflexivity.

Ltac munfold :=
  unfold mbind, M_bind, bind, mret, M_ret, ret, reads, lift, try_catch in *.

Lemma section_round_no_error d : exists r, section_round d = Val r.
Proof.
  unfold section_round.
  destruct (section_by_selectors d CT_CALENDAR_SELECTORS); [eauto|].
  destruct (document_querySelectorAll d CT_CHECKBOX_SELECTOR) as [|c l] eqn:Hall;
    simpl; [eauto|].
  destruct (closest d fallback_selector c); [eauto|].
  destruct (section_by_closest d l); eauto.
Qed.

Lemma drawer_no_error d : exists r, ctFindDrawerScrollContainer d = Val r.
Proof.
  unfold ctFindDrawerScrollContainer.
  destruct (List.filter _ _) as [|h l]; simpl; [eauto|].
  destruct (parentElement h); [|eauto].
  destruct (matches_at d [Tag "div"] p); eauto.
Qed.

Section Invariant.

Variable host : host_t.
Variable Inv : page -> Prop.
Hypothesis host_keeps : forall ms w, Inv (pg w) -> Inv (host ms w).
Hypothesis layout_free : forall p lay,
  Inv p -> Inv {| doc := doc p; checkedOf := checkedOf p; layout := lay |}.

Lemma find_section_loop_inv : forall n w,
  Inv (pg w) ->
  exists r w' k,
    find_section_loop host n w = Ok r w' /\ Inv (pg w') /\
    clicks w' = clicks w /\ scrolls w' = scrolls w /\
    (k <= n)%nat /\ sleeps w' = sleeps w ++ repeat 500 k /\
    now w' = now w + 500 * Z.of_nat k /\
    match r with
    | Some s => section_round (doc (pg w')) = Val (Some s)
    | None => k = n /\ (n = O \/ exists p, Inv p /\ section_round (doc p) = Val None)
    end.
Proof.
  induction n as [|n IH]; intros w HI.
  - exists None, w, O. simpl. rewrite app_nil_r. repeat split; auto; lia.
  - simpl. munfold.
    destruct (section_round_no_error (doc (pg w))) as [r Hr]. rewrite Hr.
    destruct r as [s|].
    + exists (Some s), w, O. simpl. rewrite app_nil_r. repeat split; auto; lia.
    + unfold ctSleep at 1.
      match goal with |- context [find_section_loop host n ?w1] =>
        destruct (IH w1) as (r & w' & k & Hrun & HI' & Hc & Hs & Hk & Hsl & Hnow & Hr')
      end.
      { simpl. now apply host_keeps. }
      exists r, w', (S k). rewrite Hrun. simpl in *.
      repeat split; auto; try lia.
      * rewrite Hsl, <- app_assoc. reflexivity.
      * destruct r as [s|]; [exact Hr'|].
        destruct Hr' as [-> _]. split; [reflexivity|]. right. eauto.
Qed.

Lemma sweep_down_inv label e : forall left cur w,
  Inv (pg w) ->
  exists r w' n,
    sweep_down host label e left cur w = Ok r w' /\ Inv (pg w') /\
    clicks w' = clicks w /\ (n <= left)%nat /\
    scrolls w' = scrolls w ++ down_writes e cur n /\
    sleeps w' = sleeps w ++ repeat 300 n /\
    now w' = now w + 300 * Z.of_nat n /\
    match r with
    | Some c => ctFindCheckboxByLabel (doc (pg w')) label = Some c
    | None => (n < left)%nat -> reached_max (layout (pg w') e)
    end.
Proof.
  induction left as [|left IH]; intros cur w HI.
  - exists None, w, O. simpl. rewrite !app_nil_r. repeat split; auto; lia.
  - simpl. munfold. unfold set_scrollTop at 1, ctSleep at 1. simpl.
    match goal with |- context [ctFindCheckboxByLabel (doc (host 300 ?w0)) label] =>
      set (w1 := w0) end.
    set (w2 := {| pg := host 300 w1; now := now w + 300; clicks := clicks w;
                  scrolls := scrolls w ++ [(e, cur + scrollStep)];
                  sleeps := sleeps w ++ [300] |}).
    assert (HI2 : Inv (pg w2)).
    { simpl. apply host_keeps. simpl. now apply layout_free. }
    destruct (ctFindCheckboxByLabel (doc (host 300 w1)) label) as [c|] eqn:Hfind.
    + exists (Some c), w2, 1%nat. simpl. repeat split; auto; lia.
    + match goal with |- context [if ?c then _ else _] => destruct c eqn:Hmax end.
      * exists None, w2, 1%nat. simpl. repeat split; auto; try lia.
        intros _. unfold reached_max. now apply Z.leb_le.
      * destruct (IH (cur + scrollStep) w2 HI2)
          as (r & w' & n & Hrun & HI' & Hc & Hn & Hs & Hsl & Hnow & Hr).
        exists r, w', (S n). fold w2. rewrite Hrun. simpl in *.
        repeat split; auto; try lia.
        -- rewrite Hs, <- app_assoc. reflexivity.
        -- rewrite Hsl, <- app_assoc. reflexivity.
        -- destruct r; [exact Hr|]. intros ?. apply Hr. lia.
Qed.

Lemma sweep_up_inv label e : forall left cur w,
  Inv (pg w) ->
  exists r w' n,
    sweep_up host label e left cur w = Ok r w' /\ Inv (pg w') /\
    clicks w' = clicks w /\ (n <= left)%nat /\
    scrolls w' = scrolls w ++ up_writes e cur n /\
    sleeps w' = sleeps w ++ repeat 300 n /\
    now w' = now w + 300 * Z.of_nat n /\
    match r with
    | Some c => ctFindCheckboxByLabel (doc (pg w')) label = Some c
    | None => (n < left)%nat -> up_pos cur n <= 0
    end.
Proof.
  induction left as [|left IH]; intros cur w HI.
  - exists None, w, O. simpl. rewrite !app_nil_r. repeat split; auto; lia.
  - simpl. munfold. unfold set_scrollTop at 1, ctSleep at 1. simpl.
    match goal with |- context [ctFindCheckboxByLabel (doc (host 300 ?w0)) label] =>
      set (w1 := w0) end.
    set (w2 := {| pg := host 300 w1; now := now w + 300; clicks := clicks w;
                  scrolls := scrolls w ++ [(e, Z.max 0 (cur - scrollStep))];
                  sleeps := sleeps w ++ [300] |}).
    assert (HI2 : Inv (pg w2)).
    { simpl. apply host_keeps. simpl. now apply layout_free. }
    destruct (ctFindCheckboxByLabel (doc (host 300 w1)) label) as [c|] eqn:Hfind.
    + exists (Some c), w2, 1%nat. simpl. repeat split; auto; lia.
    + match goal with |- context [if ?c then _ else _] => destruct c eqn:Hzero end.
      * exists None, w2, 1%nat. simpl. repeat split; auto; try lia.
      * destruct (IH (Z.max 0 (cur - scrollStep)) w2 HI2)
          as (r & w' & n & Hrun & HI' & Hc & Hn & Hs & Hsl & Hnow & Hr).
        exists r, w', (S n). fold w2. rewrite Hrun. simpl in *.
        repeat split; auto; try lia.
        -- rewrite Hs, <- app_assoc. reflexivity.
        -- rewrite Hsl, <- app_assoc. reflexivity.
        -- destruct r; [exact Hr|]. intros ?. apply Hr. lia.
Qed.

Lemma find_and_scroll_inv label w :
  Inv (pg w) ->
  exists r w',
    ctFindAndScrollToCheckbox host label w = Ok r w' /\ Inv (pg w') /\
    clicks w' = clicks w /\ now w <= now w' /\
    exists p, Inv p /\ ctFindCheckboxByLabel (doc p) label = r.
Proof.
  intros HI. unfold ctFindAndScrollToCheckbox. munfold.
  destruct (ctFindCheckboxByLabel (doc (pg w)) label) as [c|] eqn:Hfind.
  { exists (Some c), w. repeat split; eauto; lia. }
  destruct (drawer_no_error (doc (pg w))) as [dc Hdc]. rewrite Hdc.
  destruct dc as [dc|].
  2:{ exists None, w. repeat split; eauto; lia. }
  destruct (sweep_down_inv label dc maxScrollAttempts
              (scrollTop (layout (pg w) dc)) w HI)
    as (r & w1 & n & Hrun & HI1 & Hc1 & _ & _ & _ & Hnow1 & Hr).
  rewrite Hrun. destruct r as [c|].
  { exists (Some c), w1. repeat split; eauto; lia. }
  destruct (sweep_up_inv label dc maxScrollAttempts
              (scrollTop (layout (pg w1) dc)) w1 HI1)
    as (r & w2 & m & Hrun2 & HI2 & Hc2 & _ & _ & _ & Hnow2 & Hr2).
  rewrite Hrun2. exists r, w2. repeat split; auto; try congruence; try lia.
  destruct r as [c|]; eauto.
Qed.

End Invariant.

Lemma get_checkboxes_run host w r w' :
  ctFindCalendarSection host w = Ok r w' ->
  ctGetCalendarCheckboxes host w =
    Ok (match r with Some s => collect_in (pg w') s | None => [] end) w'.
Proof.
  intros H. unfold ctGetCalendarCheckboxes. munfold. rewrite H.
  now destruct r.
Qed.

Lemma collect_fold pg : forall l acc,
  fold_left (collect_step pg) l acc = acc ++ omap (handle_of pg) l.
Proof.
  induction l as [|c l IH]; intros acc; simpl.
  - now rewrite app_nil_r.
  - rewrite IH. unfold collect_step, handle_of. rewrite truthy_label.
    destruct (ctGetCalendarLabel (doc pg) c); simpl.
    + now rewrite <- app_assoc.
    + reflexivity.
Qed.

Lemma collect_in_omap pg section :
  collect_in pg section =
    omap (handle_of pg) (querySelectorAll (doc pg) section CT_CHECKBOX_SELECTOR).
Proof. unfold collect_in. now rewrite collect_fold. Qed.

(** C4. [ctGetCalendarCheckboxes] never throws. When the section is not
    found it returns the empty list; otherwise it returns, in document
    order, the checkboxes of the section whose label is not [null], each
    with its label and its current checked state; the others are left out. *)
Theorem collector_spec (host : host_t) (w : world) :
  exists section w',
    ctFindCalendarSection host w = Ok section w' /\
    ctGetCalendarCheckboxes host w =
      Ok (match section with
          | None => []
          | Some s =>
            omap (fun checkbox =>
                    match ctGetCalendarLabel (doc (pg w')) checkbox with
                    | Some l =>
                      Some {| element := checkbox; label := l;
                              checked := checkedOf (pg w') checkbox |}
                    | None => None
                    end)
                 (querySelectorAll (doc (pg w')) s CT_CHECKBOX_SELECTOR)
          end) w'.
Proof.
  destruct (find_section_loop_inv host any_page (fun _ _ _ => I) 10 w I)
    as (r & w' & k & Hrun & _).
  exists r, w'. split; [exact Hrun|].
  rewrite (get_checkboxes_run _ _ _ _ Hrun).
  destruct r as [s|]; [|reflexivity].
  now rewrite collect_in_omap.
Qed.

(** C9. The discovery layer never throws: for every host and every world,
    [ctFindCalendarSection] and [ctFindAndScrollToCheckbox] end normally
    with an element or [null] (their synchronous parts never read a
    property of [undefined]), and [ctGetCalendarLabel] yields a string or
    [null]. *)
Theorem discovery_never_throws (host : host_t) (w : world) (label : jstr)
    (checkbox : path) :
  (exists r w', ctFindCalendarSection host w = Ok r w') /\
  (exists r w', ctFindAndScrollToCheckbox host label w = Ok r w') /\
  (exists r, section_round (doc (pg w)) = Val r) /\
  (exists r, ctFindDrawerScrollContainer (doc (pg w)) = Val r) /\
  (exists r, lift (Val (ctGetCalendarLabel (doc (pg w)) checkbox)) w = Ok r w).
Proof.
  split.
  { destruct (find_section_loop_inv host any_page (fun _ _ _ => I) 10 w I)
      as (r & w' & k & Hrun & _). eauto. }
  split.
  { destruct (find_and_scroll_inv host any_page (fun _ _ _ => I) (fun _ _ _ => I)
                label w I) as (r & w' & Hrun & _). eauto. }
  split; [apply section_round_no_error|].
  split; [apply drawer_no_error|].
  eexists. reflexivity.
Qed.

(* ================================================================== *)
(** ** ScrollSearcher: bounded sweeps *)
(* ================================================================== *)

(** The [i]-th downward write is the start offset plus [i + 1] steps. *)
Lemma down_writes_nth e : forall n cur i,
  (i < n)%nat ->
  down_writes e cur n !! i = Some (e, cur + scrollStep * Z.of_nat (S i)).
Proof.
  induction n as [|n IH]; intros cur i Hi; [lia|].
  destruct i as [|i]; simpl.
  - do 2 f_equal.
  - rewrite IH by lia. do 2 f_equal. lia.
Qed.

Lemma down_writes_length e : forall n cur, List.length (down_writes e cur n) = n.
Proof. induction n as [|n IH]; intros cur; simpl; [reflexivity | now rewrite IH]. Qed.

Lemma up_writes_length e : forall n cur, List.length (up_writes e cur n) = n.
Proof. induction n as [|n IH]; intros cur; simpl; [reflexivity | now rewrite IH]. Qed.

Lemma sweep_down_step host label e left cur w :
  sweep_down host label e (S left) cur w =
    let w2 := sweep_round host e (cur + scrollStep) w in
    match ctFindCheckboxByLabel (doc (pg w2)) label with
    | Some c => Ok (Some c) w2
    | None =>
      if scrollHeight (layout (pg w2) e) - clientHeight (layout (pg w2) e)
         <=? scrollTop (layout (pg w2) e)
      then Ok None w2
      else sweep_down host label e left (cur + scrollStep) w2
    end.
Proof.
  cbn [sweep_down]. munfold. unfold sweep_round, after, set_scrollTop, ctSleep.
  munfold. cbv zeta. cbn [pg].
  destruct (ctFindCheckboxByLabel _ _); [reflexivity|].
  destruct (_ <=? _); reflexivity.
Qed.

Lemma sweep_up_step host label e left cur w :
  sweep_up host label e (S left) cur w =
    let v := Z.max 0 (cur - scrollStep) in
    let w2 := sweep_round host e v w in
    match ctFindCheckboxByLabel (doc (pg w2)) label with
    | Some c => Ok (Some c) w2
    | None => if v <=? 0 then Ok None w2 else sweep_up host label e left v w2
    end.
Proof.
  cbn [sweep_up]. munfold. unfold sweep_round, after, set_scrollTop, ctSleep.
  munfold. cbv zeta. cbn [pg].
  destruct (ctFindCheckboxByLabel _ _); [reflexivity|].
  destruct (_ <=? _); reflexivity.
Qed.

Section Absent.

Variable host : host_t.
Variable label : jstr.
Hypothesis stays_absent :
  forall ms w, absent label (pg w) -> absent label (host ms w).

Lemma sweep_round_absent e v w :
  absent label (pg w) -> absent label (pg (sweep_round host e v w)).
Proof. intros H. unfold sweep_round. simpl. apply stays_absent. exact H. Qed.

Lemma sweep_round_logs e v w :
  scrolls (sweep_round host e v w) = scrolls w ++ [(e, v)] /\
  sleeps (sweep_round host e v w) = sleeps w ++ [300] /\
  now (sweep_round host e v w) = now w + 300 /\
  clicks (sweep_round host e v w) = clicks w.
Proof. repeat split. Qed.

Lemma sweep_down_absent e : forall left cur w,
  absent label (pg w) -> (0 < left)%nat ->
  exists n,
    (1 <= n <= left)%nat /\
    sweep_down host label e left cur w = Ok None (down_world host e cur n w) /\
    absent label (pg (down_world host e cur n w)) /\
    (forall i, (1 <= i < n)%nat ->
               ~ reached_max (layout (pg (down_world host e cur i w)) e)) /\
    ((n < left)%nat -> reached_max (layout (pg (down_world host e cur n w)) e)) /\
    scrolls (down_world host e cur n w) = scrolls w ++ down_writes e cur n /\
    sleeps (down_world host e cur n w) = sleeps w ++ repeat 300 n /\
    now (down_world host e cur n w) = now w + 300 * Z.of_nat n.
Proof.
  induction left as [|left IH]; intros cur w Habs Hpos; [lia|].
  pose proof (sweep_round_absent e (cur + scrollStep) w Habs) as Habs2.
  destruct (sweep_round_logs e (cur + scrollStep) w) as (Hs2 & Hsl2 & Hn2 & _).
  rewrite sweep_down_step. cbv zeta.
  set (w2 := sweep_round host e (cur + scrollStep) w) in *.
  unfold absent in Habs2. rewrite Habs2. fold (absent label (pg w2)) in Habs2.
  destruct (scrollHeight (layout (pg w2) e) - clientHeight (layout (pg w2) e)
            <=? scrollTop (layout (pg w2) e)) eqn:Hmax.
  - exists 1%nat. cbn [down_world down_writes repeat]. fold w2.
    split; [lia|]. split; [reflexivity|]. split; [exact Habs2|].
    split; [intros i Hi; lia|]. split.
    { intros _. unfold reached_max. now apply Z.leb_le. }
    rewrite Hs2, Hsl2, Hn2. repeat split; lia.
  - apply Z.leb_gt in Hmax.
    destruct left as [|left'].
    + exists 1%nat. cbn [down_world down_writes repeat sweep_down]. fold w2.
      split; [lia|]. split; [reflexivity|]. split; [exact Habs2|].
      split; [intros i Hi; lia|]. split; [intros Hlt; lia|].
      rewrite Hs2, Hsl2, Hn2. repeat split; lia.
    + destruct (IH (cur + scrollStep) w2 Habs2 ltac:(lia))
        as (n & Hn & Hrun & Ha & Hbefore & Hlast & Hs & Hsl & Hnow).
      exists (S n). cbn [down_world down_writes repeat]. fold w2.
      split; [lia|]. split; [exact Hrun|]. split; [exact Ha|].
      split; [|split; [|split; [|split]]].
      * intros i Hi. destruct i as [|i]; [lia|]. cbn [down_world]. fold w2.
        destruct i as [|i].
        -- cbn [down_world]. unfold reached_max. lia.
        -- apply Hbefore. lia.
      * intros Hlt. apply Hlast. lia.
      * rewrite Hs, Hs2, <- app_assoc. reflexivity.
      * rewrite Hsl, Hsl2, <- app_assoc. reflexivity.
      * rewrite Hnow, Hn2. lia.
Qed.

Lemma sweep_up_absent e : forall left cur w,
  absent label (pg w) -> (0 < left)%nat ->
  exists m,
    (1 <= m <= left)%nat /\
    sweep_up host label e left cur w = Ok None (up_world host e cur m w) /\
    absent label (pg (up_world host e cur m w)) /\
    (forall j, (1 <= j < m)%nat -> 0 < up_pos cur j) /\
    ((m < left)%nat -> up_pos cur m <= 0) /\
    scrolls (up_world host e cur m w) = scrolls w ++ up_writes e cur m /\
    sleeps (up_world host e cur m w) = sleeps w ++ repeat 300 m /\
    now (up_world host e cur m w) = now w + 300 * Z.of_nat m.
Proof.
  induction left as [|left IH]; intros cur w Habs Hpos; [lia|].
  set (v := Z.max 0 (cur - scrollStep)).
  pose proof (sweep_round_absent e v w Habs) as Habs2.
  destruct (sweep_round_logs e v w) as (Hs2 & Hsl2 & Hn2 & _).
  rewrite sweep_up_step. cbv zeta. fold v.
  set (w2 := sweep_round host e v w) in *.
  unfold absent in Habs2. rewrite Habs2. fold (absent label (pg w2)) in Habs2.
  destruct (v <=? 0) eqn:Hzero.
  - apply Z.leb_le in Hzero.
    exists 1%nat. cbn [up_world up_writes repeat up_pos]. fold v. fold w2.
    split; [lia|]. split; [reflexivity|]. split; [exact Habs2|].
    split; [intros j Hj; lia|]. split; [intros _; exact Hzero|].
    rewrite Hs2, Hsl2, Hn2. repeat split; lia.
  - apply Z.leb_gt in Hzero.
    destruct left as [|left'].
    + exists 1%nat. cbn [up_world up_writes repeat up_pos sweep_up]. fold v. fold w2.
      split; [lia|]. split; [reflexivity|]. split; [exact Habs2|].
      split; [intros j Hj; lia|]. split; [intros Hlt; lia|].
      rewrite Hs2, Hsl2, Hn2. repeat split; lia.
    + destruct (IH v w2 Habs2 ltac:(lia))
        as (m & Hm & Hrun & Ha & Hbefore & Hlast & Hs & Hsl & Hnow).
      exists (S m). cbn [up_world up_writes repeat up_pos]. fold v. fold w2.
      split; [lia|]. split; [exact Hrun|]. split; [exact Ha|].
      split; [|split; [|split; [|split]]].
      * intros j Hj. destruct j as [|j]; [lia|]. cbn [up_pos]. fold v.
        destruct j as [|j]; [exact Hzero|]. apply Hbefore. lia.
      * intros Hlt. apply Hlast. lia.
      * rewrite Hs, Hs2, <- app_assoc. reflexivity.
      * rewrite Hsl, Hsl2, <- app_assoc. reflexivity.
      * rewrite Hnow, Hn2. lia.
Qed.

End Absent.

(** C7. When the label never appears (it is absent and the host never
    renders it), [ctFindAndScrollToCheckbox] returns [null]. With a drawer
    container it runs [n] downward rounds, [1 <= n <= 10], each writing the
    previous offset plus 200 and sleeping 300 ms: the loop stops after the
    first round that leaves the offset at the container's maximum, and
    after the tenth at the latest. Then it runs [m] upward rounds,
    [1 <= m <= 10], each writing the previous offset minus 200 (not below
    0): the loop stops after the first round that has written 0, and after
    the tenth at the latest. *)
Theorem scroll_search_bounded (host : host_t) (label : jstr) (w : world) :
  absent label (pg w) ->
  (forall ms w0, absent label (pg w0) -> absent label (host ms w0)) ->
  sweeps_exhausted host label w.
Proof.
  intros Habs Hhost. unfold sweeps_exhausted.
  destruct (drawer_no_error (doc (pg w))) as [dc Hdc].
  unfold ctFindAndScrollToCheckbox. munfold. rewrite Habs, Hdc.
  destruct dc as [e|]; [|reflexivity].
  destruct (sweep_down_absent host label Hhost e maxScrollAttempts
              (scrollTop (layout (pg w) e)) w Habs)
    as (n & Hn & Hrun & Ha1 & Hbefore & Hlast & Hs1 & Hsl1 & Hnow1);
    [unfold maxScrollAttempts; lia|].
  set (w1 := down_world host e (scrollTop (layout (pg w) e)) n w) in *.
  destruct (sweep_up_absent host label Hhost e maxScrollAttempts
              (scrollTop (layout (pg w1) e)) w1 Ha1)
    as (m & Hm & Hrun2 & Ha2 & Hbefore2 & Hlast2 & Hs2 & Hsl2 & Hnow2);
    [unfold maxScrollAttempts; lia|].
  exists n, m. cbv zeta. fold w1. rewrite Hrun, Hrun2.
  split; [reflexivity|]. split; [reflexivity|]. split; [reflexivity|].
  split; [exact Hn|]. split; [exact Hm|]. split; [exact Hbefore|].
  split; [exact Hlast|]. split; [exact Hbefore2|]. split; [exact Hlast2|].
  split; [|split].
  - rewrite Hs2, Hs1, <- app_assoc. reflexivity.
  - rewrite Hsl2, Hsl1, <- app_assoc, repeat_app. reflexivity.
  - rewrite Hnow2, Hnow1. lia.
Qed.

(* ================================================================== *)
(** ** LoadGate: the timeout *)
(* ================================================================== *)

Lemma not_ready_empty p s :
  ~ toggles_ready p -> section_round (doc p) = Val (Some s) -> collect_in p s = [].
Proof.
  intros H Hs. destruct (collect_in p s) eqn:E; [reflexivity|].
  exfalso. apply H. exists s. split; [exact Hs|]. rewrite E. discriminate.
Qed.

Lemma total_app l1 l2 : total (l1 ++ l2) = total l1 + total l2.
Proof. unfold total. induction l1 as [|x l1 IH]; simpl; [reflexivity | lia]. Qed.

Lemma total_repeat x n : total (repeat x n) = x * Z.of_nat n.
Proof. unfold total. induction n as [|n IH]; simpl; [lia | lia]. Qed.

Section Barren.

Variable host : host_t.
Hypothesis stays_barren :
  forall ms w, ~ toggles_ready (pg w) -> ~ toggles_ready (host ms w).

Lemma wait_loop_barren startTime : forall fuel w,
  ~ toggles_ready (pg w) ->
  maxWait - (now w - startTime) <= checkInterval * Z.of_nat fuel ->
  now w - startTime < maxWait + 11000 ->
  exists w' rounds,
    wait_loop host startTime fuel w = Throw (LoadTimeout (raw_toggle_count w')) w' /\
    maxWait <= now w' - startTime < maxWait + 11000 /\
    (List.length rounds <= fuel)%nat /\
    Forall (fun k => (k <= 20)%nat) rounds /\
    sleeps w' = sleeps w ++ poll_log rounds /\
    now w' = now w + total (poll_log rounds).
Proof.
  induction fuel as [|fuel IH]; intros w HI Hfuel Hcap.
  - exists w, []. simpl. rewrite app_nil_r.
    destruct (now w - startTime <? maxWait) eqn:Hlt.
    + apply Z.ltb_lt in Hlt. lia.
    + apply Z.ltb_ge in Hlt. unfold total. simpl. repeat split; auto; lia.
  - simpl. destruct (now w - startTime <? maxWait) eqn:Hlt.
    2:{ apply Z.ltb_ge in Hlt. exists w, []. simpl. rewrite app_nil_r.
        unfold total. simpl. repeat split; auto; lia. }
    apply Z.ltb_lt in Hlt. munfold.
    destruct (find_section_loop_inv host (fun p => ~ toggles_ready p) stays_barren 10 w HI)
      as (r & w1 & k1 & Hrun & HI1 & _ & _ & Hk1 & Hsl1 & Hnow1 & Hr1).
    fold (ctFindCalendarSection host) in Hrun. rewrite Hrun.
    assert (Hgo : forall w2 k2,
              ~ toggles_ready (pg w2) -> (k2 <= 10)%nat ->
              sleeps w2 = sleeps w1 ++ repeat 500 k2 ->
              now w2 = now w1 + 500 * Z.of_nat k2 ->
              exists w' rounds,
                (ctSleep host checkInterval ;; wait_loop host startTime fuel) w2
                  = Throw (LoadTimeout (raw_toggle_count w')) w' /\
                maxWait <= now w' - startTime < maxWait + 11000 /\
                (List.length rounds <= S fuel)%nat /\
                Forall (fun k => (k <= 20)%nat) rounds /\
                sleeps w' = sleeps w ++ poll_log rounds /\
                now w' = now w + total (poll_log rounds)).
    { intros w2 k2 HI2 Hk2 Hsl2 Hnow2. munfold. unfold ctSleep at 1.
      match goal with |- context [wait_loop host startTime fuel ?w3] =>
        destruct (IH w3) as (w' & rounds & Hthrow & Hlate & Hn & Hall & Hsl' & Hnow')
      end.
      - simpl. now apply stays_barren.
      - simpl. unfold checkInterval in *. lia.
      - simpl. unfold checkInterval. lia.
      - exists w', ((k1 + k2)%nat :: rounds). rewrite Hthrow.
        simpl in Hsl', Hnow'. split; [reflexivity|]. split; [exact Hlate|].
        split; [simpl; lia|]. split; [constructor; [lia | exact Hall]|]. split.
        + rewrite Hsl', Hsl2, Hsl1. simpl. rewrite repeat_app, <- !app_assoc.
          reflexivity.
        + rewrite Hnow', Hnow2, Hnow1. cbn [poll_log].
          rewrite total_app, total_repeat. unfold total at 2. cbn [fold_right].
          fold (total (poll_log rounds)). lia. }
    munfold. destruct r as [s|].
    + destruct (find_section_loop_inv host (fun p => ~ toggles_ready p) stays_barren
                  10 w1 HI1)
        as (r2 & w2 & k2 & Hrun2 & HI2 & _ & _ & Hk2 & Hsl2 & Hnow2 & Hr2).
      fold (ctFindCalendarSection host) in Hrun2.
      rewrite (get_checkboxes_run _ _ _ _ Hrun2).
      assert (Hempty : match r2 with Some s0 => collect_in (pg w2) s0 | None => [] end = [])
        by (destruct r2; [now apply not_ready_empty | reflexivity]).
      rewrite Hempty. simpl. exact (Hgo w2 k2 HI2 Hk2 Hsl2 Hnow2).
    + apply (Hgo w1 O HI1); simpl; [lia | now rewrite app_nil_r | lia].
Qed.

End Barren.

(** Once the loop has thrown, more fuel changes nothing. *)
Lemma wait_loop_more_fuel host : forall f1 start w0 e w1,
  wait_loop host start f1 w0 = Throw e w1 ->
  forall f2, (f1 <= f2)%nat -> wait_loop host start f2 w0 = Throw e w1.
Proof.
  induction f1 as [|f1 IH]; intros start w0 e w1 H f2 Hle.
  - simpl in H. destruct f2; simpl.
    + exact H.
    + destruct (now w0 - start <? maxWait); [discriminate | exact H].
  - destruct f2 as [|f2]; [lia|]. simpl in *.
    destruct (now w0 - start <? maxWait); [|exact H].
    munfold.
    destruct (ctFindCalendarSection host w0) as [r wa| |]; try exact H.
    match type of H with
    | match ?X with Ok _ _ => _ | Throw _ _ => _ | OutOfFuel => _ end = _ =>
      destruct X as [b wb| |]
    end; try exact H.
    destruct b; [exact H|].
    unfold ctSleep at 1. unfold ctSleep at 1 in H.
    eapply IH; [exact H | lia].
Qed.

(** Whatever the host does, the loop throws only once [maxWait] has
    passed, and what it throws is the timeout with the current count. *)
Lemma wait_loop_throws_late host start : forall fuel w e w',
  wait_loop host start fuel w = Throw e w' ->
  maxWait <= now w' - start /\ e = LoadTimeout (raw_toggle_count w').
Proof.
  induction fuel as [|fuel IH]; intros w e w' H; simpl in H.
  - destruct (now w - start <? maxWait) eqn:Hlt; [discriminate|].
    apply Z.ltb_ge in Hlt. injection H as <- <-. auto.
  - destruct (now w - start <? maxWait) eqn:Hlt.
    2:{ apply Z.ltb_ge in Hlt. injection H as <- <-. auto. }
    munfold.
    destruct (find_section_loop_inv host any_page (fun _ _ _ => I) 10 w I)
      as (r & w1 & k1 & Hrun & _).
    fold (ctFindCalendarSection host) in Hrun. rewrite Hrun in H.
    destruct r as [s|].
    + destruct (find_section_loop_inv host any_page (fun _ _ _ => I) 10 w1 I)
        as (r2 & w2 & k2 & Hrun2 & _).
      fold (ctFindCalendarSection host) in Hrun2.
      rewrite (get_checkboxes_run _ _ _ _ Hrun2) in H.
      destruct (0 <? _); [discriminate|].
      unfold ctSleep at 1 in H. exact (IH _ _ _ H).
    + unfold ctSleep at 1 in H. exact (IH _ _ _ H).
Qed.

(** C8 (as amended). When no toggle ever becomes discoverable (the
    collector has nothing to return on the page, and the host never makes a
    page where it has), [ctWaitForCalendarLoad] throws its timeout error,
    carrying the number of checkboxes in the document at that moment. It
    throws at the first loop test at or after [maxWait] = 30000 ms, less
    than 11000 ms later, after at most 30 polls. The polls are not one
    second apart: each is followed by a sleep of [checkInterval] = 1000 ms,
    but a poll itself sleeps 500 ms for each of its section retries, up to
    20 of them. *)
Theorem load_gate_times_out (host : host_t) (w : world) (fuel : nat) :
  (30 <= fuel)%nat ->
  ~ toggles_ready (pg w) ->
  (forall ms w0, ~ toggles_ready (pg w0) -> ~ toggles_ready (host ms w0)) ->
  exists w' rounds,
    ctWaitForCalendarLoad host fuel w = Throw (LoadTimeout (raw_toggle_count w')) w' /\
    maxWait <= now w' - now w < maxWait + 11000 /\
    (List.length rounds <= 30)%nat /\
    Forall (fun k => (k <= 20)%nat) rounds /\
    sleeps w' = sleeps w ++ poll_log rounds /\
    now w' = now w + total (poll_log rounds).
Proof.
  intros Hfuel HI Hhost. unfold ctWaitForCalendarLoad.
  destruct (wait_loop_barren host Hhost (now w) 30 w HI)
    as (w' & rounds & Hrun & Hlate & Hn & Hall & Hsl & Hnow).
  { unfold maxWait, checkInterval. lia. }
  { unfold maxWait. lia. }
  exists w', rounds. repeat split; auto; try lia.
  eapply wait_loop_more_fuel; eauto.
Qed.

(* ================================================================== *)
(** ** A page that does not re-render: [static_host] *)
(* ================================================================== *)

Lemma same_toggles_refl w : same_toggles w w.
Proof. repeat split. Qed.

Lemma same_toggles_trans w1 w2 w3 :
  same_toggles w1 w2 -> same_toggles w2 w3 -> same_toggles w1 w3.
Proof. unfold same_toggles. intuition congruence. Qed.

Lemma frozen_static d c ms w : frozen d c (pg w) -> frozen d c (static_host ms w).
Proof. exact (fun H => H). Qed.

Lemma frozen_layout d c p lay :
  frozen d c p -> frozen d c {| doc := doc p; checkedOf := checkedOf p; layout := lay |}.
Proof. exact (fun H => H). Qed.

Lemma static_section w :
  exists w', ctFindCalendarSection static_host w = Ok (located (doc (pg w))) w' /\
             same_toggles w w'.
Proof.
  destruct (find_section_loop_inv static_host
              (frozen (doc (pg w)) (checkedOf (pg w)))
              (frozen_static _ _) 10 w (conj eq_refl eq_refl))
    as (r & w' & k & Hrun & [Hd Hc] & Hcl & _ & _ & _ & _ & Hr).
  exists w'. split; [|now repeat split].
  unfold ctFindCalendarSection. rewrite Hrun. f_equal.
  unfold located. destruct r as [s|].
  - rewrite Hd in Hr. now rewrite Hr.
  - destruct Hr as [_ [Hn | (p & [Hp _] & Hround)]]; [discriminate|].
    rewrite Hp in Hround. now rewrite Hround.
Qed.

Lemma collect_in_same p p' s :
  doc p' = doc p -> checkedOf p' = checkedOf p -> collect_in p' s = collect_in p s.
Proof.
  intros Hd Hc. unfold collect_in, collect_step. now rewrite Hd, Hc.
Qed.

Lemma static_collect w :
  exists w', ctGetCalendarCheckboxes static_host w = Ok (snapshot (pg w)) w' /\
             same_toggles w w'.
Proof.
  destruct (static_section w) as (w' & Hrun & Hsame).
  exists w'. split; [|exact Hsame].
  rewrite (get_checkboxes_run _ _ _ _ Hrun). f_equal.
  unfold snapshot. destruct Hsame as (Hd & Hc & _).
  destruct (located (doc (pg w))); [|reflexivity].
  now apply collect_in_same.
Qed.

Lemma static_find label w :
  exists w', ctFindAndScrollToCheckbox static_host label w
               = Ok (ctFindCheckboxByLabel (doc (pg w)) label) w' /\
             same_toggles w w'.
Proof.
  destruct (find_and_scroll_inv static_host
              (frozen (doc (pg w)) (checkedOf (pg w)))
              (frozen_static _ _) (frozen_layout _ _) label w (conj eq_refl eq_refl))
    as (r & w' & Hrun & [Hd Hc] & Hcl & _ & p & [Hp _] & Hr).
  exists w'. split; [|now repeat split].
  rewrite Hrun. f_equal. now rewrite <- Hr, Hp.
Qed.

Lemma toggle_run e t w :
  exists w',
    ctToggleCheckbox e t w = Ok tt w' /\ doc (pg w') = doc (pg w) /\
    (forall p, checkedOf (pg w') p =
               if bool_decide (p = e) && negb (is_disabled (doc (pg w)) e)
               then t else checkedOf (pg w) p) /\
    clicks w' = clicks w ++ (if Bool.eqb (checkedOf (pg w) e) t then [] else [e]).
Proof.
  unfold ctToggleCheckbox. munfold.
  destruct (Bool.eqb (checkedOf (pg w) e) t) eqn:Heq; simpl.
  - exists w. rewrite app_nil_r. repeat split.
    intros p. case_bool_decide as Hp; [|reflexivity].
    subst p. apply Bool.eqb_prop in Heq. now destruct (is_disabled _ _).
  - eexists. split; [reflexivity|]. simpl. repeat split.
    intros p. destruct (is_disabled (doc (pg w)) e).
    + now rewrite andb_false_r.
    + rewrite andb_true_r. unfold flip. case_bool_decide; [|reflexivity].
      destruct (checkedOf (pg w) e), t; simpl in *; congruence.
Qed.

Section Rendered.

Variable group : CalendarGroup.
Variable disableOthers : bool.
Variable d : node.                (* the document when the snapshot was taken *)
Variable c0 : path -> bool.       (* the checked states when the snapshot was taken *)
Variable L : path -> jstr.        (* the label of each snapshot element *)

Local Abbreviation settled' := (settled group disableOthers d c0 L).

Lemma settled_snoc done e p :
  settled' (done ++ [e]) p =
    if bool_decide (p = e) && negb (is_disabled d e)
    then want group disableOthers (L e) (c0 e) else settled' done p.
Proof.
  unfold settled. destruct (decide (p = e)) as [->|Hp].
  - rewrite (bool_decide_true (e ∈ done ++ [e])) by set_solver.
    rewrite (bool_decide_true (e = e)) by reflexivity.
    destruct (is_disabled d e); simpl; [|reflexivity].
    now rewrite andb_false_r.
  - rewrite (bool_decide_false (p = e)) by exact Hp. simpl.
    destruct (decide (p ∈ done)) as [Hd|Hd].
    + rewrite !bool_decide_true by set_solver. reflexivity.
    + rewrite !bool_decide_false by set_solver. reflexivity.
Qed.

Lemma apply_visible_run cb done w :
  doc (pg w) = d ->
  checked cb = c0 (element cb) -> label cb = L (element cb) ->
  (forall p, checkedOf (pg w) p = settled' done p) ->
  exists w',
    apply_visible group disableOthers cb w = Ok tt w' /\
    doc (pg w') = d /\
    (forall p, checkedOf (pg w') p = settled' (done ++ [element cb]) p).
Proof.
  intros Hdoc Hc Hl Hw. unfold apply_visible. rewrite Hc, Hl.
  set (e := element cb).
  assert (Hstep : forall w' t,
            (forall p, checkedOf (pg w') p =
                       if bool_decide (p = e) && negb (is_disabled d e)
                       then t else checkedOf (pg w) p) ->
            t = want group disableOthers (L e) (c0 e) ->
            forall p, checkedOf (pg w') p = settled' (done ++ [e]) p).
  { intros w' t Hw' Ht p. rewrite Hw', settled_snoc, Hw, Ht. reflexivity. }
  assert (Hstay : c0 e = want group disableOthers (L e) (c0 e) ->
            forall p, checkedOf (pg w) p = settled' (done ++ [e]) p).
  { intros Ht p. rewrite settled_snoc, Hw.
    destruct (bool_decide (p = e) && negb (is_disabled d e)) eqn:Hb; [|reflexivity].
    apply andb_true_iff in Hb. destruct Hb as [Hp Hen].
    apply bool_decide_eq_true in Hp. subst p.
    unfold settled. destruct (bool_decide (e ∈ done) && negb (is_disabled d e));
      [reflexivity | exact Ht]. }
  unfold want in Hstep, Hstay.
  destruct (list_includes (calendars group) (L e)) eqn:Hin; simpl.
  - destruct (c0 e) eqn:Hce; simpl.
    + exists w. repeat split; auto.
    + destruct (toggle_run e true w) as (w' & Hrun & Hd & Hch & _).
      rewrite Hdoc in Hch.
      exists w'. split; [exact Hrun|]. split; [congruence|]. now apply (Hstep w' true).
  - destruct (c0 e) eqn:Hce; simpl.
    + destruct disableOthers eqn:Hb; simpl.
      * destruct (toggle_run e false w) as (w' & Hrun & Hd & Hch & _).
        rewrite Hdoc in Hch.
        exists w'. split; [exact Hrun|]. split; [congruence|]. now apply (Hstep w' false).
      * exists w. repeat split; auto.
    + exists w. repeat split; auto. apply Hstay. now destruct disableOthers.
Qed.

Lemma apply_rendered_run : forall cbs done P w,
  doc (pg w) = d ->
  (forall cb, cb ∈ cbs -> checked cb = c0 (element cb) /\ label cb = L (element cb)) ->
  (forall p, checkedOf (pg w) p = settled' done p) ->
  exists P' w',
    apply_rendered group disableOthers cbs P w = Ok P' w' /\
    doc (pg w') = d /\
    (forall l, l ∈ P' <-> l ∈ List.map label cbs \/ l ∈ P) /\
    (forall p, checkedOf (pg w') p = settled' (done ++ List.map element cbs) p).
Proof.
  induction cbs as [|cb cbs IH]; intros done P w Hdoc Hcbs Hw.
  - exists P, w. simpl. rewrite app_nil_r. repeat split; auto.
    + intros [H|H]; [inversion H | exact H].
  - destruct (Hcbs cb) as [Hc Hl]; [set_solver|].
    destruct (apply_visible_run cb done w Hdoc Hc Hl Hw) as (w1 & Hrun1 & Hd1 & Hw1).
    destruct (IH (done ++ [element cb]) ({[label cb]} ∪ P) w1)
      as (P' & w' & Hrun & Hd & HP & Hw').
    { exact Hd1. }
    { intros cb' Hin. apply Hcbs. set_solver. }
    { exact Hw1. }
    exists P', w'. simpl. munfold. rewrite Hrun1, Hrun.
    split; [reflexivity|]. split; [congruence|]. split.
    + intros l. rewrite HP. set_solver.
    + intros p. rewrite Hw'. now rewrite <- app_assoc.
Qed.

(** A snapshot already in the wanted state is left alone. *)
Lemma apply_rendered_noop : forall cbs P w,
  (forall cb, cb ∈ cbs ->
     checked cb = want group disableOthers (label cb) (checked cb)) ->
  exists P',
    apply_rendered group disableOthers cbs P w = Ok P' w /\
    (forall l, l ∈ P' <-> l ∈ List.map label cbs \/ l ∈ P).
Proof.
  induction cbs as [|cb cbs IH]; intros P w Hcbs.
  - exists P. simpl. split; [reflexivity|]. intros l. split; [auto|].
    intros [H|H]; [inversion H | exact H].
  - destruct (IH ({[label cb]} ∪ P) w) as (P' & Hrun & HP).
    { intros cb' Hin. apply Hcbs. set_solver. }
    exists P'. simpl. munfold.
    assert (Hvis : apply_visible group disableOthers cb w = Ok tt w).
    { unfold apply_visible. pose proof (Hcbs cb) as H. unfold want in H.
      destruct (list_includes (calendars group) (label cb)), (checked cb),
        disableOthers; simpl in *; try reflexivity;
        exfalso; (assert (Hx : cb ∈ cb :: cbs) by set_solver);
        specialize (H Hx); discriminate. }
    rewrite Hvis, Hrun. split; [reflexivity|].
    intros l. rewrite HP. set_solver.
Qed.

End Rendered.

Lemma apply_offscreen_static l w :
  exists a w',
    apply_offscreen static_host l w = Ok a w' /\
    doc (pg w') = doc (pg w) /\
    (forall p, checkedOf (pg w') p =
               checkedOf (pg w) p ||
               bool_decide (p ∈ found (doc (pg w)) [l]) && negb (is_disabled (doc (pg w)) p)) /\
    clicks w' = clicks w ++
                List.filter (fun c => negb (checkedOf (pg w) c)) (found (doc (pg w)) [l]).
Proof.
  unfold apply_offscreen, found. munfold.
  destruct (static_find l w) as (w1 & Hrun & Hd & Hc & Hcl). rewrite Hrun.
  simpl. destruct (ctFindCheckboxByLabel (doc (pg w)) l) as [c|]; simpl.
  - rewrite Hc. destruct (checkedOf (pg w) c) eqn:Hcc; simpl.
    + exists true, w1. rewrite app_nil_r. repeat split; auto.
      intros p. rewrite Hc.
      destruct (bool_decide (p ∈ [c]) && negb (is_disabled (doc (pg w)) p)) eqn:Hb;
        [|now rewrite orb_false_r].
      apply andb_true_iff in Hb. destruct Hb as [Hp _].
      apply bool_decide_eq_true, list_elem_of_singleton in Hp. subst p.
      now rewrite Hcc.
    + destruct (toggle_run c true w1) as (w2 & Hrun2 & Hd2 & Hch2 & Hcl2).
      rewrite Hrun2. exists true, w2. split; [reflexivity|].
      split; [congruence|]. split.
      * intros p. rewrite Hch2, Hc, Hd. case_bool_decide as Hp.
        -- subst p. rewrite bool_decide_true by set_solver. simpl.
           destruct (is_disabled (doc (pg w)) c); simpl;
             [now rewrite orb_false_r | now rewrite orb_true_r].
        -- rewrite bool_decide_false by set_solver. simpl. now rewrite orb_false_r.
      * rewrite Hcl2, Hc, Hcc, Hcl. reflexivity.
  - exists false, w1. rewrite app_nil_r. repeat split; auto.
    intros p. rewrite Hc. now rewrite orb_false_r.
Qed.

Lemma found_cons d l ls : found d (l :: ls) = found d [l] ++ found d ls.
Proof. unfold found. simpl. now destruct (ctFindCheckboxByLabel d l). Qed.

(** The loop over the unprocessed calendars on a static page: what the
    lookup finds is checked unless it is disabled, and every click goes to
    a checkbox the lookup has found unchecked. *)
Lemma apply_unprocessed_static : forall ls P w,
  exists P' w' K,
    apply_unprocessed static_host ls P w = Ok P' w' /\
    doc (pg w') = doc (pg w) /\
    (forall p, checkedOf (pg w') p =
               checkedOf (pg w) p ||
               bool_decide (p ∈ found (doc (pg w)) ls) && negb (is_disabled (doc (pg w)) p)) /\
    clicks w' = clicks w ++ K /\
    (forall c, c ∈ K -> c ∈ found (doc (pg w)) ls /\ checkedOf (pg w) c = false) /\
    ((forall c, c ∈ found (doc (pg w)) ls -> checkedOf (pg w) c = true) ->
     clicks w' = clicks w).
Proof.
  induction ls as [|l ls IH]; intros P w.
  - exists P, w, []. rewrite app_nil_r. repeat split; auto.
    + intros p. unfold found. simpl. now rewrite orb_false_r.
    + inversion H.
  - destruct (apply_offscreen_static l w) as (a & w1 & Hrun1 & Hd1 & Hch1 & Hcl1).
    destruct (IH (if a then {[l]} ∪ P else P) w1)
      as (P' & w' & K & Hrun & Hd & Hch & Hcl & HK & Hq).
    exists P', w',
      (List.filter (fun c => negb (checkedOf (pg w) c)) (found (doc (pg w)) [l]) ++ K).
    cbn [apply_unprocessed]. munfold. rewrite Hrun1, Hrun.
    split; [reflexivity|]. split; [congruence|]. split; [|split; [|split]].
    + intros p. rewrite Hch, Hch1, Hd1, (found_cons (doc (pg w)) l ls).
      apply eq_true_iff_eq.
      rewrite !orb_true_iff, !andb_true_iff, !bool_decide_eq_true, elem_of_app. tauto.
    + rewrite Hcl, Hcl1, <- app_assoc. reflexivity.
    + intros c Hc. rewrite (found_cons (doc (pg w)) l ls), elem_of_app.
      apply elem_of_app in Hc. destruct Hc as [Hc|Hc].
      * apply list_elem_of_In, filter_In in Hc. destruct Hc as [Hc Hn].
        apply list_elem_of_In in Hc. apply negb_true_iff in Hn. tauto.
      * destruct (HK c Hc) as [Hf Hu]. rewrite Hd1 in Hf. split; [tauto|].
        rewrite Hch1 in Hu. apply orb_false_iff in Hu. tauto.
    + intros Hall. rewrite Hq, Hcl1.
      * assert (Hnone : List.filter (fun c => negb (checkedOf (pg w) c))
                          (found (doc (pg w)) [l]) = []).
        { unfold found. simpl. destruct (ctFindCheckboxByLabel (doc (pg w)) l) as [c|] eqn:Hf;
            [|reflexivity].
          simpl. rewrite (Hall c); [reflexivity|].
          rewrite (found_cons (doc (pg w)) l ls), elem_of_app. left.
          unfold found. simpl. rewrite Hf. now left. }
        rewrite Hnone. now rewrite app_nil_r.
      * intros c Hc. rewrite Hch1, Hall; [reflexivity|].
        rewrite (found_cons (doc (pg w)) l ls), elem_of_app. rewrite Hd1 in Hc. tauto.
Qed.

(* ================================================================== *)
(** ** The reconciliation on a static page *)
(* ================================================================== *)

Lemma list_includes_true l x : list_includes l x = true <-> x ∈ l.
Proof.
  unfold list_includes. rewrite existsb_exists. split.
  - intros (y & Hy & Heq). apply bool_decide_eq_true in Heq. subst y.
    now apply list_elem_of_In.
  - intros H. exists x. split; [now apply list_elem_of_In|].
    now apply bool_decide_eq_true.
Qed.

Lemma find_labelled_Some d t : forall l c,
  find_labelled d t l = Some c ->
  In c l /\ exists l', ctGetCalendarLabel d c = Some l' /\ trim l' = t.
Proof.
  induction l as [|x l IH]; intros c; simpl; [discriminate|].
  rewrite truthy_label.
  destruct (ctGetCalendarLabel d x) as [lx|] eqn:Hx.
  - destruct (JS.eqb (trim lx) t) eqn:Heq.
    + intros [= <-]. split; [now left|]. exists lx. split; [exact Hx|].
      now apply bool_decide_eq_true in Heq.
    + intros H. destruct (IH c H) as [Hin Hl]. split; [now right | exact Hl].
  - intros H. destruct (IH c H) as [Hin Hl]. split; [now right | exact Hl].
Qed.

Lemma found_elem d ls c :
  c ∈ found d ls ->
  exists t l', t ∈ ls /\ In c (document_querySelectorAll d CT_CHECKBOX_SELECTOR) /\
               ctGetCalendarLabel d c = Some l' /\ trim l' = trim t.
Proof.
  unfold found. rewrite list_elem_of_omap. intros (t & Ht & Hfind).
  apply find_labelled_Some in Hfind. destruct Hfind as (Hin & l' & Hl & Htrim).
  eauto 6.
Qed.

Lemma snapshot_elem p cb :
  cb ∈ snapshot p ->
  ctGetCalendarLabel (doc p) (element cb) = Some (label cb) /\
  checked cb = checkedOf p (element cb) /\
  In (element cb) (document_querySelectorAll (doc p) CT_CHECKBOX_SELECTOR).
Proof.
  unfold snapshot. destruct (located (doc p)) as [s|]; [|inversion 1].
  rewrite collect_in_omap, list_elem_of_omap. intros (e & He & Hh).
  unfold handle_of in Hh.
  destruct (ctGetCalendarLabel (doc p) e) as [l|] eqn:Hl; [|discriminate].
  injection Hh as <-. simpl. repeat split; [exact Hl|].
  apply list_elem_of_In in He. eapply querySelectorAll_in_document; eauto.
Qed.

Lemma handle_of_eq p e :
  handle_of p e =
    match ctGetCalendarLabel (doc p) e with
    | Some l => Some {| element := e; label := l; checked := checkedOf p e |}
    | None => None
    end.
Proof. reflexivity. Qed.

Lemma omap_handle_same p p' : doc p' = doc p -> forall l,
  List.map element (omap (handle_of p') l) = List.map element (omap (handle_of p) l) /\
  List.map label (omap (handle_of p') l) = List.map label (omap (handle_of p) l).
Proof.
  intros Hd. induction l as [|e l [IH1 IH2]]; [auto|].
  change (omap ?f (e :: l)) with
    (match f e with Some y => y :: omap f l | None => omap f l end).
  rewrite (handle_of_eq p' e), (handle_of_eq p e), Hd.
  destruct (ctGetCalendarLabel (doc p) e); simpl; [|auto].
  now rewrite IH1, IH2.
Qed.

Lemma snapshot_same p p' :
  doc p' = doc p ->
  List.map element (snapshot p') = List.map element (snapshot p) /\
  List.map label (snapshot p') = List.map label (snapshot p).
Proof.
  intros Hd. unfold snapshot. rewrite Hd.
  destruct (located (doc p)) as [s|]; [|auto].
  rewrite !collect_in_omap, Hd. now apply omap_handle_same.
Qed.

Lemma unprocessed_in_group group S t : t ∈ unprocessed group S -> t ∈ calendars group.
Proof.
  unfold unprocessed. rewrite !list_elem_of_In, filter_In. tauto.
Qed.

(** [ctApplyCalendarGroup] on a static page ends normally, and leaves the
    checked states [reconciled]. *)
Lemma apply_static group b w :
  exists w',
    ctApplyCalendarGroup static_host group b w = Ok tt w' /\
    doc (pg w') = doc (pg w) /\
    forall p, checkedOf (pg w') p = reconciled group b (pg w) p.
Proof.
  unfold ctApplyCalendarGroup, reconciled. munfold.
  destruct (static_collect w) as (w0 & Hrun0 & Hd0 & Hc0 & _). rewrite Hrun0.
  destruct (List.length (snapshot (pg w)) =? 0)%nat eqn:Hlen.
  { exists w0. repeat split; auto. intros p. now rewrite Hc0. }
  destruct (apply_rendered_run group b (doc (pg w)) (checkedOf (pg w))
              (label_of (doc (pg w))) (snapshot (pg w)) [] ∅ w0)
    as (P & w1 & Hrun1 & Hd1 & HP & Hc1).
  { exact Hd0. }
  { intros cb Hcb. destruct (snapshot_elem _ _ Hcb) as (Hl & Hc & _).
    split; [exact Hc|]. unfold label_of. now rewrite Hl. }
  { intros p. rewrite Hc0. reflexivity. }
  rewrite Hrun1.
  assert (HU : List.filter (fun calendar => negb (bool_decide (calendar ∈ P)))
                 (calendars group) = unprocessed group (snapshot (pg w))).
  { unfold unprocessed. apply filter_ext. intros l. f_equal.
    apply bool_decide_ext. rewrite HP. set_solver. }
  rewrite HU.
  destruct (apply_unprocessed_static (unprocessed group (snapshot (pg w))) P w1)
    as (P' & w2 & K & Hrun2 & Hd2 & Hc2 & _).
  rewrite Hrun2. exists w2. split; [reflexivity|]. split; [congruence|].
  intros p. rewrite Hc2, Hc1, Hd1. reflexivity.
Qed.

(** A page already reconciled gets no click. *)
Lemma apply_static_quiet group b w :
  (forall cb, cb ∈ snapshot (pg w) ->
     checked cb = want group b (label cb) (checked cb)) ->
  (snapshot (pg w) <> [] ->
   forall c, c ∈ found (doc (pg w)) (unprocessed group (snapshot (pg w))) ->
     checkedOf (pg w) c = true) ->
  exists w', ctApplyCalendarGroup static_host group b w = Ok tt w' /\
             clicks w' = clicks w.
Proof.
  intros Hsnap Hfound. unfold ctApplyCalendarGroup. munfold.
  destruct (static_collect w) as (w0 & Hrun0 & Hd0 & Hc0 & Hcl0). rewrite Hrun0.
  destruct (List.length (snapshot (pg w)) =? 0)%nat eqn:Hlen; [eauto|].
  assert (Hne : snapshot (pg w) <> []).
  { intros E. rewrite E in Hlen. discriminate. }
  specialize (Hfound Hne).
  destruct (apply_rendered_noop group b (snapshot (pg w)) ∅ w0 Hsnap)
    as (P & Hrun1 & HP).
  rewrite Hrun1.
  assert (HU : List.filter (fun calendar => negb (bool_decide (calendar ∈ P)))
                 (calendars group) = unprocessed group (snapshot (pg w))).
  { unfold unprocessed. apply filter_ext. intros l. f_equal.
    apply bool_decide_ext. rewrite HP. set_solver. }
  rewrite HU.
  destruct (apply_unprocessed_static (unprocessed group (snapshot (pg w))) P w0)
    as (P' & w2 & K & Hrun2 & _ & _ & _ & _ & Hcl2).
  rewrite Hrun2. exists w2. split; [reflexivity|].
  rewrite Hcl2, Hcl0; [reflexivity|].
  intros c Hc. rewrite Hc0. apply Hfound. now rewrite <- Hd0.
Qed.

(** A checkbox of the snapshot that is not as wanted and is disabled is
    clicked in vain. *)
Lemma apply_visible_stuck group b d cb w :
  doc (pg w) = d ->
  checked cb = checkedOf (pg w) (element cb) ->
  (checked cb <> want group b (label cb) (checked cb) ->
   is_disabled d (element cb) = true) ->
  exists w' K,
    apply_visible group b cb w = Ok tt w' /\ doc (pg w') = d /\
    checkedOf (pg w') = checkedOf (pg w) /\
    clicks w' = clicks w ++ K /\
    (forall e, e ∈ K -> e = element cb /\ is_disabled d e = true).
Proof.
  intros Hdoc Hck Hdis.
  assert (Hclick : forall t,
            checked cb = negb t -> is_disabled d (element cb) = true ->
            exists w' K,
              ctToggleCheckbox (element cb) t w = Ok tt w' /\ doc (pg w') = d /\
              checkedOf (pg w') = checkedOf (pg w) /\
              clicks w' = clicks w ++ K /\
              (forall e, e ∈ K -> e = element cb /\ is_disabled d e = true)).
  { intros t Ht Hd. unfold ctToggleCheckbox, click. munfold.
    rewrite <- Hck, Ht. destruct t; simpl; rewrite Hdoc, Hd;
      (eexists; exists [element cb]; split; [reflexivity|]; simpl;
       repeat split; auto; apply list_elem_of_singleton in H; subst; auto). }
  assert (Hnone : exists w' K,
            Ok tt w = Ok tt w' /\ doc (pg w') = d /\
            checkedOf (pg w') = checkedOf (pg w) /\
            clicks w' = clicks w ++ K /\
            (forall e, e ∈ K -> e = element cb /\ is_disabled d e = true)).
  { exists w, []. rewrite app_nil_r. repeat split; auto; inversion H. }
  unfold apply_visible. unfold want in Hdis.
  destruct (list_includes (calendars group) (label cb)) eqn:Hin; simpl.
  - destruct (checked cb) eqn:Hcc; simpl; [exact Hnone|].
    apply (Hclick true); [reflexivity|]. apply Hdis. discriminate.
  - destruct (checked cb) eqn:Hcc; simpl; [|exact Hnone].
    destruct b; simpl; [|exact Hnone].
    apply (Hclick false); [reflexivity|]. apply Hdis. discriminate.
Qed.

Lemma apply_rendered_stuck group b d : forall cbs P w,
  doc (pg w) = d ->
  (forall cb, cb ∈ cbs -> checked cb = checkedOf (pg w) (element cb)) ->
  (forall cb, cb ∈ cbs -> checked cb <> want group b (label cb) (checked cb) ->
              is_disabled d (element cb) = true) ->
  exists P' w' K,
    apply_rendered group b cbs P w = Ok P' w' /\ doc (pg w') = d /\
    checkedOf (pg w') = checkedOf (pg w) /\
    clicks w' = clicks w ++ K /\
    (forall e, e ∈ K -> e ∈ List.map element cbs /\ is_disabled d e = true) /\
    (forall l, l ∈ P' <-> l ∈ List.map label cbs \/ l ∈ P).
Proof.
  induction cbs as [|cb cbs IH]; intros P w Hdoc Hck Hdis.
  - exists P, w, []. simpl. rewrite app_nil_r.
    split; [reflexivity|]. split; [exact Hdoc|]. split; [reflexivity|].
    split; [reflexivity|]. split; [intros e He; inversion He|].
    intros l. split; [now right | intros [H|H]; [inversion H | exact H]].
  - destruct (apply_visible_stuck group b d cb w Hdoc) as (w1 & K1 & Hrun1 & Hd1 & Hc1 & Hcl1 & HK1).
    { apply Hck. set_solver. }
    { apply Hdis. set_solver. }
    destruct (IH ({[label cb]} ∪ P) w1) as (P' & w' & K & Hrun & Hd & Hc & Hcl & HK & HP).
    { exact Hd1. }
    { intros cb' Hin. rewrite Hc1. apply Hck. set_solver. }
    { intros cb' Hin. apply Hdis. set_solver. }
    exists P', w', (K1 ++ K). simpl. munfold. rewrite Hrun1, Hrun.
    split; [reflexivity|]. split; [exact Hd|]. split; [congruence|].
    split; [rewrite Hcl, Hcl1, <- app_assoc; reflexivity|]. split.
    + intros e He. apply elem_of_app in He. destruct He as [He|He].
      * destruct (HK1 e He) as [-> Hdd]. split; [left | exact Hdd].
      * destruct (HK e He) as [Hin Hdd]. split; [now right | exact Hdd].
    + intros l. rewrite HP. set_solver.
Qed.

(** On a static page where every checkbox that is not as the call wants it
    is disabled, the clicks of the call all go to disabled checkboxes. *)
Lemma apply_static_stuck group b w :
  (forall cb, cb ∈ snapshot (pg w) ->
     checked cb <> want group b (label cb) (checked cb) ->
     is_disabled (doc (pg w)) (element cb) = true) ->
  (snapshot (pg w) <> [] ->
   forall c, c ∈ found (doc (pg w)) (unprocessed group (snapshot (pg w))) ->
     checkedOf (pg w) c = false -> is_disabled (doc (pg w)) c = true) ->
  exists w' K,
    ctApplyCalendarGroup static_host group b w = Ok tt w' /\
    clicks w' = clicks w ++ K /\
    (forall e, e ∈ K ->
               e ∈ discovered group (pg w) /\ is_disabled (doc (pg w)) e = true).
Proof.
  intros Hsnap Hfound. unfold ctApplyCalendarGroup. munfold.
  destruct (static_collect w) as (w0 & Hrun0 & Hd0 & Hc0 & Hcl0). rewrite Hrun0.
  destruct (List.length (snapshot (pg w)) =? 0)%nat eqn:Hlen.
  { exists w0, []. rewrite app_nil_r. repeat split; auto; inversion H. }
  assert (Hne : snapshot (pg w) <> []).
  { intros E. rewrite E in Hlen. discriminate. }
  specialize (Hfound Hne).
  destruct (apply_rendered_stuck group b (doc (pg w)) (snapshot (pg w)) ∅ w0)
    as (P & w1 & KA & Hrun1 & Hd1 & Hc1 & Hcl1 & HKA & HP).
  { exact Hd0. }
  { intros cb Hcb. destruct (snapshot_elem _ _ Hcb) as (_ & Hc & _).
    now rewrite Hc0. }
  { exact Hsnap. }
  rewrite Hrun1.
  assert (HU : List.filter (fun calendar => negb (bool_decide (calendar ∈ P)))
                 (calendars group) = unprocessed group (snapshot (pg w))).
  { unfold unprocessed. apply filter_ext. intros l. f_equal.
    apply bool_decide_ext. rewrite HP. set_solver. }
  rewrite HU.
  destruct (apply_unprocessed_static (unprocessed group (snapshot (pg w))) P w1)
    as (P' & w2 & KB & Hrun2 & _ & _ & Hcl2 & HKB & _).
  rewrite Hrun2. exists w2, (KA ++ KB). split; [reflexivity|].
  split; [rewrite Hcl2, Hcl1, Hcl0, <- app_assoc; reflexivity|].
  intros e He. unfold discovered. rewrite elem_of_app.
  apply elem_of_app in He. destruct He as [He|He].
  - destruct (HKA e He). auto.
  - destruct (HKB e He) as [Hf Hu]. rewrite Hd1 in Hf. rewrite Hc1, Hc0 in Hu.
    split; [now right|]. now apply Hfound.
Qed.

(** With trimmed labels, what the lookup finds for a group entry carries
    exactly that entry as its label. *)
Lemma found_label_in_group d group S c l :
  labels_trimmed d group ->
  c ∈ found d (unprocessed group S) ->
  ctGetCalendarLabel d c = Some l ->
  list_includes (calendars group) l = true.
Proof.
  intros [Hlab Hgrp] Hc Hl.
  apply found_elem in Hc. destruct Hc as (t & l' & Ht & Hin & Hl' & Htrim).
  apply unprocessed_in_group in Ht.
  rewrite Hl in Hl'. injection Hl' as <-.
  apply list_includes_true.
  rewrite <- (Hlab c l Hin Hl), Htrim, (Hgrp t Ht). exact Ht.
Qed.

Lemma length_zero_nil {A} (l : list A) : (List.length l =? 0)%nat = true <-> l = [].
Proof. destruct l; simpl; split; congruence. Qed.

(* ================================================================== *)
(** ** The reconciliation under a host that leaves the checked states alone *)
(* ================================================================== *)

Section Last.

Variable host : host_t.
Variable Inv : page -> Prop.
Hypothesis host_keeps : forall ms w, Inv (pg w) -> Inv (host ms w).
Hypothesis layout_free : forall p lay,
  Inv p -> Inv {| doc := doc p; checkedOf := checkedOf p; layout := lay |}.

Lemma sweep_round_inv e v w :
  Inv (pg w) ->
  Inv (pg (sweep_round host e v w)) /\ clicks (sweep_round host e v w) = clicks w.
Proof.
  intros H. split; [|reflexivity]. unfold sweep_round. simpl.
  apply host_keeps. simpl. now apply layout_free.
Qed.

(** A sweep that runs at least one round ends on the page of its last
    lookup. *)
Lemma sweep_down_last label e : forall left cur w,
  Inv (pg w) -> (0 < left)%nat ->
  exists r w',
    sweep_down host label e left cur w = Ok r w' /\ Inv (pg w') /\
    clicks w' = clicks w /\ ctFindCheckboxByLabel (doc (pg w')) label = r.
Proof.
  induction left as [|left IH]; intros cur w HI Hpos; [lia|].
  rewrite sweep_down_step. cbv zeta.
  destruct (sweep_round_inv e (cur + scrollStep) w HI) as [HI2 Hc2].
  set (w2 := sweep_round host e (cur + scrollStep) w) in *.
  destruct (ctFindCheckboxByLabel (doc (pg w2)) label) as [c|] eqn:Hf.
  { exists (Some c), w2. auto. }
  destruct (_ <=? _).
  { exists None, w2. auto. }
  destruct left as [|left'].
  { exists None, w2. auto. }
  destruct (IH (cur + scrollStep) w2 HI2 ltac:(lia)) as (r & w' & Hrun & HI' & Hc & Hr).
  exists r, w'. repeat split; auto; congruence.
Qed.

Lemma sweep_up_last label e : forall left cur w,
  Inv (pg w) -> (0 < left)%nat ->
  exists r w',
    sweep_up host label e left cur w = Ok r w' /\ Inv (pg w') /\
    clicks w' = clicks w /\ ctFindCheckboxByLabel (doc (pg w')) label = r.
Proof.
  induction left as [|left IH]; intros cur w HI Hpos; [lia|].
  rewrite sweep_up_step. cbv zeta.
  destruct (sweep_round_inv e (Z.max 0 (cur - scrollStep)) w HI) as [HI2 Hc2].
  set (w2 := sweep_round host e (Z.max 0 (cur - scrollStep)) w) in *.
  destruct (ctFindCheckboxByLabel (doc (pg w2)) label) as [c|] eqn:Hf.
  { exists (Some c), w2. auto. }
  destruct (_ <=? _).
  { exists None, w2. auto. }
  destruct left as [|left'].
  { exists None, w2. auto. }
  destruct (IH (Z.max 0 (cur - scrollStep)) w2 HI2 ltac:(lia))
    as (r & w' & Hrun & HI' & Hc & Hr).
  exists r, w'. repeat split; auto; congruence.
Qed.

(** What [ctFindAndScrollToCheckbox] returns is what the lookup finds on
    the page it ends on. *)
Lemma find_and_scroll_last label w :
  Inv (pg w) ->
  exists r w',
    ctFindAndScrollToCheckbox host label w = Ok r w' /\ Inv (pg w') /\
    clicks w' = clicks w /\ ctFindCheckboxByLabel (doc (pg w')) label = r.
Proof.
  intros HI. unfold ctFindAndScrollToCheckbox. munfold.
  destruct (ctFindCheckboxByLabel (doc (pg w)) label) as [c|] eqn:Hfind.
  { exists (Some c), w. auto. }
  destruct (drawer_no_error (doc (pg w))) as [dc Hdc]. rewrite Hdc.
  destruct dc as [dc|].
  2:{ exists None, w. auto. }
  destruct (sweep_down_last label dc maxScrollAttempts
              (scrollTop (layout (pg w) dc)) w HI)
    as (r & w1 & Hrun & HI1 & Hc1 & Hr); [unfold maxScrollAttempts; lia|].
  rewrite Hrun. destruct r as [c|].
  { exists (Some c), w1. auto. }
  destruct (sweep_up_last label dc maxScrollAttempts
              (scrollTop (layout (pg w1) dc)) w1 HI1)
    as (r & w2 & Hrun2 & HI2 & Hc2 & Hr2); [unfold maxScrollAttempts; lia|].
  rewrite Hrun2. exists r, w2. repeat split; auto; congruence.
Qed.

End Last.

Lemma finds_cons l ls w1 ends :
  finds (l :: ls) (w1 :: ends) = finds [l] [w1] ++ finds ls ends.
Proof. simpl. now destruct (ctFindCheckboxByLabel (doc (pg w1)) l). Qed.

(** What the searches return was found, for one of the calendars, on the
    page where a search ended. *)
Lemma finds_elem : forall ls ends c d,
  (c, d) ∈ finds ls ends ->
  (exists w1, w1 ∈ ends /\ d = doc (pg w1)) /\
  exists t, t ∈ ls /\ ctFindCheckboxByLabel d t = Some c.
Proof.
  induction ls as [|l ls IH]; intros ends c d H; [inversion H|].
  destruct ends as [|w1 ends]; [inversion H|].
  simpl in H. destruct (ctFindCheckboxByLabel (doc (pg w1)) l) as [c1|] eqn:Hf.
  - apply elem_of_cons in H. destruct H as [[= -> ->]|H].
    + split; [exists w1; split; [left | reflexivity]|].
      exists l. split; [left | exact Hf].
    + destruct (IH ends c d H) as ((w2 & Hw2 & Hd) & t & Ht & Hft).
      split; [exists w2; split; [now right | exact Hd]|].
      exists t. split; [now right | exact Hft].
  - destruct (IH ends c d H) as ((w2 & Hw2 & Hd) & t & Ht & Hft).
    split; [exists w2; split; [now right | exact Hd]|].
    exists t. split; [now right | exact Hft].
Qed.

Lemma collect_in_elem p s cb :
  cb ∈ collect_in p s ->
  ctGetCalendarLabel (doc p) (element cb) = Some (label cb) /\
  checked cb = checkedOf p (element cb) /\
  In (element cb) (toggles (doc p)).
Proof.
  rewrite collect_in_omap, list_elem_of_omap. intros (e & He & Hh).
  unfold handle_of in Hh.
  destruct (ctGetCalendarLabel (doc p) e) as [l|] eqn:Hl; [|discriminate].
  injection Hh as <-. simpl. repeat split; [exact Hl|].
  apply list_elem_of_In in He. eapply querySelectorAll_in_document; eauto.
Qed.

(** One iteration of the loop over the unprocessed calendars, for any
    host: the checkbox the search returns ends checked unless it is
    disabled on the page where the search ended. *)
Lemma apply_offscreen_run host l w :
  exists a w',
    apply_offscreen host l w = Ok a w' /\
    doc (pg w') = doc (pg (after (ctFindAndScrollToCheckbox host l) w)) /\
    forall p, checkedOf (pg w') p =
              checkedOf (pg (after (ctFindAndScrollToCheckbox host l) w)) p
              || existsb (hits p) (finds [l] [after (ctFindAndScrollToCheckbox host l) w]).
Proof.
  destruct (find_and_scroll_last host any_page (fun _ _ _ => I) (fun _ _ _ => I) l w I)
    as (r & w1 & Hrun & _ & _ & Hr).
  unfold apply_offscreen. munfold. unfold after at 1 2 3. rewrite Hrun.
  cbn [finds]. rewrite Hr. destruct r as [c|].
  - destruct (checkedOf (pg w1) c) eqn:Hcc; simpl.
    + exists true, w1. split; [reflexivity|]. split; [reflexivity|].
      intros p. unfold hits. simpl. rewrite orb_false_r.
      case_bool_decide as Hp; [|now rewrite orb_false_r].
      subst p. now rewrite Hcc.
    + destruct (toggle_run c true w1) as (w2 & Hrun2 & Hd2 & Hch2 & _).
      rewrite Hrun2. exists true, w2. split; [reflexivity|]. split; [exact Hd2|].
      intros p. rewrite Hch2. unfold hits. simpl. rewrite orb_false_r.
      rewrite (bool_decide_ext (p = c) (c = p)) by (split; congruence).
      case_bool_decide as Hp; simpl; [|now rewrite orb_false_r].
      subst p. destruct (is_disabled (doc (pg w1)) c); simpl;
        [now rewrite orb_false_r | now rewrite orb_true_r].
  - exists false, w1. split; [reflexivity|]. split; [reflexivity|].
    intros p. simpl. now rewrite orb_false_r.
Qed.

Lemma rendered_doc group b : forall S P w,
  exists P' w', apply_rendered group b S P w = Ok P' w' /\ doc (pg w') = doc (pg w).
Proof.
  induction S as [|cb S IH]; intros P w; [exists P, w; auto|].
  simpl. munfold.
  assert (Hvis : exists w1, apply_visible group b cb w = Ok tt w1 /\
                            doc (pg w1) = doc (pg w)).
  { unfold apply_visible.
    destruct (_ && negb _);
      [destruct (toggle_run (element cb) true w) as (w1 & H1 & H2 & _); eauto|].
    destruct (_ && _ && b);
      [destruct (toggle_run (element cb) false w) as (w1 & H1 & H2 & _); eauto|].
    eauto. }
  destruct Hvis as (w1 & Hrun1 & Hd1). rewrite Hrun1.
  destruct (IH ({[label cb]} ∪ P) w1) as (P' & w' & Hrun & Hd).
  exists P', w'. rewrite Hrun. split; [reflexivity | congruence].
Qed.

Section Kept.

Variable host : host_t.
Hypothesis Hkeep : keeps_checked host.

Lemma kept_host c : forall ms w, checkedOf (pg w) = c -> checkedOf (host ms w) = c.
Proof. intros ms w H. now rewrite Hkeep. Qed.

Lemma search_kept l w :
  checkedOf (pg (after (ctFindAndScrollToCheckbox host l) w)) = checkedOf (pg w).
Proof.
  destruct (find_and_scroll_last host (fun q => checkedOf q = checkedOf (pg w))
              (kept_host _) (fun _ _ H => H) l w eq_refl)
    as (r & w1 & Hrun & Hc & _).
  unfold after. now rewrite Hrun.
Qed.

Lemma apply_unprocessed_kept : forall ls P w,
  exists P' w',
    apply_unprocessed host ls P w = Ok P' w' /\
    forall p, checkedOf (pg w') p =
              checkedOf (pg w) p || existsb (hits p) (finds ls (search_ends host ls w)).
Proof.
  induction ls as [|l ls IH]; intros P w.
  - exists P, w. split; [reflexivity|]. intros p. simpl. now rewrite orb_false_r.
  - destruct (apply_offscreen_run host l w) as (a & w1 & Hrun1 & _ & Hc1).
    destruct (IH (if a then {[l]} ∪ P else P) w1) as (P' & w' & Hrun & Hc).
    exists P', w'. cbn [apply_unprocessed search_ends]. munfold. rewrite Hrun1, Hrun.
    split; [reflexivity|]. intros p.
    assert (Hafter : after (apply_offscreen host l) w = w1).
    { unfold after. now rewrite Hrun1. }
    rewrite Hafter, finds_cons, existsb_app, Hc, Hc1, search_kept.
    now rewrite orb_assoc.
Qed.

Lemma collected_facts w S w0 :
  ctGetCalendarCheckboxes host w = Ok S w0 ->
  checkedOf (pg w0) = checkedOf (pg w) /\
  forall cb, cb ∈ S ->
    ctGetCalendarLabel (doc (pg w0)) (element cb) = Some (label cb) /\
    checked cb = checkedOf (pg w0) (element cb) /\
    In (element cb) (toggles (doc (pg w0))).
Proof.
  intros Hcol.
  destruct (find_section_loop_inv host (fun q => checkedOf q = checkedOf (pg w))
              (kept_host _) 10 w eq_refl)
    as (r & w1 & k & Hrun & Hc & _).
  fold (ctFindCalendarSection host) in Hrun.
  rewrite (get_checkboxes_run _ _ _ _ Hrun) in Hcol. injection Hcol as <- <-.
  split; [exact Hc|]. intros cb Hcb.
  destruct r as [s|]; [now apply (collect_in_elem _ s) | inversion Hcb].
Qed.

(** [ctApplyCalendarGroup] under a host that leaves the checked states
    alone: the checkboxes of the snapshot are settled, and what the
    searches return is checked, disabled checkboxes apart. *)
Lemma apply_kept group b w S w0 :
  ctGetCalendarCheckboxes host w = Ok S w0 ->
  exists w',
    ctApplyCalendarGroup host group b w = Ok tt w' /\
    (S = [] -> checkedOf (pg w') = checkedOf (pg w)) /\
    (S <> [] ->
     forall p, checkedOf (pg w') p =
       settled group b (doc (pg w0)) (checkedOf (pg w)) (label_of (doc (pg w0)))
               (List.map element S) p
       || existsb (hits p)
            (finds (unprocessed group S)
                   (search_ends host (unprocessed group S)
                                (after (apply_rendered group b S ∅) w0)))).
Proof.
  intros Hcol. destruct (collected_facts w S w0 Hcol) as (Hc0 & HS).
  unfold ctApplyCalendarGroup. munfold. rewrite Hcol.
  destruct S as [|cb0 S'] eqn:ES.
  { exists w0. split; [reflexivity|]. split; [auto | congruence]. }
  rewrite <- ES in *. assert (Hlen : (List.length S =? 0)%nat = false) by now rewrite ES.
  rewrite Hlen.
  destruct (apply_rendered_run group b (doc (pg w0)) (checkedOf (pg w))
              (label_of (doc (pg w0))) S [] ∅ w0 eq_refl)
    as (P & w1 & Hrun1 & Hd1 & HP & Hc1).
  { intros cb Hcb. destruct (HS cb Hcb) as (Hl & Hc & _).
    split; [now rewrite Hc, Hc0|]. unfold label_of. now rewrite Hl. }
  { intros p. rewrite Hc0. reflexivity. }
  rewrite Hrun1.
  assert (HU : List.filter (fun calendar => negb (bool_decide (calendar ∈ P)))
                 (calendars group) = unprocessed group S).
  { unfold unprocessed. apply filter_ext. intros l. f_equal.
    apply bool_decide_ext. rewrite HP. set_solver. }
  rewrite HU.
  destruct (apply_unprocessed_kept (unprocessed group S) P w1) as (P' & w2 & Hrun2 & Hc2).
  rewrite Hrun2. exists w2. split; [reflexivity|].
  split; [intros E; rewrite E in ES; discriminate|]. intros _ p.
  assert (Hafter : after (apply_rendered group b S ∅) w0 = w1).
  { unfold after. now rewrite Hrun1. }
  rewrite Hafter, Hc2, Hc1. reflexivity.
Qed.

End Kept.

Section Shown.

Variable host : host_t.
Variable shown : node -> Prop.
Hypothesis Hin : stays_within host shown.

Lemma search_shown l w :
  shown (doc (pg w)) -> shown (doc (pg (after (ctFindAndScrollToCheckbox host l) w))).
Proof.
  intros H.
  destruct (find_and_scroll_last host (fun q => shown (doc q)) Hin (fun _ _ H => H) l w H)
    as (r & w1 & Hrun & Hs & _).
  unfold after. now rewrite Hrun.
Qed.

Lemma offscreen_shown l w :
  shown (doc (pg w)) -> shown (doc (pg (after (apply_offscreen host l) w))).
Proof.
  intros H. destruct (apply_offscreen_run host l w) as (a & w1 & Hrun & Hd & _).
  unfold after at 1. rewrite Hrun, Hd. now apply search_shown.
Qed.

Lemma search_ends_shown : forall ls w w1,
  shown (doc (pg w)) -> w1 ∈ search_ends host ls w -> shown (doc (pg w1)).
Proof.
  induction ls as [|l ls IH]; intros w w1 H Hw1; [inversion Hw1|].
  cbn [search_ends] in Hw1. apply elem_of_cons in Hw1. destruct Hw1 as [->|Hw1].
  - now apply search_shown.
  - apply (IH (after (apply_offscreen host l) w)); [|exact Hw1].
    now apply offscreen_shown.
Qed.

Lemma collected_shown w S w0 :
  shown (doc (pg w)) -> ctGetCalendarCheckboxes host w = Ok S w0 -> shown (doc (pg w0)).
Proof.
  intros H Hcol.
  destruct (find_section_loop_inv host (fun q => shown (doc q)) Hin 10 w H)
    as (r & w1 & k & Hrun & Hs & _).
  fold (ctFindCalendarSection host) in Hrun.
  rewrite (get_checkboxes_run _ _ _ _ Hrun) in Hcol. now injection Hcol as <- <-.
Qed.

(** What the searches of a call return was found on a shown document, for
    an entry of the group. *)
Lemma finds_shown group b S w0 c d :
  shown (doc (pg w0)) ->
  (c, d) ∈ finds (unprocessed group S)
             (search_ends host (unprocessed group S)
                          (after (apply_rendered group b S ∅) w0)) ->
  shown d /\
  exists t l, t ∈ calendars group /\ In c (toggles d) /\
              ctGetCalendarLabel d c = Some l /\ trim l = trim t.
Proof.
  intros H Hf. apply finds_elem in Hf.
  destruct Hf as ((w1 & Hw1 & ->) & t & Ht & Hfind).
  split.
  - refine (search_ends_shown _ _ _ _ Hw1).
    destruct (rendered_doc group b S ∅ w0) as (P' & wA & Hrun & Hd).
    unfold after. now rewrite Hrun, Hd.
  - apply find_labelled_Some in Hfind. destruct Hfind as (Hc & l & Hl & Htrim).
    exists t, l. split; [now apply (unprocessed_in_group group S)|]. auto.
Qed.

End Shown.

(** C1 (as amended). Let the host leave the checked states alone and show
    only documents on which every checkbox keeps one trimmed label, the
    group's entries being trimmed too. After
    [ctApplyCalendarGroup(group, true)], every checkbox the call has seen
    (those the collector returned, and those its scroll searches returned
    for the entries missing from them) that is not disabled is checked
    exactly when its label is in [group.calendars]. A checkbox the call has
    not seen, whatever the scrolling has rendered, and a disabled one are
    as they were. *)
Theorem apply_reconciles_discovered (host : host_t) (shown : node -> Prop)
    (group : CalendarGroup) (w w0 : world) (S : list CalendarCheckbox) :
  keeps_checked host -> stays_within host shown -> shown (doc (pg w)) ->
  labels_stable shown group ->
  ctGetCalendarCheckboxes host w = Ok S w0 ->
  exists w',
    ctApplyCalendarGroup host group true w = Ok tt w' /\
    (forall e d l,
       e ∈ seen host group true S w0 ->
       (forall d', shown d' -> is_disabled d' e = false) ->
       shown d -> In e (toggles d) -> ctGetCalendarLabel d e = Some l ->
       checkedOf (pg w') e = list_includes (calendars group) l) /\
    (forall e,
       e ∉ seen host group true S w0 \/
       (forall d', shown d' -> is_disabled d' e = true) ->
       checkedOf (pg w') e = checkedOf (pg w) e).
Proof.
  intros Hk Hin Hs0 (Htrim & Hstab & Hgrp) Hcol.
  destruct (apply_kept host Hk group true w S w0 Hcol) as (w' & Hrun & Hnil & Hcons).
  destruct (collected_facts host Hk w S w0 Hcol) as (Hc0 & HS).
  pose proof (collected_shown host shown Hin w S w0 Hs0 Hcol) as Hs1.
  exists w'. split; [exact Hrun|].
  destruct S as [|cb0 S'] eqn:ES.
  { split; [intros e d l He; inversion He|]. intros e _. now rewrite Hnil. }
  rewrite <- ES in *.
  assert (Hne : S <> []) by (rewrite ES; discriminate).
  specialize (Hcons Hne).
  assert (Hseen : seen host group true S w0 =
            List.map element S ++
            List.map fst
              (finds (unprocessed group S)
                     (search_ends host (unprocessed group S)
                                  (after (apply_rendered group true S ∅) w0)))).
  { unfold seen. rewrite ES. reflexivity. }
  rewrite Hseen. clear Hseen.
  set (F := finds (unprocessed group S)
              (search_ends host (unprocessed group S)
                           (after (apply_rendered group true S ∅) w0))) in *.
  assert (HF : forall c d, (c, d) ∈ F ->
            shown d /\ In c (toggles d) /\
            exists t, t ∈ calendars group /\ ctGetCalendarLabel d c = Some t).
  { intros c d Hcd.
    destruct (finds_shown host shown Hin group true S w0 c d Hs1 Hcd)
      as (Hd & t & l & Ht & Hc & Hl & Hlt).
    split; [exact Hd|]. split; [exact Hc|]. exists t. split; [exact Ht|].
    rewrite Hl. f_equal. rewrite <- (Htrim d c l Hd Hc Hl), Hlt. now apply Hgrp. }
  split.
  - intros e d l He Hen Hd Hct Hl. rewrite Hcons. unfold settled.
    rewrite (Hen _ Hs1). simpl. rewrite andb_true_r.
    assert (Hhit : existsb (hits e) F = true ->
                   list_includes (calendars group) l = true).
    { intros Hex. apply existsb_exists in Hex. destruct Hex as ([c d1] & Hcd & Hh).
      apply andb_true_iff in Hh. destruct Hh as [Hce _].
      apply bool_decide_eq_true in Hce. simpl in Hce. subst c.
      apply list_elem_of_In in Hcd.
      destruct (HF e d1 Hcd) as (Hd1 & Hc1 & t & Ht & Hl1).
      rewrite <- (Hstab d1 d e t l Hd1 Hd Hc1 Hct Hl1 Hl).
      now apply list_includes_true. }
    case_bool_decide as HeS.
    + apply list_elem_of_fmap in HeS. destruct HeS as (cb & -> & Hcb).
      destruct (HS cb Hcb) as (Hl0 & _ & Hct0).
      unfold label_of. rewrite Hl0. simpl.
      rewrite (Hstab _ d _ _ l Hs1 Hd Hct0 Hct Hl0 Hl). unfold want.
      destruct (list_includes (calendars group) l) eqn:Hinc; [reflexivity|].
      simpl. destruct (existsb (hits (element cb)) F) eqn:Hex; [|reflexivity].
      specialize (Hhit eq_refl). discriminate.
    + apply elem_of_app in He. destruct He as [He|He]; [contradiction|].
      apply list_elem_of_fmap in He. destruct He as ([c d1] & -> & Hcd).
      simpl in *.
      assert (Hex : existsb (hits c) F = true).
      { apply existsb_exists. exists (c, d1). split; [now apply list_elem_of_In|].
        unfold hits. simpl. rewrite bool_decide_true by reflexivity.
        destruct (HF c d1 Hcd) as (Hd1 & _). now rewrite (Hen d1 Hd1). }
      rewrite Hex, (Hhit Hex). apply orb_true_r.
  - intros e He. rewrite Hcons. unfold settled.
    assert (Hno : existsb (hits e) F = false).
    { destruct (existsb (hits e) F) eqn:Hex; [|reflexivity]. exfalso.
      apply existsb_exists in Hex. destruct Hex as ([c d1] & Hcd & Hh).
      apply andb_true_iff in Hh. destruct Hh as [Hce Hen].
      apply bool_decide_eq_true in Hce. simpl in Hce, Hen. subst c.
      apply list_elem_of_In in Hcd.
      destruct He as [He|He].
      - apply He. apply elem_of_app. right. apply list_elem_of_fmap.
        exists (e, d1). auto.
      - destruct (HF e d1 Hcd) as (Hd1 & _). rewrite (He d1 Hd1) in Hen. discriminate. }
    rewrite Hno, orb_false_r.
    destruct He as [He|He].
    + rewrite bool_decide_false; [reflexivity|].
      intros HeS. apply He. apply elem_of_app. now left.
    + rewrite (He _ Hs1). simpl. now rewrite andb_false_r.
Qed.

(** C2 (as amended). On a page that does not re-render, and either with
    [disableOthers = false] or with trimmed labels and group entries, a
    second [ctApplyCalendarGroup] with the same arguments, started in the
    world the first one left, clicks nothing but disabled checkboxes the
    call has seen, on which [click()] has no effect; when none of these is
    disabled it clicks nothing at all. *)
Theorem second_apply_clicks_only_disabled (group : CalendarGroup)
    (disableOthers : bool) (w : world) :
  disableOthers = false \/ labels_trimmed (doc (pg w)) group ->
  exists w1 w2 K,
    ctApplyCalendarGroup static_host group disableOthers w = Ok tt w1 /\
    ctApplyCalendarGroup static_host group disableOthers w1 = Ok tt w2 /\
    clicks w2 = clicks w1 ++ K /\
    (forall e, e ∈ K ->
               e ∈ discovered group (pg w) /\ is_disabled (doc (pg w)) e = true) /\
    ((forall e, e ∈ discovered group (pg w) -> is_disabled (doc (pg w)) e = false) ->
     clicks w2 = clicks w1).
Proof.
  intros Hcase.
  destruct (apply_static group disableOthers w) as (w1 & Hrun1 & Hd1 & Hc1).
  destruct (snapshot_same (pg w) (pg w1) Hd1) as [Hel Hlab].
  assert (Hdisc : discovered group (pg w1) = discovered group (pg w)).
  { unfold discovered, unprocessed. now rewrite Hel, Hlab, Hd1. }
  destruct (apply_static_stuck group disableOthers w1) as (w2 & K & Hrun2 & Hcl2 & HK).
  - (* an enabled checkbox of the second snapshot is in the wanted state *)
    intros cb Hcb Hwant. rewrite Hd1.
    destruct (is_disabled (doc (pg w)) (element cb)) eqn:Hdis; [reflexivity|].
    exfalso. apply Hwant.
    destruct (snapshot_elem _ _ Hcb) as (Hl & Hck & _).
    rewrite Hd1 in Hl. rewrite Hck, Hc1.
    assert (He : element cb ∈ List.map element (snapshot (pg w))).
    { rewrite <- Hel. apply list_elem_of_fmap. eauto. }
    unfold reconciled, settled.
    destruct (List.length (snapshot (pg w)) =? 0)%nat eqn:Hlen.
    { apply length_zero_nil in Hlen. rewrite Hlen in He. inversion He. }
    rewrite bool_decide_true by exact He. rewrite Hdis. simpl. rewrite andb_true_r.
    unfold label_of. rewrite Hl. simpl. unfold want.
    destruct (list_includes (calendars group) (label cb)) eqn:Hin; [reflexivity|].
    destruct disableOthers; [|reflexivity].
    destruct Hcase as [Hb|Htrim]; [discriminate|].
    simpl. case_bool_decide as Hf; [|reflexivity].
    rewrite (found_label_in_group _ _ _ _ _ Htrim Hf Hl) in Hin. discriminate.
  - (* what the lookup finds unchecked is disabled *)
    intros Hne c Hc Hun. unfold unprocessed in Hc. rewrite Hlab, Hd1 in Hc.
    fold (unprocessed group (snapshot (pg w))) in Hc.
    rewrite Hc1 in Hun. unfold reconciled in Hun. rewrite Hd1.
    destruct (List.length (snapshot (pg w)) =? 0)%nat eqn:Hlen.
    + exfalso. apply length_zero_nil in Hlen. apply Hne.
      rewrite Hlen in Hel. simpl in Hel.
      now destruct (snapshot (pg w1)).
    + rewrite bool_decide_true in Hun by exact Hc.
      apply orb_false_iff in Hun. destruct Hun as [_ Hun]. simpl in Hun.
      now apply negb_false_iff in Hun.
  - exists w1, w2, K. split; [exact Hrun1|]. split; [exact Hrun2|].
    split; [exact Hcl2|]. split.
    + intros e He. destruct (HK e He) as [H1 H2]. rewrite Hdisc, Hd1 in *. auto.
    + intros Hen. destruct K as [|e K]; [now rewrite Hcl2, app_nil_r|].
      destruct (HK e) as [H1 H2]; [left|].
      rewrite Hdisc, Hd1 in *. rewrite (Hen e H1) in H2. discriminate.
Qed.

(** C3 (as amended). Under a host that leaves the checked states alone,
    [ctApplyCalendarGroup(group, false)] never unchecks a checkbox: one
    that was checked before the call is checked after it. A checkbox whose
    trimmed label, on every document the host shows, differs from the
    trimmed form of every group entry keeps its state. *)
Theorem apply_keep_never_unchecks (host : host_t) (shown : node -> Prop)
    (group : CalendarGroup) (w : world) :
  keeps_checked host -> stays_within host shown -> shown (doc (pg w)) ->
  exists w',
    ctApplyCalendarGroup host group false w = Ok tt w' /\
    (forall e, checkedOf (pg w) e = true -> checkedOf (pg w') e = true) /\
    (forall e,
       (forall d l t, shown d -> ctGetCalendarLabel d e = Some l ->
                      t ∈ calendars group -> trim l <> trim t) ->
       checkedOf (pg w') e = checkedOf (pg w) e).
Proof.
  intros Hk Hin Hs0.
  destruct (find_section_loop_inv host any_page (fun _ _ _ => I) 10 w I)
    as (r & w0 & k & Hsec & _).
  fold (ctFindCalendarSection host) in Hsec.
  pose proof (get_checkboxes_run _ _ _ _ Hsec) as Hcol.
  set (S := match r with Some s => collect_in (pg w0) s | None => [] end) in *.
  destruct (apply_kept host Hk group false w S w0 Hcol) as (w' & Hrun & Hnil & Hcons).
  destruct (collected_facts host Hk w S w0 Hcol) as (Hc0 & HS).
  pose proof (collected_shown host shown Hin w S w0 Hs0 Hcol) as Hs1.
  exists w'. split; [exact Hrun|].
  destruct (decide (List.length S = O)) as [Hlen|Hlen].
  { assert (E : S = []) by now destruct S. rewrite (Hnil E). auto. }
  assert (Hne : S <> []) by (intros E; rewrite E in Hlen; now apply Hlen).
  specialize (Hcons Hne). split.
  - intros e He. rewrite Hcons. unfold settled, want. rewrite He.
    destruct (bool_decide _ && negb _); [|reflexivity].
    now destruct (list_includes _ _).
  - intros e Hfar. rewrite Hcons. unfold settled, want.
    match goal with |- context [existsb (hits e) ?F] =>
      assert (Hno : existsb (hits e) F = false)
    end.
    { match goal with |- ?X = false => destruct X eqn:Hex; [|reflexivity] end.
      exfalso. apply existsb_exists in Hex. destruct Hex as ([c d1] & Hcd & Hh).
      apply andb_true_iff in Hh. destruct Hh as [Hce _].
      apply bool_decide_eq_true in Hce. simpl in Hce. subst c.
      apply list_elem_of_In in Hcd.
      destruct (finds_shown host shown Hin group false S w0 e d1 Hs1 Hcd)
        as (Hd1 & t & l & Ht & _ & Hl & Hlt).
      exact (Hfar d1 l t Hd1 Hl Ht Hlt). }
    rewrite Hno, orb_false_r.
    destruct (bool_decide (e ∈ List.map element S) && negb (is_disabled (doc (pg w0)) e))
      eqn:Hb; [|reflexivity].
    apply andb_true_iff in Hb. destruct Hb as [HeS _].
    apply bool_decide_eq_true, list_elem_of_fmap in HeS.
    destruct HeS as (cb & -> & Hcb). destruct (HS cb Hcb) as (Hl0 & _).
    unfold label_of. rewrite Hl0. simpl.
    destruct (list_includes (calendars group) (label cb)) eqn:Hinc; [|reflexivity].
    apply list_includes_true in Hinc.
    exfalso. exact (Hfar _ (label cb) (label cb) Hs1 Hl0 Hinc eq_refl).
Qed.

(* ================================================================== *)
(** ** Counterexamples and instances *)
(* ================================================================== *)

(** C1 fails as stated. The row "Y" is rendered after two scroll steps of
    the search for "X" (so it is discoverable within the scroll bounds), it
    is not in [group.calendars], and it is still checked when
    [ctApplyCalendarGroup(group, true)] is over: the checked labels are
    "A", "X" and "Y". *)
Lemma virtualized_row_stays_checked :
  ctApplyCalendarGroup virtual_host (group_of ["A"; "X"]) true virtual_world
    = Ok tt virtual_after_first /\
  scrolls virtual_after_first = [(drawer, 200); (drawer, 400)] /\
  ctFindCheckboxByLabel (doc (pg virtual_after_first)) (lit "Y") = Some (row 2) /\
  list_includes (calendars (group_of ["A"; "X"])) (lit "Y") = false /\
  checkedOf (pg virtual_after_first) (row 2) = true /\
  ctGetCurrentlySelectedCalendars virtual_host virtual_after_first
    = Ok [lit "A"; lit "X"; lit "Y"] virtual_after_first.
Proof. evaluate. Qed.

(** A disabled checkbox is clicked in vain: "A" is in the group and in the
    snapshot, [click()] is called on it and it stays unchecked; a second
    call clicks it again. *)
Example disabled_toggle_is_clicked_in_vain :
  ctApplyCalendarGroup static_host (group_of ["A"]) true disabled_world
    = Ok tt disabled_after /\
  is_disabled (doc (pg disabled_world)) (row 0) = true /\
  checkedOf (pg disabled_after) (row 0) = false /\
  clicks disabled_after = [row 0; row 1] /\
  ctGetCurrentlySelectedCalendars static_host disabled_after = Ok [] disabled_after /\
  clicks (after (ctApplyCalendarGroup static_host (group_of ["A"]) true) disabled_after)
    = [row 0; row 1; row 0].
Proof. evaluate. Qed.

Ltac cases_of H :=
  repeat match type of H with
         | _ \/ _ => destruct H as [H|H]
         | False => destruct H
         end.

(** The virtualised list shows trimmed labels that stay with their rows. *)
Lemma virtual_labels_stable : labels_stable virtual_shown (group_of ["A"; "X"]).
Proof.
  split; [|split].
  - intros d c l [-> | ->] Hc Hl; vm_compute in Hc; cases_of Hc; subst c;
      vm_compute in Hl; injection Hl as <-; reflexivity.
  - intros d d' c l l' [-> | ->] [-> | ->] Hc Hc' Hl Hl';
      vm_compute in Hc, Hc'; cases_of Hc; cases_of Hc'; subst c;
      try discriminate; vm_compute in Hl, Hl'; congruence.
  - intros t Ht. apply list_elem_of_In in Ht. vm_compute in Ht.
    cases_of Ht; subst t; reflexivity.
Defined.

Lemma virtual_stays_within : stays_within virtual_host virtual_shown.
Proof.
  intros ms w _. unfold virtual_host, virtual_shown. simpl.
  destruct (400 <=? _); [right | left]; reflexivity.
Defined.

(** C1 on the virtualised list with the group ["A"; "X"]: "A" is in the
    snapshot, "X" is returned by the scroll search. *)
Lemma apply_reconciles_discovered_witness :
  seen virtual_host (group_of ["A"; "X"]) true (snapshot (pg virtual_world)) virtual_world
    = [row 0; row 1] /\
  exists w',
    ctApplyCalendarGroup virtual_host (group_of ["A"; "X"]) true virtual_world
      = Ok tt w' /\
    (forall e d l,
       e ∈ seen virtual_host (group_of ["A"; "X"]) true
              (snapshot (pg virtual_world)) virtual_world ->
       (forall d', virtual_shown d' -> is_disabled d' e = false) ->
       virtual_shown d -> In e (toggles d) -> ctGetCalendarLabel d e = Some l ->
       checkedOf (pg w') e = list_includes (calendars (group_of ["A"; "X"])) l) /\
    (forall e,
       e ∉ seen virtual_host (group_of ["A"; "X"]) true
              (snapshot (pg virtual_world)) virtual_world \/
       (forall d', virtual_shown d' -> is_disabled d' e = true) ->
       checkedOf (pg w') e = checkedOf (pg virtual_world) e).
Proof.
  split; [vm_compute; reflexivity|].
  apply (apply_reconciles_discovered virtual_host virtual_shown (group_of ["A"; "X"])
           virtual_world virtual_world (snapshot (pg virtual_world))).
  - intros ms w. reflexivity.
  - exact virtual_stays_within.
  - left. reflexivity.
  - exact virtual_labels_stable.
  - vm_compute. reflexivity.
Defined.

(** C2 fails as stated. The first call scrolls the drawer to find "X" and
    leaves the row "Y" rendered and checked; the second call, started in
    the world the first one left, finds "Y" in its snapshot and clicks it. *)
Lemma second_apply_clicks_new_row :
  ctApplyCalendarGroup virtual_host (group_of ["A"; "X"]) true virtual_world
    = Ok tt virtual_after_first /\
  ctApplyCalendarGroup virtual_host (group_of ["A"; "X"]) true virtual_after_first
    = Ok tt virtual_after_second /\
  clicks virtual_after_first = [row 0; row 1] /\
  clicks virtual_after_second = [row 0; row 1; row 2].
Proof. evaluate. Qed.

(** The labels "A" and "Z" and the entry "A" are trimmed. *)
Lemma static_world_trimmed : labels_trimmed (doc (pg static_world)) (group_of ["A"]).
Proof.
  split.
  - intros c l Hc Hl. vm_compute in Hc.
    destruct Hc as [<-|[<-|[]]]; vm_compute in Hl; injection Hl as <-; reflexivity.
  - intros t Ht. apply list_elem_of_In in Ht. vm_compute in Ht.
    destruct Ht as [<-|[]]. reflexivity.
Defined.

(** C2 on the static list with the rows "A" (unchecked) and "Z" (checked)
    and the group ["A"]. *)
Lemma second_apply_clicks_only_disabled_witness :
  exists w1 w2 K,
    ctApplyCalendarGroup static_host (group_of ["A"]) true static_world = Ok tt w1 /\
    ctApplyCalendarGroup static_host (group_of ["A"]) true w1 = Ok tt w2 /\
    clicks w2 = clicks w1 ++ K /\
    (forall e, e ∈ K ->
               e ∈ discovered (group_of ["A"]) (pg static_world) /\
               is_disabled (doc (pg static_world)) e = true) /\
    ((forall e, e ∈ discovered (group_of ["A"]) (pg static_world) ->
                is_disabled (doc (pg static_world)) e = false) ->
     clicks w2 = clicks w1).
Proof.
  apply (second_apply_clicks_only_disabled (group_of ["A"]) true static_world).
  right. exact static_world_trimmed.
Defined.

(** C3 fails as stated. The label "B " is not in [group.calendars] = ["B"],
    the checkbox is unchecked before [ctApplyCalendarGroup(group, false)]
    and checked after it: the lookup for "B" compares trimmed labels. *)
Lemma padded_label_gets_checked :
  ctGetCalendarLabel (doc (pg padded_world)) (row 0) = Some (lit "B ") /\
  list_includes (calendars (group_of ["B"])) (lit "B ") = false /\
  checkedOf (pg padded_world) (row 0) = false /\
  ctApplyCalendarGroup static_host (group_of ["B"]) false padded_world
    = Ok tt padded_after /\
  checkedOf (pg padded_after) (row 0) = true.
Proof. evaluate. Qed.

(** C3 on the virtualised list: the row "Y", rendered by the search for
    "X" and checked, is not unchecked. *)
Lemma apply_keep_never_unchecks_witness :
  exists w',
    ctApplyCalendarGroup virtual_host (group_of ["A"; "X"]) false virtual_world
      = Ok tt w' /\
    (forall e, checkedOf (pg virtual_world) e = true -> checkedOf (pg w') e = true) /\
    (forall e,
       (forall d l t, virtual_shown d -> ctGetCalendarLabel d e = Some l ->
                      t ∈ calendars (group_of ["A"; "X"]) -> trim l <> trim t) ->
       checkedOf (pg w') e = checkedOf (pg virtual_world) e).
Proof.
  apply (apply_keep_never_unchecks virtual_host virtual_shown (group_of ["A"; "X"])
           virtual_world).
  - intros ms w. reflexivity.
  - exact virtual_stays_within.
  - left. reflexivity.
Defined.

(** C7 on the static list, searching the label "Q" that no row carries:
    four rounds down (the fourth leaves the offset at the maximum, 700) and
    four rounds up (the fourth writes 0). *)
Lemma scroll_search_bounded_witness :
  sweeps_exhausted static_host (lit "Q") static_world.
Proof.
  apply (scroll_search_bounded static_host (lit "Q") static_world).
  - vm_compute. reflexivity.
  - intros ms w0 H. exact H.
Defined.

(** The same search, round by round. *)
Example scroll_search_on_static_list :
  scrolls (after (ctFindAndScrollToCheckbox static_host (lit "Q")) static_world)
    = [(drawer, 200); (drawer, 400); (drawer, 600); (drawer, 800);
       (drawer, 500); (drawer, 300); (drawer, 100); (drawer, 0)] /\
  sleeps (after (ctFindAndScrollToCheckbox static_host (lit "Q")) static_world)
    = repeat 300 8.
Proof. evaluate. Qed.

(** C8 fails as stated: the polls are not one second apart. On the drawer
    without checkboxes no section is located, each poll spends ten retries
    of 500 ms before its sleep of 1000 ms, and the 30 seconds are over
    after five polls, 6000 ms apart. *)
Example load_gate_on_empty_drawer :
  ctWaitForCalendarLoad static_host 30 empty_world
    = Throw (LoadTimeout 0) (after (ctWaitForCalendarLoad static_host 30) empty_world) /\
  sleeps empty_world = [] /\
  sleeps (after (ctWaitForCalendarLoad static_host 30) empty_world)
    = concat (repeat (repeat 500 10 ++ [checkInterval]) 5) /\
  now (after (ctWaitForCalendarLoad static_host 30) empty_world) - now empty_world
    = 30000.
Proof. evaluate. Qed.

(** On a lone labelled checkbox, which is its own section and has no
    checkbox below it, the collector returns nothing although the raw
    count is 1; the section is located at once and the thirty polls are
    one second apart. *)
Example load_gate_on_lone_checkbox :
  ctGetCalendarCheckboxes static_host lone_world = Ok [] lone_world /\
  ctWaitForCalendarLoad static_host 30 lone_world
    = Throw (LoadTimeout 1) (after (ctWaitForCalendarLoad static_host 30) lone_world) /\
  sleeps (after (ctWaitForCalendarLoad static_host 30) lone_world)
    = repeat checkInterval 30.
Proof. evaluate. Qed.

(** C8 on the lone labelled checkbox. *)
Lemma load_gate_times_out_witness :
  exists w' rounds,
    ctWaitForCalendarLoad static_host 30 lone_world
      = Throw (LoadTimeout (raw_toggle_count w')) w' /\
    maxWait <= now w' - now lone_world < maxWait + 11000 /\
    (List.length rounds <= 30)%nat /\
    Forall (fun k => (k <= 20)%nat) rounds /\
    sleeps w' = sleeps lone_world ++ poll_log rounds /\
    now w' = now lone_world + total (poll_log rounds).
Proof.
  apply (load_gate_times_out static_host lone_world 30).
  - lia.
  - intros (s & Hs & Hne). vm_compute in Hs. injection Hs as <-.
    apply Hne. vm_compute. reflexivity.
  - intros ms w0 H. exact H.
Defined.

(* ================================================================== *)
(** ** Further properties of the discovery layer *)
(* ================================================================== *)


Lemma closest_from_prefix d sel : forall fuel p s,
  closest_from d sel fuel p = Some s ->
  matches_at d sel s = true /\ exists r, p = s ++ r.
Proof.
  induction fuel as [|fuel IH]; intros p s; simpl.
  - destruct (matches_at d sel p) eqn:Hm; [|discriminate].
    intros [= <-]. split; [exact Hm|]. exists []. now rewrite app_nil_r.
  - destruct (matches_at d sel p) eqn:Hm.
    + intros [= <-]. split; [exact Hm|]. exists []. now rewrite app_nil_r.
    + destruct p as [|i p]; simpl; [discriminate|].
      intros H. apply IH in H. destruct H as (Hs & r & Hr).
      split; [exact Hs|].
      exists (r ++ [List.last (i :: p) O]).
      rewrite app_assoc, <- Hr. apply app_removelast_last. discriminate.
Qed.

Lemma get_app_inv d : forall p r e,
  get d (p ++ r) = Some e -> exists n, get d p = Some n /\ get n r = Some e.
Proof.
  revert d. intros d p. revert d.
  induction p as [|i p IH]; intros d r e; simpl.
  - eauto.
  - destruct (children d !! i); [apply IH | discriminate].
Qed.

(** A document-wide match strictly below [s] is a match of the query on [s]. *)
Lemma document_match_below d sel s r :
  r <> [] ->
  In (s ++ r) (document_querySelectorAll d sel) ->
  In (s ++ r) (querySelectorAll d s sel).
Proof.
  intros Hr. unfold document_querySelectorAll, querySelectorAll.
  rewrite filter_In. intros [Hin Hm].
  apply elems_in in Hin. destruct Hin as (r0 & e & Heq & Hget & He).
  simpl in Heq. subst r0.
  destruct (get_app_inv _ _ _ _ Hget) as (n & Hn & Hnr). rewrite Hn.
  apply filter_In. split; [|exact Hm].
  assert (Hin : In (s ++ r) (elems s n)) by (apply elems_in; eauto).
  destruct n as [t|t a ks].
  - destruct r; [congruence | discriminate].
  - rewrite elems_Elem in *. simpl in *. destruct Hin as [Heq|Hin]; [|exact Hin].
    exfalso. apply Hr. apply (app_inv_head s). now rewrite app_nil_r.
Qed.

Lemma section_by_selectors_has_checkbox d : forall sels s,
  section_by_selectors d sels = Some s ->
  querySelectorAll d s CT_CHECKBOX_SELECTOR <> [].
Proof.
  induction sels as [|sel sels IH]; intros s; simpl; [discriminate|].
  destruct (document_querySelector d sel) as [q|]; [|apply IH].
  destruct (0 <? Z.of_nat (List.length (querySelectorAll d q CT_CHECKBOX_SELECTOR))) eqn:Hlen;
    [|apply IH].
  intros [= <-] Hnil. rewrite Hnil in Hlen. discriminate.
Qed.

Lemma section_by_closest_some d : forall cbs s,
  section_by_closest d cbs = Some s ->
  exists c, In c cbs /\ closest d fallback_selector c = Some s.
Proof.
  induction cbs as [|c cbs IH]; intros s; simpl; [discriminate|].
  destruct (closest d fallback_selector c) as [q|] eqn:Hc.
  - intros [= <-]. eauto.
  - intros H. destruct (IH s H) as (c' & Hin & Hc'). eauto.
Qed.

Lemma section_by_common_parent_has_checkbox d count : forall fuel parent s,
  (0 < count)%nat ->
  section_by_common_parent d count parent fuel = Some s ->
  querySelectorAll d s CT_CHECKBOX_SELECTOR <> [].
Proof.
  induction fuel as [|fuel IH]; intros parent s Hpos; simpl.
  - destruct parent; discriminate.
  - destruct parent as [q|]; [|discriminate].
    case_bool_decide; [discriminate|].
    destruct (Z.of_nat count <=? 2 * Z.of_nat (List.length (querySelectorAll d q CT_CHECKBOX_SELECTOR))) eqn:Hle.
    + intros [= <-] Hnil. rewrite Hnil in Hle. simpl in Hle.
      apply Z.leb_le in Hle. lia.
    + now apply IH.
Qed.

(** X2. A section located by a round of [ctFindCalendarSection] has a
    checkbox below it, with one exception: a checkbox that itself carries
    one of the fallback hints ([role="tree"], [role="group"], or an
    [aria-label] containing "calendar" or its Japanese form) is returned
    as its own section by [closest]. *)
Theorem located_section_has_checkbox (d : node) (s : path) :
  section_round d = Val (Some s) ->
  querySelectorAll d s CT_CHECKBOX_SELECTOR <> [] \/
  (matches_at d CT_CHECKBOX_SELECTOR s = true /\
   matches_at d fallback_selector s = true).
Proof.
  unfold section_round.
  destruct (section_by_selectors d CT_CALENDAR_SELECTORS) as [q|] eqn:Hsel.
  { intros [= <-]. left. eapply section_by_selectors_has_checkbox; eauto. }
  destruct (document_querySelectorAll d CT_CHECKBOX_SELECTOR) as [|c0 l] eqn:Hall;
    [discriminate|].
  cbn [List.length]. change (0 <? Z.of_nat (S (List.length l))) with true. cbv iota.
  destruct (section_by_closest d (c0 :: l)) as [q|] eqn:Hcl.
  - intros [= <-]. apply section_by_closest_some in Hcl.
    destruct Hcl as (c & Hin & Hc). unfold closest in Hc.
    apply closest_from_prefix in Hc. destruct Hc as (Hm & r & ->).
    rewrite <- Hall in Hin.
    destruct r as [|i r].
    + right. rewrite app_nil_r in Hin. split; [|exact Hm].
      unfold document_querySelectorAll in Hin. apply filter_In in Hin. tauto.
    + left. intros Hnil.
      apply (document_match_below d _ q (i :: r)) in Hin; [|discriminate].
      rewrite Hnil in Hin. destruct Hin.
  - change ((c0 :: l) !! O) with (Some c0). cbv iota beta.
    intros [= H]. left.
    apply (section_by_common_parent_has_checkbox d (S (List.length l))
             (S (List.length c0)) (parentElement c0) s); [lia | exact H].
Qed.

Lemma located_section_has_checkbox_witness :
  querySelectorAll lone_doc [O; O] CT_CHECKBOX_SELECTOR <> [] \/
  (matches_at lone_doc CT_CHECKBOX_SELECTOR [O; O] = true /\
   matches_at lone_doc fallback_selector [O; O] = true).
Proof.
  apply (located_section_has_checkbox lone_doc [O; O]). reflexivity.
Defined.

(** The lone checkbox has a label, but the collector, looking below the
    section only, returns nothing. *)
Example lone_checkbox_is_not_collected :
  ctGetCalendarLabel lone_doc [O; O] = Some (lit "Team calendar") /\
  located lone_doc = Some [O; O] /\
  snapshot (fresh_world lone_doc (fun _ => true) (mkBox 0 0 0)).(pg) = [].
Proof. evaluate. Qed.

Lemma find_labelled_first d t : forall l,
  match find_labelled d t l with
  | Some c =>
    exists before rest,
      l = before ++ c :: rest /\
      (exists l', ctGetCalendarLabel d c = Some l' /\ trim l' = t) /\
      forall b l', In b before -> ctGetCalendarLabel d b = Some l' -> trim l' <> t
  | None =>
    forall b l', In b l -> ctGetCalendarLabel d b = Some l' -> trim l' <> t
  end.
Proof.
  induction l as [|x l IH]; simpl; [tauto|].
  rewrite truthy_label.
  destruct (ctGetCalendarLabel d x) as [lx|] eqn:Hx.
  - destruct (JS.eqb (trim lx) t) eqn:Heq.
    + apply bool_decide_eq_true in Heq.
      exists [], l. split; [reflexivity|]. split; [eauto|]. intros b l' [].
    + apply bool_decide_eq_false in Heq.
      destruct (find_labelled d t l) as [c|].
      * destruct IH as (before & rest & -> & Hc & Hb).
        exists (x :: before), rest. split; [reflexivity|]. split; [exact Hc|].
        intros b l' [<-|Hin] Hl; [congruence | eauto].
      * intros b l' [<-|Hin] Hl; [congruence | eauto].
  - destruct (find_labelled d t l) as [c|].
    + destruct IH as (before & rest & -> & Hc & Hb).
      exists (x :: before), rest. split; [reflexivity|]. split; [exact Hc|].
      intros b l' [<-|Hin] Hl; [congruence | eauto].
    + intros b l' [<-|Hin] Hl; [congruence | eauto].
Qed.

(** X3. [ctFindCheckboxByLabel] returns the first checkbox of the document,
    in document order, whose label equals the requested one after trimming
    both; it returns [null] exactly when no checkbox has such a label. *)
Theorem find_by_label_spec (d : node) (label : jstr) :
  match ctFindCheckboxByLabel d label with
  | Some c =>
    exists before rest,
      document_querySelectorAll d CT_CHECKBOX_SELECTOR = before ++ c :: rest /\
      label_matches d label c /\
      forall b, In b before -> ~ label_matches d label b
  | None =>
    forall b, In b (document_querySelectorAll d CT_CHECKBOX_SELECTOR) ->
              ~ label_matches d label b
  end.
Proof.
  unfold ctFindCheckboxByLabel, label_matches.
  pose proof (find_labelled_first d (trim label)
                (document_querySelectorAll d CT_CHECKBOX_SELECTOR)) as H.
  destruct (find_labelled d (trim label) _) as [c|].
  - destruct H as (before & rest & Heq & Hc & Hb).
    exists before, rest. split; [exact Heq|]. split; [exact Hc|].
    intros b Hin (l' & Hl & Ht). exact (Hb b l' Hin Hl Ht).
  - intros b Hin (l' & Hl & Ht). exact (H b l' Hin Hl Ht).
Qed.

(** X4. For every host, [ctFindAndScrollToCheckbox] ends normally without
    clicking anything, after at most 20 rounds, each one scroll write
    followed by a sleep of 300 ms (6000 ms at most); a checkbox it returns
    is the one the direct lookup finds on the page it ends on. *)
Theorem scroll_search_budget (host : host_t) (label : jstr) (w : world) :
  exists r w' k,
    ctFindAndScrollToCheckbox host label w = Ok r w' /\
    clicks w' = clicks w /\
    (k <= 20)%nat /\
    List.length (scrolls w') = (List.length (scrolls w) + k)%nat /\
    sleeps w' = sleeps w ++ repeat 300 k /\
    now w' = now w + 300 * Z.of_nat k /\
    match r with
    | Some c => ctFindCheckboxByLabel (doc (pg w')) label = Some c
    | None => True
    end.
Proof.
  unfold ctFindAndScrollToCheckbox. munfold.
  destruct (ctFindCheckboxByLabel (doc (pg w)) label) as [c|] eqn:Hfind.
  { exists (Some c), w, O. simpl. rewrite app_nil_r. repeat split; auto; lia. }
  destruct (drawer_no_error (doc (pg w))) as [dc Hdc]. rewrite Hdc.
  destruct dc as [dc|].
  2:{ exists None, w, O. simpl. rewrite app_nil_r. repeat split; auto; lia. }
  destruct (sweep_down_inv host any_page (fun _ _ _ => I) (fun _ _ _ => I)
              label dc maxScrollAttempts (scrollTop (layout (pg w) dc)) w I)
    as (r & w1 & n & Hrun & _ & Hc1 & Hn & Hs1 & Hsl1 & Hnow1 & Hr).
  rewrite Hrun. unfold maxScrollAttempts in *. destruct r as [c|].
  { exists (Some c), w1, n. repeat split; auto; try lia.
    rewrite Hs1, length_app, down_writes_length. reflexivity. }
  destruct (sweep_up_inv host any_page (fun _ _ _ => I) (fun _ _ _ => I)
              label dc 10%nat (scrollTop (layout (pg w1) dc)) w1 I)
    as (r & w2 & m & Hrun2 & _ & Hc2 & Hm & Hs2 & Hsl2 & Hnow2 & Hr2).
  rewrite Hrun2. exists r, w2, (n + m)%nat. split; [reflexivity|].
  split; [congruence|]. split; [lia|]. split.
  { rewrite Hs2, Hs1, !length_app, down_writes_length, up_writes_length. lia. }
  split. { rewrite Hsl2, Hsl1, <- app_assoc, repeat_app. reflexivity. }
  split; [lia|]. destruct r; [exact Hr2 | exact I].
Qed.

Lemma wait_loop_total host startTime : forall fuel w,
  maxWait - (now w - startTime) <= checkInterval * Z.of_nat fuel ->
  (exists w', wait_loop host startTime fuel w = Ok tt w' /\
              clicks w' = clicks w /\
              toggles_ready (pg w')) \/
  (exists w', wait_loop host startTime fuel w
                = Throw (LoadTimeout (raw_toggle_count w')) w' /\
              clicks w' = clicks w /\ maxWait <= now w' - startTime).
Proof.
  induction fuel as [|fuel IH]; intros w Hfuel.
  - right. exists w. simpl.
    destruct (now w - startTime <? maxWait) eqn:Hlt.
    + apply Z.ltb_lt in Hlt. lia.
    + apply Z.ltb_ge in Hlt. auto.
  - simpl. destruct (now w - startTime <? maxWait) eqn:Hlt.
    2:{ apply Z.ltb_ge in Hlt. right. exists w. auto. }
    apply Z.ltb_lt in Hlt. munfold.
    destruct (find_section_loop_inv host any_page (fun _ _ _ => I) 10 w I)
      as (r & w1 & k1 & Hrun & _ & Hc1 & _ & _ & _ & Hnow1 & _).
    fold (ctFindCalendarSection host) in Hrun. rewrite Hrun.
    assert (Hgo : forall w2,
              clicks w2 = clicks w -> now w <= now w2 ->
              (exists w', (ctSleep host checkInterval ;; wait_loop host startTime fuel) w2
                            = Ok tt w' /\
                          clicks w' = clicks w /\
                          toggles_ready (pg w')) \/
              (exists w', (ctSleep host checkInterval ;; wait_loop host startTime fuel) w2
                            = Throw (LoadTimeout (raw_toggle_count w')) w' /\
                          clicks w' = clicks w /\ maxWait <= now w' - startTime)).
    { intros w2 Hc2 Hnow2. munfold. unfold ctSleep.
      match goal with |- context [wait_loop host startTime fuel ?w3] =>
        destruct (IH w3) as [(w' & Hr & Hc & Hready) | (w' & Hr & Hc & Hn)]
      end.
      - simpl. unfold checkInterval in *. lia.
      - left. exists w'. rewrite Hr. simpl in Hc. repeat split; auto; congruence.
      - right. exists w'. rewrite Hr. simpl in Hc. repeat split; auto; congruence. }
    munfold. destruct r as [s|]; [|apply (Hgo w1 Hc1); lia].
    destruct (find_section_loop_inv host any_page (fun _ _ _ => I) 10 w1 I)
      as (r2 & w2 & k2 & Hrun2 & _ & Hc2 & _ & _ & _ & Hnow2 & Hr2).
    fold (ctFindCalendarSection host) in Hrun2.
    rewrite (get_checkboxes_run _ _ _ _ Hrun2).
    destruct r2 as [s2|]; simpl.
    + destruct (collect_in (pg w2) s2) as [|cb l] eqn:Hcol; simpl.
      * apply (Hgo w2); [congruence | lia].
      * left. exists w2. split; [reflexivity|]. split; [congruence|].
        exists s2. split; [exact Hr2|]. rewrite Hcol. discriminate.
    + apply (Hgo w2); [congruence | lia].
Qed.

(** X5. For every host, [ctWaitForCalendarLoad] ends (30 iterations of the
    loop are enough) and never clicks: either it returns, on a page where
    the collector has a labelled checkbox to return, or it throws the
    timeout once [maxWait] has passed; it throws nothing else. *)
Theorem load_gate_total (host : host_t) (w : world) (fuel : nat) :
  (30 <= fuel)%nat ->
  (exists w', ctWaitForCalendarLoad host fuel w = Ok tt w' /\
              clicks w' = clicks w /\ toggles_ready (pg w')) \/
  (exists w', ctWaitForCalendarLoad host fuel w
                = Throw (LoadTimeout (raw_toggle_count w')) w' /\
              clicks w' = clicks w /\ maxWait <= now w' - now w).
Proof.
  intros Hfuel. unfold ctWaitForCalendarLoad.
  apply wait_loop_total. unfold maxWait, checkInterval. lia.
Qed.

(** X5 on the static list of two rows: the first poll succeeds. *)
Lemma load_gate_total_witness :
  (exists w', ctWaitForCalendarLoad static_host 30 static_world = Ok tt w' /\
              clicks w' = clicks static_world /\ toggles_ready (pg w')) \/
  (exists w', ctWaitForCalendarLoad static_host 30 static_world
                = Throw (LoadTimeout (raw_toggle_count w')) w' /\
              clicks w' = clicks static_world /\
              maxWait <= now w' - now static_world).
Proof. apply (load_gate_total static_host static_world 30). lia. Defined.

(* ================================================================== *)
(** ** Further properties of the reconciliation *)
(* ================================================================== *)

Lemma toggle_clicks e t w :
  exists w',
    ctToggleCheckbox e t w = Ok tt w' /\
    (List.length (clicks w') <= S (List.length (clicks w)))%nat /\
    scrolls w' = scrolls w /\ sleeps w' = sleeps w /\ now w' = now w.
Proof.
  unfold ctToggleCheckbox. munfold.
  destruct (negb (Bool.eqb (checkedOf (pg w) e) t)).
  - eexists. split; [reflexivity|]. simpl. rewrite length_app. simpl.
    repeat split; lia.
  - exists w. repeat split; lia.
Qed.

Lemma apply_rendered_clicks group b : forall cbs P w,
  exists P' w',
    apply_rendered group b cbs P w = Ok P' w' /\
    (List.length (clicks w') <= List.length (clicks w) + List.length cbs)%nat /\
    scrolls w' = scrolls w /\ sleeps w' = sleeps w /\ now w' = now w /\
    (forall l, l ∈ P' <-> l ∈ List.map label cbs \/ l ∈ P).
Proof.
  induction cbs as [|cb cbs IH]; intros P w.
  - exists P, w. simpl. repeat split; auto; try lia.
    intros [H|H]; [inversion H | exact H].
  - assert (Hvis : exists w1,
              apply_visible group b cb w = Ok tt w1 /\
              (List.length (clicks w1) <= S (List.length (clicks w)))%nat /\
              scrolls w1 = scrolls w /\ sleeps w1 = sleeps w /\ now w1 = now w).
    { unfold apply_visible.
      destruct (_ && negb _); [apply toggle_clicks|].
      destruct (_ && _ && b); [apply toggle_clicks|].
      exists w. repeat split; lia. }
    destruct Hvis as (w1 & Hrun1 & Hc1 & Hs1 & Hsl1 & Hn1).
    destruct (IH ({[label cb]} ∪ P) w1) as (P' & w' & Hrun & Hc & Hs & Hsl & Hn & HP).
    exists P', w'. cbn [apply_rendered]. munfold. rewrite Hrun1, Hrun.
    split; [reflexivity|]. simpl. repeat split; try congruence; try lia.
    + intros Hl. apply HP in Hl. set_solver.
    + intros Hl. apply HP. set_solver.
Qed.

Lemma apply_offscreen_clicks host l w :
  exists a w',
    apply_offscreen host l w = Ok a w' /\
    (List.length (clicks w') <= S (List.length (clicks w)))%nat.
Proof.
  unfold apply_offscreen. munfold.
  destruct (find_and_scroll_inv host any_page (fun _ _ _ => I) (fun _ _ _ => I) l w I)
    as (r & w1 & Hrun & _ & Hc1 & _). rewrite Hrun, <- Hc1.
  destruct r as [c|].
  - destruct (negb (checkedOf (pg w1) c)).
    + destruct (toggle_clicks c true w1) as (w2 & Hrun2 & Hc2 & _).
      rewrite Hrun2. exists true, w2. split; [reflexivity|]. lia.
    + exists true, w1. split; [reflexivity|]. lia.
  - exists false, w1. split; [reflexivity|]. lia.
Qed.

Lemma apply_unprocessed_clicks host : forall ls P w,
  exists P' w',
    apply_unprocessed host ls P w = Ok P' w' /\
    (List.length (clicks w') <= List.length (clicks w) + List.length ls)%nat.
Proof.
  induction ls as [|l ls IH]; intros P w.
  - exists P, w. split; [reflexivity|]. lia.
  - destruct (apply_offscreen_clicks host l w) as (a & w1 & Hrun1 & Hc1).
    destruct (IH (if a then {[l]} ∪ P else P) w1) as (P' & w' & Hrun & Hc).
    exists P', w'. cbn [apply_unprocessed]. munfold. rewrite Hrun1, Hrun.
    split; [reflexivity|]. simpl. lia.
Qed.

Lemma filter_length_le {A} (f : A -> bool) l :
  (List.length (List.filter f l) <= List.length l)%nat.
Proof. induction l as [|x l IH]; simpl; [lia|]. destruct (f x); simpl; lia. Qed.

(** X6. For every host, [ctApplyCalendarGroup] ends normally: a partial
    application is never an error. With an empty snapshot it stops at once,
    in the world the collector left; otherwise it clicks at most once per
    checkbox of the snapshot and once per group entry. *)
Theorem apply_never_fails (host : host_t) (group : CalendarGroup)
    (flag : bool) (w : world) :
  exists S w0 w',
    ctGetCalendarCheckboxes host w = Ok S w0 /\
    ctApplyCalendarGroup host group flag w = Ok tt w' /\
    (S = [] -> w' = w0) /\
    (List.length (clicks w') <=
       List.length (clicks w) + List.length S + List.length (calendars group))%nat.
Proof.
  destruct (find_section_loop_inv host any_page (fun _ _ _ => I) 10 w I)
    as (r & w0 & k & Hrun & _ & Hc0 & _).
  fold (ctFindCalendarSection host) in Hrun. rewrite <- Hc0.
  pose proof (get_checkboxes_run _ _ _ _ Hrun) as Hcol.
  set (S := match r with Some s => collect_in (pg w0) s | None => [] end) in *.
  unfold ctApplyCalendarGroup. munfold. rewrite Hcol.
  destruct S as [|cb S'] eqn:HS.
  { exists [], w0, w0. simpl. repeat split; auto. lia. }
  cbn [List.length Nat.eqb].
  destruct (apply_rendered_clicks group flag (cb :: S') ∅ w0)
    as (P & w1 & Hrun1 & Hc1 & _).
  rewrite Hrun1.
  match goal with |- context [apply_unprocessed host ?ls P w1] =>
    destruct (apply_unprocessed_clicks host ls P w1) as (P' & w2 & Hrun2 & Hc2);
    pose proof (filter_length_le
                  (fun calendar => negb (bool_decide (calendar ∈ P))) (calendars group))
  end.
  rewrite Hrun2. exists (cb :: S'), w0, w2. split; [reflexivity|].
  split; [reflexivity|]. split; [discriminate|].
  cbn [List.length] in *. lia.
Qed.

(** X7. For every host: when every group entry is the label of a checkbox
    of the snapshot, [ctApplyCalendarGroup] runs no scroll search; after
    the collector has returned it writes no scroll offset and does not
    sleep. *)
Theorem apply_without_scrolling (host : host_t) (group : CalendarGroup)
    (flag : bool) (w w0 : world) (S : list CalendarCheckbox) :
  ctGetCalendarCheckboxes host w = Ok S w0 ->
  (forall l, l ∈ calendars group -> l ∈ List.map label S) ->
  exists w',
    ctApplyCalendarGroup host group flag w = Ok tt w' /\
    scrolls w' = scrolls w0 /\ sleeps w' = sleeps w0 /\ now w' = now w0.
Proof.
  intros Hcol Hall. unfold ctApplyCalendarGroup. munfold. rewrite Hcol.
  destruct (List.length S =? 0)%nat; [exists w0; auto|].
  destruct (apply_rendered_clicks group flag S ∅ w0)
    as (P & w1 & Hrun1 & _ & Hs & Hsl & Hn & HP).
  rewrite Hrun1.
  assert (HU : List.filter (fun calendar => negb (bool_decide (calendar ∈ P)))
                 (calendars group) = []).
  { assert (Hin : forall l, In l (calendars group) -> l ∈ P).
    { intros l Hl. apply HP. left. apply Hall. now apply list_elem_of_In. }
    revert Hin. generalize (calendars group).
    induction l as [|x l IH]; intros Hin; simpl; [reflexivity|].
    rewrite bool_decide_true by (apply Hin; now left). simpl.
    apply IH. intros y Hy. apply Hin. now right. }
  rewrite HU. simpl. exists w1. auto.
Qed.

(** X7 on the static list: the group ["A"; "Z"] is all on screen. *)
Lemma apply_without_scrolling_witness :
  exists w',
    ctApplyCalendarGroup static_host (group_of ["A"; "Z"]) true static_world = Ok tt w' /\
    scrolls w' = scrolls static_world /\ sleeps w' = sleeps static_world /\
    now w' = now static_world.
Proof.
  apply (apply_without_scrolling static_host (group_of ["A"; "Z"]) true
           static_world static_world (snapshot (pg static_world))).
  - vm_compute. reflexivity.
  - intros l Hl. apply list_elem_of_In in Hl. apply list_elem_of_In.
    vm_compute in Hl. vm_compute. tauto.
Defined.

(** On a static page with trimmed labels, a snapshot element that is not
    disabled ends checked exactly when its label is in the group; a
    disabled one stays as it was. *)
Lemma reconciled_on_snapshot group p e l :
  labels_trimmed (doc p) group ->
  e ∈ List.map element (snapshot p) ->
  ctGetCalendarLabel (doc p) e = Some l ->
  reconciled group true p e =
    if is_disabled (doc p) e then checkedOf p e
    else list_includes (calendars group) l.
Proof.
  intros Htrim He Hl. unfold reconciled, settled.
  destruct (List.length (snapshot p) =? 0)%nat eqn:Hlen.
  { apply length_zero_nil in Hlen. rewrite Hlen in He. inversion He. }
  rewrite bool_decide_true by exact He.
  destruct (is_disabled (doc p) e); simpl.
  { now rewrite andb_false_r, orb_false_r. }
  rewrite andb_true_r.
  unfold label_of. rewrite Hl. simpl. unfold want.
  destruct (list_includes (calendars group) l) eqn:Hin; [reflexivity|].
  simpl. case_bool_decide as Hf; [|reflexivity].
  rewrite (found_label_in_group _ _ _ _ _ Htrim Hf Hl) in Hin. discriminate.
Qed.

(** The labels of the checked handles of a second snapshot, read off the
    first one. *)
Lemma selected_parallel (g : path -> jstr -> bool) : forall S1 S2,
  List.map element S1 = List.map element S2 ->
  List.map label S1 = List.map label S2 ->
  (forall cb, cb ∈ S1 -> checked cb = g (element cb) (label cb)) ->
  List.map label (List.filter checked S1) =
  List.map label (List.filter (fun cb => g (element cb) (label cb)) S2).
Proof.
  induction S1 as [|cb1 S1 IH]; intros [|cb2 S2] Hel Hlab H; try discriminate;
    [reflexivity|].
  simpl in *. injection Hel as He Hel. injection Hlab as Hl Hlab.
  rewrite (H cb1) by set_solver. rewrite <- He, <- Hl.
  assert (IH' := IH S2 Hel Hlab ltac:(intros; apply H; set_solver)).
  destruct (g (element cb1) (label cb1)); simpl; rewrite IH'; [|reflexivity].
  now rewrite Hl.
Qed.

(** X8. On a page that does not re-render, with trimmed labels and group
    entries and a non-empty snapshot: after [ctApplyCalendarGroup(group,
    true)], [ctGetCurrentlySelectedCalendars] returns, in document order,
    the labels of the section's checkboxes that are in [group.calendars]
    when the checkbox is not disabled, and that were checked before the
    call when it is disabled. *)
Theorem selection_after_apply (group : CalendarGroup) (w : world) :
  labels_trimmed (doc (pg w)) group ->
  snapshot (pg w) <> [] ->
  exists w1 w2,
    ctApplyCalendarGroup static_host group true w = Ok tt w1 /\
    ctGetCurrentlySelectedCalendars static_host w1 =
      Ok (List.map label
            (List.filter
               (fun cb => if is_disabled (doc (pg w)) (element cb) then checked cb
                          else list_includes (calendars group) (label cb))
               (snapshot (pg w)))) w2.
Proof.
  intros Htrim Hne.
  destruct (apply_static group true w) as (w1 & Hrun1 & Hd1 & Hc1).
  destruct (static_collect w1) as (w2 & Hrun2 & _).
  exists w1, w2. split; [exact Hrun1|].
  unfold ctGetCurrentlySelectedCalendars. munfold. rewrite Hrun2. f_equal.
  destruct (snapshot_same (pg w) (pg w1) Hd1) as [Hel Hlab].
  rewrite (selected_parallel
             (fun e l => if is_disabled (doc (pg w)) e then checkedOf (pg w) e
                         else list_includes (calendars group) l)
             (snapshot (pg w1)) (snapshot (pg w)) Hel Hlab).
  - f_equal. apply filter_ext_in. intros cb Hcb. apply list_elem_of_In in Hcb.
    destruct (snapshot_elem _ _ Hcb) as (_ & Hck & _). now rewrite Hck.
  - intros cb Hcb. destruct (snapshot_elem _ _ Hcb) as (Hl & Hck & _).
    rewrite Hd1 in Hl. rewrite Hck, Hc1.
    apply reconciled_on_snapshot; [exact Htrim | | exact Hl].
    rewrite <- Hel. apply list_elem_of_fmap. eauto.
Qed.

(** The labels "A" and "Z" of the list with the disabled row are trimmed. *)
Lemma disabled_world_trimmed : labels_trimmed (doc (pg disabled_world)) (group_of ["A"; "Z"]).
Proof.
  split.
  - intros c l Hc Hl. vm_compute in Hc.
    destruct Hc as [<-|[<-|[]]]; vm_compute in Hl; injection Hl as <-; reflexivity.
  - intros t Ht. apply list_elem_of_In in Ht. vm_compute in Ht.
    destruct Ht as [<-|[<-|[]]]; reflexivity.
Defined.

(** X8 on the list whose row "A" is disabled and unchecked, with the group
    ["A"; "Z"]: the selection is ["Z"]. *)
Lemma selection_after_apply_witness :
  List.map label
    (List.filter
       (fun cb => if is_disabled (doc (pg disabled_world)) (element cb) then checked cb
                  else list_includes (calendars (group_of ["A"; "Z"])) (label cb))
       (snapshot (pg disabled_world))) = [lit "Z"] /\
  exists w1 w2,
    ctApplyCalendarGroup static_host (group_of ["A"; "Z"]) true disabled_world
      = Ok tt w1 /\
    ctGetCurrentlySelectedCalendars static_host w1 =
      Ok (List.map label
            (List.filter
               (fun cb => if is_disabled (doc (pg disabled_world)) (element cb)
                          then checked cb
                          else list_includes (calendars (group_of ["A"; "Z"])) (label cb))
               (snapshot (pg disabled_world)))) w2.
Proof.
  split; [vm_compute; reflexivity|].
  apply (selection_after_apply (group_of ["A"; "Z"]) disabled_world).
  - exact disabled_world_trimmed.
  - intros H. vm_compute in H. discriminate.
Defined.

(** X9. On a page that does not re-render: a group made of the labels
    [ctGetCurrentlySelectedCalendars] returns, applied at once with either
    setting, clicks nothing, provided no two checkboxes of the section
    share a label while differing in state. *)
Theorem apply_current_selection_is_silent (group : CalendarGroup) (flag : bool)
    (w w0 : world) :
  ctGetCurrentlySelectedCalendars static_host w = Ok (calendars group) w0 ->
  (forall cb cb', cb ∈ snapshot (pg w) -> cb' ∈ snapshot (pg w) ->
                  label cb = label cb' -> checked cb = checked cb') ->
  exists w',
    ctApplyCalendarGroup static_host group flag w0 = Ok tt w' /\
    clicks w' = clicks w0.
Proof.
  intros Hsel Huniq.
  unfold ctGetCurrentlySelectedCalendars in Hsel. munfold.
  destruct (static_collect w) as (w0' & Hrun & Hd & Hc & Hcl).
  rewrite Hrun in Hsel. injection Hsel as Hcal <-.
  assert (Hsnap : snapshot (pg w0') = snapshot (pg w)).
  { unfold snapshot. rewrite Hd. destruct (located (doc (pg w))); [|reflexivity].
    now apply collect_in_same. }
  assert (Hin : forall l, list_includes (calendars group) l = true <->
                          exists cb, cb ∈ snapshot (pg w) /\ checked cb = true /\ label cb = l).
  { intros l. rewrite list_includes_true, <- Hcal, list_elem_of_fmap. split.
    - intros (cb & -> & Hcb). apply list_elem_of_In, filter_In in Hcb.
      exists cb. rewrite list_elem_of_In. tauto.
    - intros (cb & Hcb & Hck & <-). exists cb. split; [reflexivity|].
      apply list_elem_of_In, filter_In. rewrite <- list_elem_of_In. tauto. }
  apply apply_static_quiet.
  - rewrite Hsnap. intros cb Hcb. unfold want.
    destruct (list_includes (calendars group) (label cb)) eqn:Hinc.
    + apply Hin in Hinc. destruct Hinc as (cb' & Hcb' & Hck & Hl).
      rewrite <- Hck. symmetry. now apply Huniq.
    + destruct (checked cb) eqn:Hck; [|now destruct flag].
      exfalso. assert (Ht : list_includes (calendars group) (label cb) = true)
        by (apply Hin; eauto).
      congruence.
  - intros _ c Hc'. exfalso. rewrite Hsnap in Hc'.
    apply found_elem in Hc'. destruct Hc' as (t & _ & Ht & _).
    unfold unprocessed in Ht. apply list_elem_of_In, filter_In in Ht.
    destruct Ht as [Ht Hneg]. apply negb_true_iff, bool_decide_eq_false in Hneg.
    apply Hneg. apply list_elem_of_In in Ht. rewrite <- Hcal in Ht.
    apply list_elem_of_fmap in Ht. destruct Ht as (cb & -> & Hcb).
    apply list_elem_of_fmap. exists cb. split; [reflexivity|].
    apply list_elem_of_In, filter_In in Hcb. apply list_elem_of_In. tauto.
Qed.

(** X9 on the static list, whose selection is ["Z"]. *)
Lemma apply_current_selection_is_silent_witness :
  exists w',
    ctApplyCalendarGroup static_host (group_of ["Z"]) true static_world = Ok tt w' /\
    clicks w' = clicks static_world.
Proof.
  apply (apply_current_selection_is_silent (group_of ["Z"]) true
           static_world static_world).
  - vm_compute. reflexivity.
  - intros cb cb' Hcb Hcb' Hl.
    apply list_elem_of_In in Hcb, Hcb'. vm_compute in Hcb, Hcb'.
    destruct Hcb as [<-|[<-|[]]], Hcb' as [<-|[<-|[]]];
      solve [reflexivity | vm_compute in Hl; discriminate].
Defined.

(* ================================================================== *)
(** ** Further properties of the label resolver *)
(* ================================================================== *)

Lemma trimStart_head s : match trimStart s with [] => True | c :: _ => is_ws c = false end.
Proof.
  induction s as [|c s IH]; simpl; [exact I|].
  destruct (is_ws c) eqn:Hc; [exact IH | exact Hc].
Qed.

Lemma trimStart_fixed s :
  match s with [] => True | c :: _ => is_ws c = false end -> trimStart s = s.
Proof. destruct s as [|c s]; simpl; [reflexivity|]. now intros ->. Qed.

Lemma trimStart_idem s : trimStart (trimStart s) = trimStart s.
Proof. apply trimStart_fixed, trimStart_head. Qed.

Lemma trimStart_snoc l c :
  is_ws c = false -> exists l', trimStart (l ++ [c]) = l' ++ [c].
Proof.
  intros Hc. induction l as [|x l IH]; simpl.
  - rewrite Hc. now exists [].
  - destruct (is_ws x); [exact IH|]. now exists (x :: l).
Qed.

Lemma trimEnd_head s :
  match s with [] => True | c :: _ => is_ws c = false end ->
  match trimEnd s with [] => True | c :: _ => is_ws c = false end.
Proof.
  destruct s as [|c s]; [intros _; exact I|]. intros Hc.
  unfold trimEnd. simpl.
  destruct (trimStart_snoc (rev s) c Hc) as (l' & ->).
  rewrite rev_app_distr. simpl. exact Hc.
Qed.

Lemma trimEnd_idem s : trimEnd (trimEnd s) = trimEnd s.
Proof. unfold trimEnd. now rewrite rev_involutive, trimStart_idem. Qed.

(** [trim] is idempotent. *)
Lemma trim_idem s : trim (trim s) = trim s.
Proof.
  unfold trim.
  rewrite (trimStart_fixed (trimEnd (trimStart s))).
  - apply trimEnd_idem.
  - apply trimEnd_head, trimStart_head.
Qed.

Lemma trimStart_length s : (List.length (trimStart s) <= List.length s)%nat.
Proof.
  induction s as [|c s IH]; simpl; [lia|]. destruct (is_ws c); simpl; lia.
Qed.

Lemma trim_length s : JS.length (trim s) <= JS.length s.
Proof.
  unfold JS.length, trim, trimEnd. rewrite length_rev.
  pose proof (trimStart_length (rev (trimStart s))) as H1.
  pose proof (trimStart_length s) as H2.
  rewrite length_rev in H1. lia.
Qed.

Lemma remove_ci_from_length pat : forall s skip,
  (List.length (remove_ci_from pat skip s) <= List.length s)%nat.
Proof.
  induction s as [|c s IH]; intros skip; simpl; [lia|].
  destruct skip as [|k].
  - destruct (_ && _); simpl.
    + specialize (IH (Nat.pred (List.length pat))). lia.
    + specialize (IH O). lia.
  - specialize (IH k). lia.
Qed.

Lemma label_by_reference_trimmed d cb l :
  label_by_reference d cb = Some l -> trim l = l.
Proof.
  unfold label_by_reference.
  destruct (truthy (attr_at d cb "aria-labelledby")); [|discriminate].
  destruct (getElementById d j) as [e|]; [|discriminate].
  intros H. apply truthy_Some in H. destruct H as [H _].
  unfold trimmed_text_at in H. destruct (get d e); [|discriminate].
  injection H as <-. apply trim_idem.
Qed.

Lemma label_by_ancestors_shape d : forall left parent l,
  label_by_ancestors d parent left = Some l ->
  trim l = l /\ 0 < JS.length l < 100.
Proof.
  induction left as [|k IH]; intros parent l; simpl.
  - destruct parent; discriminate.
  - destruct parent as [q|]; [|discriminate].
    destruct (truthy (trimmed_text_at d q)) as [t|] eqn:Ht; [|apply IH].
    destruct ((0 <? JS.length t) && (JS.length t <? 100)) eqn:Hlen; [|apply IH].
    destruct (0 <? JS.length (trim (remove_ci (lit "checkbox") t))) eqn:Hpos; [|apply IH].
    intros [= <-]. split; [apply trim_idem|].
    apply andb_true_iff in Hlen. destruct Hlen as [_ Hlt].
    apply Z.ltb_lt in Hlt, Hpos. split; [exact Hpos|].
    pose proof (trim_length (remove_ci (lit "checkbox") t)) as H1.
    pose proof (remove_ci_from_length (lit "checkbox") t O) as H2.
    unfold remove_ci, JS.length in *. lia.
Qed.

(** X10. A label [ctGetCalendarLabel] returns either has no leading or
    trailing white space, or is the verbatim value of one of these
    attributes: the checkbox's [aria-label], the [aria-label] of the first
    label-like element of its nearest container, or the checkbox's
    [data-name], [data-calendar-name] or [data-label]. Text taken from the
    page is always trimmed. *)
Theorem label_trimmed_or_attribute (d : node) (checkbox : path) (l : jstr) :
  ctGetCalendarLabel d checkbox = Some l ->
  trim l = l \/ label_attribute d checkbox l.
Proof.
  unfold ctGetCalendarLabel, label_attribute.
  destruct (label_by_reference d checkbox) eqn:H1.
  { intros [= <-]. left. eapply label_by_reference_trimmed; eauto. }
  destruct (label_by_aria d checkbox) eqn:H2.
  { intros [= <-]. right. left. apply truthy_Some in H2. now destruct H2 as [H2 _]. }
  destruct (label_by_container d checkbox) eqn:H3.
  { intros [= <-]. unfold label_by_container in H3.
    destruct (closest _ _ _) as [container|] eqn:Hcl; [|discriminate].
    destruct (querySelector _ _ _) as [e|] eqn:Hq; [|discriminate].
    destruct (truthy (attr_at d e "aria-label")) as [a|] eqn:Ha.
    - injection H3 as <-. right. right. left.
      apply truthy_Some in Ha. destruct Ha as [Ha _]. eauto.
    - destruct (truthy (trimmed_text_at d e)) as [t|] eqn:Ht; [|discriminate].
      destruct (_ && _); [|discriminate]. injection H3 as <-.
      apply truthy_Some in Ht. destruct Ht as [Ht _].
      unfold trimmed_text_at in Ht. destruct (get d e); [|discriminate].
      injection Ht as <-. left. apply trim_idem. }
  destruct (label_by_ancestors d _ 3) eqn:H4.
  { intros [= <-]. left. eapply label_by_ancestors_shape; eauto. }
  unfold label_by_data, or_else. intros H. apply truthy_Some in H.
  destruct H as [H _]. right. right. right.
  destruct (truthy (attr_at d checkbox "data-name")) as [x|] eqn:Hx.
  { injection H as <-. apply truthy_Some in Hx. destruct Hx as [Hx _]. now left. }
  destruct (truthy (attr_at d checkbox "data-calendar-name")) as [y|] eqn:Hy.
  { injection H as <-. apply truthy_Some in Hy. destruct Hy as [Hy _]. right. now left. }
  right. now right.
Qed.

(** X10 on the row whose [aria-label] is "B ": the label is the
    attribute, verbatim and not trimmed. *)
Lemma label_trimmed_or_attribute_witness :
  trim (lit "B ") <> lit "B " /\
  (trim (lit "B ") = lit "B " \/
   label_attribute (doc (pg padded_world)) (row 0) (lit "B ")).
Proof.
  split; [vm_compute; discriminate|].
  apply (label_trimmed_or_attribute (doc (pg padded_world)) (row 0)).
  reflexivity.
Defined.

(** The same on a checkbox whose referenced [span] reads " Work ": text of
    the page comes back trimmed. *)
Example reference_text_is_trimmed :
  ctGetCalendarLabel (both_doc (lit " Work ")) [O; 1%nat] = Some (lit "Work") /\
  trim (lit "Work") = lit "Work".
Proof. split; reflexivity. Qed.

(** X11. When the label comes from the text of an ancestor (strategy 4,
    reached when there is no reference text, no [aria-label] and no
    container label), it is trimmed, not empty and shorter than 100 code
    units. *)
Theorem ancestor_text_label_bounded (d : node) (checkbox : path) (l : jstr) :
  label_by_reference d checkbox = None ->
  label_by_aria d checkbox = None ->
  label_by_container d checkbox = None ->
  label_by_ancestors d (parentElement checkbox) 3 = Some l ->
  ctGetCalendarLabel d checkbox = Some l /\ trim l = l /\ 0 < JS.length l < 100.
Proof.
  intros H1 H2 H3 H4. unfold ctGetCalendarLabel. rewrite H1, H2, H3, H4.
  split; [reflexivity|]. eapply label_by_ancestors_shape; eauto.
Qed.

(** X11 on the list item: the word "checkbox" is cut out of the text. *)
Lemma ancestor_text_label_bounded_witness :
  ctGetCalendarLabel item_doc [O; O; O; O] = Some (lit "Team A") /\
  trim (lit "Team A") = lit "Team A" /\ 0 < JS.length (lit "Team A") < 100.
Proof.
  apply (ancestor_text_label_bounded item_doc [O; O; O; O] (lit "Team A"));
    reflexivity.
Defined.

(* ================================================================== *)
(** ** Properties of the storage functions and the message handler *)
(* ================================================================== *)

Module ContentFacts.
Import Content ContentVocabulary.

Lemma add_resolved (g : CalendarGroup) (s s' : storage) :
  ctAddGroup g s = Resolved s' ->
  groups_value s' = Some (ctLoadGroups s ++ [g]) /\
  settings_value s' = settings_value s /\
  get_rejects s' = get_rejects s /\ set_rejects s' = set_rejects s.
Proof.
  unfold ctAddGroup, ctSaveGroups, set_groups.
  destruct (set_rejects s) eqn:Hset; [discriminate|].
  intros [= <-]. simpl. auto.
Qed.

(** X12. When the read works, [ctLoadGroups] after a successful
    [ctAddGroup] returns the groups it returned before followed by the new
    group; the stored settings are not touched. *)
Theorem add_then_load (g : CalendarGroup) (s s' : storage) :
  get_rejects s = false ->
  ctAddGroup g s = Resolved s' ->
  ctLoadGroups s' = ctLoadGroups s ++ [g] /\ ctLoadSettings s' = ctLoadSettings s.
Proof.
  intros Hget Hadd. destruct (add_resolved g s s' Hadd) as (Hg & Hs & Hr & _).
  unfold ctLoadGroups at 1, ctLoadSettings, get_groups, get_settings.
  rewrite Hr, Hg, Hs, Hget. auto.
Qed.

Lemma add_then_load_witness :
  ctLoadGroups (match ctAddGroup (group_of ["Z"]) one_group_store with
                | Resolved s' => s' | Rejected => one_group_store end)
    = ctLoadGroups one_group_store ++ [group_of ["Z"]] /\
  ctLoadSettings (match ctAddGroup (group_of ["Z"]) one_group_store with
                  | Resolved s' => s' | Rejected => one_group_store end)
    = ctLoadSettings one_group_store.
Proof.
  apply (add_then_load (group_of ["Z"]) one_group_store); reflexivity.
Defined.

(** X13. When the read is rejected and the write is not, [ctAddGroup]
    stores the new group alone: [ctLoadGroups] has answered the rejection
    with [[]], and whatever was stored is overwritten. *)
Theorem add_after_failed_read (g : CalendarGroup) (s : storage) :
  get_rejects s = true ->
  set_rejects s = false ->
  exists s', ctAddGroup g s = Resolved s' /\ groups_value s' = Some [g].
Proof.
  unfold ctAddGroup, ctSaveGroups, set_groups, ctLoadGroups, get_groups.
  intros -> ->. eexists. split; reflexivity.
Qed.

Lemma add_after_failed_read_witness :
  exists s',
    ctAddGroup (group_of ["Z"])
      {| groups_value := Some [group_of ["A"]]; settings_value := None;
         get_rejects := true; set_rejects := false |} = Resolved s' /\
    groups_value s' = Some [group_of ["Z"]].
Proof.
  apply (add_after_failed_read (group_of ["Z"])); reflexivity.
Defined.

Lemma quiet_trans a b c : quiet a b -> quiet b c -> quiet a c.
Proof. unfold quiet. intuition congruence. Qed.

Lemma selected_ok host w :
  exists sel w0,
    ctGetCurrentlySelectedCalendars host w = Ok sel w0 /\ clicks w0 = clicks w.
Proof.
  destruct (find_section_loop_inv host any_page (fun _ _ _ => I) 10 w I)
    as (r & w0 & k & Hrun & _ & Hc0 & _).
  fold (ctFindCalendarSection host) in Hrun.
  unfold ctGetCurrentlySelectedCalendars. munfold.
  rewrite (get_checkboxes_run _ _ _ _ Hrun). eauto.
Qed.

Lemma create_effect_step host u uuid st st1 st2 :
  create_effect host u uuid st st1 ->
  store st2 = store st1 -> quiet st1 st2 ->
  create_effect host u uuid st st2.
Proof.
  intros [Hq Hs] Hs2 Hq2. split; [eapply quiet_trans; eauto|].
  rewrite Hs2. exact Hs.
Qed.

Lemma note_ends m st :
  match ctShowNotification m st with
  | AOk _ st' => store st' = store st /\ quiet st st'
  | AThrow e st' =>
    e = Raised TypeError /\ st' = st /\
    document_body (doc (pg (page_world st))) = None
  | AOutOfFuel => False
  | APending => False
  end.
Proof.
  unfold ctShowNotification.
  destruct (document_body (doc (pg (page_world st)))); [|auto].
  repeat split.
Qed.

Lemma note_effect host u uuid st m st1 :
  create_effect host u uuid st st1 ->
  match ctShowNotification m st1 with
  | AOk _ st' => create_effect host u uuid st st'
  | AThrow _ st' => create_effect host u uuid st st'
  | AOutOfFuel => False
  | APending => prompt_result (events u) = None
  end.
Proof.
  intros H. pose proof (note_ends m st1) as Hn.
  destruct (ctShowNotification m st1) as [x st'|e st'| |];
    [| |exact Hn|destruct Hn].
  - destruct Hn. eapply create_effect_step; eauto.
  - destruct Hn as (_ & -> & _). exact H.
Qed.

(** [ctCreateCalendarGroup] ends normally, or with the [TypeError] of a
    document without body, either way with [create_effect]; or it waits
    for a dialog that no event closes. *)
Lemma create_ends host u uuid st :
  match ctCreateCalendarGroup host u uuid st with
  | AOk _ st' => create_effect host u uuid st st'
  | AThrow e st' =>
    e = Raised TypeError /\ create_effect host u uuid st st' /\
    document_body (doc (pg (page_world st'))) = None
  | AOutOfFuel => False
  | APending => prompt_result (events u) = None
  end.
Proof.
  unfold ctCreateCalendarGroup, a_try.
  match goal with |- match match ?b with _ => _ end with _ => _ end =>
    assert (Hb : match b with
                 | AOk _ st' => create_effect host u uuid st st'
                 | AThrow _ st' => create_effect host u uuid st st'
                 | AOutOfFuel => False
                 | APending => prompt_result (events u) = None
                 end)
  end.
  { unfold mbind, AM_bind, mret, AM_ret, on_page, Date_now.
    destruct (selected_ok host (page_world st)) as (sel & w0 & Hsel & Hc0).
    rewrite Hsel.
    assert (H0 : create_effect host u uuid st (with_world st w0)).
    { split; [repeat split; exact Hc0 | now left]. }
    destruct (List.length sel =? 0)%nat eqn:Hlen; [now apply note_effect|].
    unfold ctPromptForGroupName.
    destruct (document_body (doc (pg (page_world (with_world st w0)))));
      [|exact H0].
    destruct (prompt_result (events u)) as [a|] eqn:Hp; [|reflexivity].
    match goal with |- context [with_world (with_world st w0) ?w1] =>
      set (st1 := with_world (with_world st w0) w1) end.
    assert (H1 : create_effect host u uuid st st1).
    { split; [repeat split; exact Hc0 | now left]. }
    destruct (truthy a) as [groupName|] eqn:Hans; [|exact H1].
    apply truthy_Some in Hans. destruct Hans as [-> Hne].
    change (store st1) with (store st).
    destruct (existsb (fun g => JS.eqb (name g) groupName) (ctLoadGroups (store st)))
      eqn:Hex.
    { rewrite <- Hp. now apply note_effect. }
    unfold on_store. change (store st1) with (store st).
    set (g := {| id := uuid; name := groupName; calendars := sel;
                 createdAt := now (page_world st1);
                 updatedAt := now (page_world st1) |}).
    destruct (ctAddGroup g (store st)) as [s'|] eqn:Hadd; [|exact H1].
    rewrite <- Hp. apply note_effect. split; [repeat split; exact Hc0|]. right.
    exists g. split; [|exact Hadd].
    exists w0. simpl. repeat split; auto.
    - intros E. rewrite E in Hlen. discriminate.
    - intros h Hh E.
      assert (Ht : existsb (fun g0 => JS.eqb (name g0) groupName)
                     (ctLoadGroups (store st)) = true).
      { apply existsb_exists. exists h. split; [exact Hh|].
        now apply bool_decide_eq_true. }
      congruence. }
  match type of Hb with match ?X with _ => _ end =>
    destruct X as [x st1|e st1| |] end;
    [exact Hb | | exact Hb | exact Hb].
  pose proof (note_ends MSG_CREATE_FAILED st1) as Hn.
  pose proof (note_effect host u uuid st MSG_CREATE_FAILED st1 Hb) as He.
  destruct (ctShowNotification MSG_CREATE_FAILED st1) as [x st'|e' st'| |];
    [exact He | | exact He | exact He].
  destruct Hn as (-> & -> & Hbody). auto.
Qed.

(** X14. For every host, dialog and state, [ctCreateCalendarGroup] ends
    once the dialog is closed: normally, or with the [TypeError] of a
    document that has no body when the notification is shown. It clicks
    nothing and sends no response. The storage is left as it was, or holds
    the result of [ctAddGroup] for one group: its calendars are the
    non-empty current selection, its name is the non-empty name the dialog
    has resolved with and no name of a loaded group, its id is the
    generated one. When no event closes the dialog it waits for ever. *)
Theorem create_group_effect (host : host_t) (u : dialog) (uuid : jstr) (st : app) :
  (exists st',
     (ctCreateCalendarGroup host u uuid st = AOk tt st' \/
      ctCreateCalendarGroup host u uuid st = AThrow (Raised TypeError) st' /\
      document_body (doc (pg (page_world st'))) = None) /\
     quiet st st' /\
     (store st' = store st \/
      exists g, created_by host u uuid st g /\
                ctAddGroup g (store st) = Resolved (store st'))) \/
  (ctCreateCalendarGroup host u uuid st = APending /\
   prompt_result (events u) = None).
Proof.
  pose proof (create_ends host u uuid st) as H.
  destruct (ctCreateCalendarGroup host u uuid st) as [[] st'|e st'| |];
    [| |destruct H|].
  - left. exists st'. destruct H. auto.
  - left. destruct H as (-> & [Hq Hs] & Hb). exists st'. auto.
  - right. auto.
Qed.

Lemma create_state_after host u uuid st st' :
  state_after (ctCreateCalendarGroup host u uuid st) = Some st' ->
  create_effect host u uuid st st'.
Proof.
  pose proof (create_ends host u uuid st) as H.
  destruct (ctCreateCalendarGroup host u uuid st) as [x s1|e s1| |]; simpl;
    [| |discriminate|discriminate]; intros [= <-]; [exact H | apply H].
Qed.

(** X15. When reads of the storage work and the loaded groups have
    pairwise different names, they still have after
    [ctCreateCalendarGroup], however it ends. *)
Theorem create_keeps_names_distinct (host : host_t) (u : dialog) (uuid : jstr)
    (st st' : app) :
  get_rejects (store st) = false ->
  NoDup (List.map name (ctLoadGroups (store st))) ->
  state_after (ctCreateCalendarGroup host u uuid st) = Some st' ->
  NoDup (List.map name (ctLoadGroups (store st'))).
Proof.
  intros Hget Hnd Hrun.
  destruct (create_state_after _ _ _ _ _ Hrun) as [_ [-> | (g & Hg & Hadd)]];
    [exact Hnd|].
  destruct (add_resolved _ _ _ Hadd) as (Hv & _ & Hr & _).
  unfold ctLoadGroups at 1, get_groups. rewrite Hr, Hv, Hget.
  rewrite map_app. apply NoDup_app. split; [exact Hnd|]. split.
  - intros x Hx Hx'. apply list_elem_of_singleton in Hx'. subst x.
    apply list_elem_of_fmap in Hx. destruct Hx as (h & Hh & Hin).
    destruct Hg as (_ & _ & _ & _ & _ & _ & Hfresh).
    apply (Hfresh h); [|auto]. apply list_elem_of_In. exact Hin.
  - apply NoDup_singleton.
Qed.

(** X15 on the sample: "Home" is stored beside "Work". *)
Lemma create_keeps_names_distinct_witness :
  exists st',
    state_after (ctCreateCalendarGroup static_host sample_dialog (lit "u2") sample_app)
      = Some st' /\
    List.map name (ctLoadGroups (store st')) = [lit "Work"; lit "Home"] /\
    NoDup (List.map name (ctLoadGroups (store st'))).
Proof.
  eexists. split; [vm_compute; reflexivity|]. split; [vm_compute; reflexivity|].
  apply (create_keeps_names_distinct static_host sample_dialog (lit "u2") sample_app).
  - reflexivity.
  - apply NoDup_singleton.
  - vm_compute. reflexivity.
Defined.

Lemma prompt_result_name (es : list dialog_event) (n : jstr) :
  prompt_result es = Some (Some n) ->
  trim n = n /\ n <> [] /\ exists value, PressCreate value ∈ es /\ n = trim value.
Proof.
  induction es as [|e es IH]; simpl; [discriminate|].
  destruct e as [value|]; [|discriminate].
  unfold handleCreate. destruct (nonempty (trim value)) eqn:Hne.
  - intros [= <-]. split; [apply trim_idem|]. split.
    + intros E. rewrite E in Hne. discriminate.
    + exists value. split; [left | reflexivity].
  - intros H. destruct (IH H) as (H1 & H2 & v & Hv & Hn).
    split; [exact H1|]. split; [exact H2|]. exists v. split; [now right | exact Hn].
Qed.

(** X16. What [ctCreateCalendarGroup] leaves in the storage, when reads
    work: every group loaded afterwards was loaded before, or is the new
    one, whose name is a trimmed, non-empty input of the dialog, whose
    list of calendars is not empty and whose id is the generated one. *)
Theorem created_group_well_formed (host : host_t) (u : dialog) (uuid : jstr)
    (st st' : app) (g : CalendarGroup) :
  get_rejects (store st) = false ->
  state_after (ctCreateCalendarGroup host u uuid st) = Some st' ->
  g ∈ ctLoadGroups (store st') ->
  g ∈ ctLoadGroups (store st) \/
  (trim (name g) = name g /\ name g <> [] /\
   (exists value, PressCreate value ∈ events u /\ name g = trim value) /\
   calendars g <> [] /\ id g = uuid).
Proof.
  intros Hget Hrun.
  destruct (create_state_after _ _ _ _ _ Hrun) as [_ [-> | (h & Hh & Hadd)]];
    [now left|].
  destruct (add_resolved _ _ _ Hadd) as (Hv & _ & Hr & _).
  unfold ctLoadGroups at 1, get_groups. rewrite Hr, Hv, Hget.
  intros Hin. apply elem_of_app in Hin. destruct Hin as [Hin|Hin]; [now left|].
  apply list_elem_of_singleton in Hin. subst g. right.
  destruct Hh as (w0 & _ & Hcal & Hprompt & _ & Hid & _).
  destruct (prompt_result_name _ _ Hprompt) as (H1 & H2 & H3).
  auto.
Qed.

(** X16 on the sample: the blank input is refused and " Home " is stored
    as "Home". *)
Lemma created_group_well_formed_witness :
  exists st' g,
    state_after (ctCreateCalendarGroup static_host sample_dialog (lit "u2") sample_app)
      = Some st' /\
    ctLoadGroups (store st') = [group_of ["A"]; g] /\
    name g = lit "Home" /\
    (g ∈ ctLoadGroups (store sample_app) \/
     (trim (name g) = name g /\ name g <> [] /\
      (exists value, PressCreate value ∈ events sample_dialog /\
                     name g = trim value) /\
      calendars g <> [] /\ id g = lit "u2")).
Proof.
  eexists. eexists. split; [vm_compute; reflexivity|].
  split; [vm_compute; reflexivity|]. split; [vm_compute; reflexivity|].
  eapply (created_group_well_formed static_host sample_dialog (lit "u2") sample_app).
  - reflexivity.
  - vm_compute. reflexivity.
  - vm_compute. right. left.
Defined.

Lemma apply_ends host group flag w :
  exists w', ctApplyCalendarGroup host group flag w = Ok tt w'.
Proof.
  destruct (find_section_loop_inv host any_page (fun _ _ _ => I) 10 w I)
    as (r & w0 & k & Hrun & _).
  fold (ctFindCalendarSection host) in Hrun.
  pose proof (get_checkboxes_run _ _ _ _ Hrun) as Hcol.
  set (S := match r with Some s => collect_in (pg w0) s | None => [] end) in *.
  unfold ctApplyCalendarGroup. munfold. rewrite Hcol.
  destruct S as [|cb S'] eqn:HS; [now exists w0|].
  cbn [List.length Nat.eqb].
  destruct (apply_rendered_clicks group flag (cb :: S') ∅ w0)
    as (P & w1 & Hrun1 & _).
  rewrite Hrun1.
  match goal with |- context [apply_unprocessed host ?ls P w1] =>
    destruct (apply_unprocessed_clicks host ls P w1) as (P' & w2 & Hrun2 & _)
  end.
  rewrite Hrun2. now exists w2.
Qed.

Lemma checkboxes_ok host w :
  exists l w0, ctGetCalendarCheckboxes host w = Ok l w0 /\ clicks w0 = clicks w.
Proof.
  destruct (find_section_loop_inv host any_page (fun _ _ _ => I) 10 w I)
    as (r & w0 & k & Hrun & _ & Hc0 & _).
  fold (ctFindCalendarSection host) in Hrun.
  rewrite (get_checkboxes_run _ _ _ _ Hrun). eauto.
Qed.

(** Decide the comparisons of [message.action] once it is known. *)
Ltac pick_action H :=
  unfold ctHandleMessage; rewrite H;
  repeat match goal with
  | |- context [JS.eqb (lit ?a) (lit ?b)] =>
    let v := eval vm_compute in (JS.eqb (lit a) (lit b)) in
    change (JS.eqb (lit a) (lit b)) with v
  end; cbv iota.

Lemma handle_apply host u uuid m st g s :
  action m = lit "applyGroup" -> group m = Some g -> settings m = Some s ->
  exists w',
    ctApplyCalendarGroup host g (disableOthers s) (page_world st) = Ok tt w' /\
    ctHandleMessage host u uuid m st = AOk tt (respond RespOk (with_world st w')).
Proof.
  intros Ha Hg Hs. pick_action Ha. rewrite Hg, Hs.
  destruct (apply_ends host g (disableOthers s) (page_world st)) as [w' Hrun].
  exists w'. split; [exact Hrun|].
  unfold a_try, mbind, AM_bind, on_page. rewrite Hrun. reflexivity.
Qed.

Lemma handle_apply_malformed host u uuid m st :
  action m = lit "applyGroup" -> group m = None \/ settings m = None ->
  ctHandleMessage host u uuid m st
    = AOk tt (respond (RespError (Caught TypeError)) st).
Proof.
  intros Ha H. pick_action Ha.
  destruct (settings m) as [s|]; [|reflexivity].
  destruct (group m) as [g|]; [|reflexivity].
  destruct H; discriminate.
Qed.

Lemma handle_create host u uuid m st :
  action m = lit "createGroup" ->
  (exists st1,
     create_effect host u uuid st st1 /\
     (ctCreateCalendarGroup host u uuid st = AOk tt st1 /\
      ctHandleMessage host u uuid m st = AOk tt (respond RespOk st1) \/
      ctCreateCalendarGroup host u uuid st = AThrow (Raised TypeError) st1 /\
      document_body (doc (pg (page_world st1))) = None /\
      ctHandleMessage host u uuid m st
        = AOk tt (respond (RespError (Caught TypeError)) st1))) \/
  (prompt_result (events u) = None /\
   ctCreateCalendarGroup host u uuid st = APending /\
   ctHandleMessage host u uuid m st = APending).
Proof.
  intros Ha. pick_action Ha. unfold a_try, mbind, AM_bind.
  pose proof (create_ends host u uuid st) as H.
  destruct (ctCreateCalendarGroup host u uuid st) as [[] st1|e st1| |];
    [| |destruct H|].
  - left. exists st1. split; [exact H|]. left. split; reflexivity.
  - left. destruct H as (-> & He & Hb). exists st1. split; [exact He|]. right.
    repeat split. exact Hb.
  - right. auto.
Qed.

Lemma handle_current host u uuid m st :
  action m = lit "getCurrentCalendars" ->
  exists sel w0,
    ctGetCurrentlySelectedCalendars host (page_world st) = Ok sel w0 /\
    clicks w0 = clicks (page_world st) /\
    ctHandleMessage host u uuid m st
      = AOk tt (respond (RespCalendars sel) (with_world st w0)).
Proof.
  intros Ha. pick_action Ha.
  destruct (selected_ok host (page_world st)) as (sel & w0 & Hrun & Hc).
  exists sel, w0. split; [exact Hrun|]. split; [exact Hc|].
  unfold a_try, mbind, AM_bind, on_page. rewrite Hrun. reflexivity.
Qed.

Lemma handle_list host u uuid m st :
  action m = lit "getCalendarList" ->
  exists l w0,
    ctGetCalendarCheckboxes host (page_world st) = Ok l w0 /\
    clicks w0 = clicks (page_world st) /\
    ctHandleMessage host u uuid m st
      = AOk tt (respond (RespCalendarList
                           (List.map (fun c => (label c, checked c)) l))
                        (with_world st w0)).
Proof.
  intros Ha. pick_action Ha.
  destruct (checkboxes_ok host (page_world st)) as (l & w0 & Hrun & Hc).
  exists l, w0. split; [exact Hrun|]. split; [exact Hc|].
  unfold a_try, mbind, AM_bind, on_page. rewrite Hrun. reflexivity.
Qed.

Lemma handle_unknown host u uuid m st :
  action m <> lit "applyGroup" -> action m <> lit "createGroup" ->
  action m <> lit "getCurrentCalendars" -> action m <> lit "getCalendarList" ->
  ctHandleMessage host u uuid m st
    = AOk tt (respond (RespError UnknownAction) st).
Proof.
  intros H1 H2 H3 H4. unfold ctHandleMessage, JS.eqb.
  rewrite (bool_decide_eq_false_2 _ H1), (bool_decide_eq_false_2 _ H2),
    (bool_decide_eq_false_2 _ H3), (bool_decide_eq_false_2 _ H4).
  reflexivity.
Qed.

(** Every message is answered once the dialog is closed: what the answer
    is appended to. *)
Lemma handle_any host u uuid m st :
  (exists r st1,
     ctHandleMessage host u uuid m st = AOk tt (respond r st1) /\
     responses st1 = responses st /\ listening st1 = listening st /\
     (action m <> lit "createGroup" -> store st1 = store st) /\
     (action m <> lit "applyGroup" ->
      clicks (page_world st1) = clicks (page_world st))) \/
  (action m = lit "createGroup" /\ prompt_result (events u) = None /\
   ctHandleMessage host u uuid m st = APending).
Proof.
  destruct (decide (action m = lit "applyGroup")) as [Ha|Ha].
  { left.
    destruct (group m) as [g|] eqn:Hg; [destruct (settings m) as [s|] eqn:Hs|].
    - destruct (handle_apply host u uuid m st g s Ha Hg Hs) as (w' & _ & ->).
      exists RespOk, (with_world st w'). repeat split; tauto.
    - rewrite (handle_apply_malformed host u uuid m st Ha (or_intror Hs)).
      exists (RespError (Caught TypeError)), st. repeat split.
    - rewrite (handle_apply_malformed host u uuid m st Ha (or_introl Hg)).
      exists (RespError (Caught TypeError)), st. repeat split. }
  destruct (decide (action m = lit "createGroup")) as [Hc|Hc].
  { destruct (handle_create host u uuid m st Hc)
      as [(st1 & [(Hr & Hl & Hk) _] & [(_ & ->) | (_ & _ & ->)]) | (Hp & _ & Hh)].
    - left. exists RespOk, st1. repeat split; tauto.
    - left. exists (RespError (Caught TypeError)), st1. repeat split; tauto.
    - right. auto. }
  left.
  destruct (decide (action m = lit "getCurrentCalendars")) as [Hs|Hs].
  { destruct (handle_current host u uuid m st Hs) as (sel & w0 & _ & Hk & ->).
    exists (RespCalendars sel), (with_world st w0). repeat split; auto. }
  destruct (decide (action m = lit "getCalendarList")) as [Hl|Hl].
  { destruct (handle_list host u uuid m st Hl) as (l & w0 & _ & Hk & ->).
    eexists _, (with_world st w0). repeat split; auto. }
  rewrite (handle_unknown host u uuid m st Ha Hc Hs Hl).
  exists (RespError UnknownAction), st. repeat split.
Qed.

(** X17. For every message, host, dialog and state, [ctHandleMessage] ends
    normally and has called [sendResponse] exactly once, the listener flag
    untouched; the one exception is a "createGroup" message whose dialog no
    event closes, which is never answered. *)
Theorem handler_answers_once (host : host_t) (u : dialog) (uuid : jstr)
    (m : message) (st : app) :
  (exists r st',
     ctHandleMessage host u uuid m st = AOk tt st' /\
     responses st' = responses st ++ [r] /\ listening st' = listening st) \/
  (action m = lit "createGroup" /\ prompt_result (events u) = None /\
   ctHandleMessage host u uuid m st = APending).
Proof.
  destruct (handle_any host u uuid m st)
    as [(r & st1 & -> & Hr & Hl & _) | H]; [left | now right].
  exists r, (respond r st1). simpl. rewrite Hr. auto.
Qed.

(** X18. Once the dialog is closed, a "createGroup" message is answered
    with [{ success: true }] whenever the notification can be shown,
    whether or not a group has been stored: [ctCreateCalendarGroup]
    catches its own failures. The only other answer carries the
    [TypeError] of a document without body. *)
Theorem create_message_reply (host : host_t) (u : dialog) (uuid : jstr)
    (m : message) (st : app) :
  action m = lit "createGroup" ->
  prompt_result (events u) <> None ->
  exists st1,
    state_after (ctCreateCalendarGroup host u uuid st) = Some st1 /\
    (ctHandleMessage host u uuid m st = AOk tt (respond RespOk st1) \/
     ctHandleMessage host u uuid m st
       = AOk tt (respond (RespError (Caught TypeError)) st1) /\
     document_body (doc (pg (page_world st1))) = None).
Proof.
  intros Ha Hp.
  destruct (handle_create host u uuid m st Ha)
    as [(st1 & _ & [(Hrun & Hh) | (Hrun & Hb & Hh)]) | (Hp' & _)];
    [| |contradiction]; exists st1; rewrite Hrun; auto.
Qed.

(** X18 where the write is rejected: nothing is stored and the answer is
    still [{ success: true }]. *)
Lemma create_message_reply_witness :
  exists st1,
    state_after
      (ctCreateCalendarGroup static_host sample_dialog (lit "u2")
         {| page_world := static_world; store := read_only_store; shown := [];
            responses := []; listening := true |}) = Some st1 /\
    (ctHandleMessage static_host sample_dialog (lit "u2") create_message
       {| page_world := static_world; store := read_only_store; shown := [];
          responses := []; listening := true |} = AOk tt (respond RespOk st1) \/
     ctHandleMessage static_host sample_dialog (lit "u2") create_message
       {| page_world := static_world; store := read_only_store; shown := [];
          responses := []; listening := true |}
       = AOk tt (respond (RespError (Caught TypeError)) st1) /\
     document_body (doc (pg (page_world st1))) = None).
Proof.
  apply (create_message_reply static_host sample_dialog (lit "u2") create_message).
  - reflexivity.
  - intros H. vm_compute in H. discriminate.
Defined.

(** X19. Only "createGroup" writes to the storage: after any other message
    the storage is what it was. *)
Theorem handler_storage_frame (host : host_t) (u : dialog) (uuid : jstr)
    (m : message) (st st' : app) :
  action m <> lit "createGroup" ->
  state_after (ctHandleMessage host u uuid m st) = Some st' ->
  store st' = store st.
Proof.
  intros Ha.
  destruct (handle_any host u uuid m st)
    as [(r & st1 & -> & _ & _ & Hs & _) | (_ & _ & ->)]; [|discriminate].
  simpl. intros [= <-]. simpl. auto.
Qed.

(** X19 for an "applyGroup" message on the sample. *)
Lemma handler_storage_frame_witness :
  exists st',
    state_after (ctHandleMessage static_host sample_dialog (lit "u2")
                   (apply_message (group_of ["A"]) true) sample_app) = Some st' /\
    store st' = store sample_app.
Proof.
  eexists. split; [vm_compute; reflexivity|].
  apply (handler_storage_frame static_host sample_dialog (lit "u2")
           (apply_message (group_of ["A"]) true) sample_app).
  - intros H. vm_compute in H. discriminate.
  - vm_compute. reflexivity.
Defined.

(** X20. Only "applyGroup" clicks: after any other message the click log
    is what it was. *)
Theorem handler_click_frame (host : host_t) (u : dialog) (uuid : jstr)
    (m : message) (st st' : app) :
  action m <> lit "applyGroup" ->
  state_after (ctHandleMessage host u uuid m st) = Some st' ->
  clicks (page_world st') = clicks (page_world st).
Proof.
  intros Ha.
  destruct (handle_any host u uuid m st)
    as [(r & st1 & -> & _ & _ & _ & Hc) | (_ & _ & ->)]; [|discriminate].
  simpl. intros [= <-]. simpl. auto.
Qed.

(** X20 for a "createGroup" message on the sample. *)
Lemma handler_click_frame_witness :
  exists st',
    state_after (ctHandleMessage static_host sample_dialog (lit "u2")
                   create_message sample_app) = Some st' /\
    clicks (page_world st') = clicks (page_world sample_app).
Proof.
  eexists. split; [vm_compute; reflexivity|].
  apply (handler_click_frame static_host sample_dialog (lit "u2")
           create_message sample_app).
  - intros H. vm_compute in H. discriminate.
  - vm_compute. reflexivity.
Defined.

(** X21. With fuel for the 30 polls of the load gate, [ctInitialize] ends
    normally with the message listener registered, whether the gate has
    returned or timed out; it clicks nothing, answers nothing and leaves
    the storage alone. *)
Theorem initialize_always_listens (host : host_t) (fuel : nat) (st : app) :
  (30 <= fuel)%nat ->
  exists st',
    ctInitialize host fuel st = AOk tt st' /\
    listening st' = true /\ store st' = store st /\
    responses st' = responses st /\
    clicks (page_world st') = clicks (page_world st).
Proof.
  intros Hfuel. unfold ctInitialize, a_try, mbind, AM_bind, on_page, mret, AM_ret,
    ctWaitForCalendarLoad.
  destruct (wait_loop_total host (now (page_world st)) fuel (page_world st))
    as [(w' & Hrun & Hc & _) | (w' & Hrun & Hc & _)];
    [unfold maxWait, checkInterval; lia | |];
    rewrite Hrun; eexists; (split; [reflexivity|]); simpl; auto.
Qed.

(** X21 on an empty drawer: the gate times out and the listener is
    registered all the same. *)
Lemma initialize_always_listens_witness :
  exists st',
    ctInitialize static_host 30
      {| page_world := empty_world; store := one_group_store; shown := [];
         responses := []; listening := false |} = AOk tt st' /\
    listening st' = true /\ store st' = one_group_store /\
    responses st' = [] /\
    clicks (page_world st') = clicks empty_world.
Proof.
  apply (initialize_always_listens static_host 30
           {| page_world := empty_world; store := one_group_store; shown := [];
              responses := []; listening := false |}).
  lia.
Defined.

End ContentFacts.

(* ================================================================== *)
(** ** Properties of the context menu and of the two scripts together *)
(* ================================================================== *)

Module BackgroundFacts.
Import Content ContentVocabulary ContentFacts Background BackgroundVocabulary.

Lemma starts_with_app (p s : jstr) : starts_with (fun c => c) p (p ++ s) = true.
Proof.
  induction p as [|c p IH]; simpl; [reflexivity|].
  rewrite N.eqb_refl. exact IH.
Qed.

Lemma remove_first_eq (pat s : jstr) :
  remove_first pat s =
    if starts_with (fun c => c) pat s then drop (List.length pat) s
    else match s with
         | [] => []
         | c :: r => c :: remove_first pat r
         end.
Proof. destruct s; reflexivity. Qed.

Lemma remove_first_prefix (pat s : jstr) : remove_first pat (pat ++ s) = s.
Proof.
  rewrite remove_first_eq, starts_with_app. apply drop_app_length.
Qed.

Lemma prefixed_not_fixed (x : jstr) :
  JS.eqb (MENU_PREFIX ++ x) MENU_CREATE = false /\
  JS.eqb (MENU_PREFIX ++ x) MENU_UNCHECK_ALL = false /\
  JS.eqb (MENU_PREFIX ++ x) MENU_SETTINGS = false /\
  JS.eqb (MENU_PREFIX ++ x) MENU_SEPARATOR = false.
Proof.
  unfold JS.eqb. repeat split; apply bool_decide_eq_false_2; intros H;
    vm_compute in H; discriminate.
Qed.

Lemma click_prefixed (gid : jstr) (t : Z) (st : bg) :
  t <> 0 ->
  bgHandleContextMenuClick (MENU_PREFIX ++ gid) (Some t) st
    = bgSendApplyGroupMessage t gid st.
Proof.
  intros Ht. unfold bgHandleContextMenuClick.
  destruct (Z.eqb_spec t 0) as [|_]; [contradiction|].
  destruct (prefixed_not_fixed gid) as (-> & -> & -> & _).
  rewrite starts_with_app, remove_first_prefix. reflexivity.
Qed.

(** X22. The id of a group's menu entry carries the group's id back: a
    click on the entry "calendar-group-" + [gid] in a tab with a non-zero
    id is [bgSendApplyGroupMessage] for [gid], whatever [gid] is. *)
Theorem menu_id_round_trip (gid : jstr) (t : Z) (st : bg) :
  t <> 0 ->
  bgHandleContextMenuClick (MENU_PREFIX ++ gid) (Some t) st
    = bgSendApplyGroupMessage t gid st.
Proof. exact (click_prefixed gid t st). Qed.

(** X22 for a group id that itself contains the prefix. *)
Lemma menu_id_round_trip_witness :
  bgHandleContextMenuClick (MENU_PREFIX ++ lit "calendar-group-7") (Some 12) sample_bg
    = bgSendApplyGroupMessage 12 (lit "calendar-group-7") sample_bg.
Proof.
  apply (menu_id_round_trip (lit "calendar-group-7") 12 sample_bg). lia.
Defined.

(** X23. The menu entry "uncheck all" has no effect on the page: its click
    sends a message whose action [ctHandleMessage] does not know, so the
    content script answers "Unknown action" and does nothing else. *)
Theorem uncheck_all_click_unanswered (t : Z) (bst : bg) (host : host_t)
    (u : dialog) (uuid : jstr) (st : app) :
  t <> 0 ->
  exists m,
    bgHandleContextMenuClick MENU_UNCHECK_ALL (Some t) bst = sendMessage t m bst /\
    ctHandleMessage host u uuid m st
      = AOk tt (respond (RespError UnknownAction) st).
Proof.
  intros Ht. eexists. split.
  - unfold bgHandleContextMenuClick.
    destruct (Z.eqb_spec t 0) as [|_]; [contradiction|]. reflexivity.
  - apply handle_unknown; intros H; vm_compute in H; discriminate.
Qed.

(** X23 on the sample, with every checkbox of the page still to uncheck. *)
Lemma uncheck_all_click_unanswered_witness :
  exists m,
    bgHandleContextMenuClick MENU_UNCHECK_ALL (Some 12) sample_bg
      = sendMessage 12 m sample_bg /\
    ctHandleMessage static_host sample_dialog (lit "u2") m sample_app
      = AOk tt (respond (RespError UnknownAction) sample_app).
Proof.
  apply (uncheck_all_click_unanswered 12 sample_bg static_host sample_dialog
           (lit "u2") sample_app).
  lia.
Defined.

Lemma find_group_member (g : CalendarGroup) (groups : list CalendarGroup) :
  g ∈ groups ->
  exists g', find_group (id g) groups = Some g' /\ id g' = id g /\ g' ∈ groups.
Proof.
  intros Hin. unfold find_group.
  destruct (List.find (fun h => JS.eqb (id h) (id g)) groups) as [g'|] eqn:Hf.
  - apply find_some in Hf. destruct Hf as [Hin' He].
    exists g'. split; [reflexivity|]. split.
    + now apply bool_decide_eq_true in He.
    + now apply list_elem_of_In.
  - apply list_elem_of_In in Hin.
    pose proof (find_none _ _ Hf g Hin) as He. simpl in He.
    unfold JS.eqb in He. rewrite bool_decide_eq_false in He. contradiction.
Qed.

(** X24. From the menu to the page: a click, in a tab with a non-zero id,
    on the entry of a stored group sends one "applyGroup" message with the
    first stored group of that id and the stored settings over the
    defaults; [ctHandleMessage] runs [ctApplyCalendarGroup] for it and
    answers [{ success: true }]. *)
Theorem group_click_is_applied (g : CalendarGroup) (t : Z) (bst : bg)
    (host : host_t) (u : dialog) (uuid : jstr) (st : app) :
  t <> 0 ->
  g ∈ bgLoadGroups (bg_store bst) ->
  exists g' m w',
    find_group (id g) (bgLoadGroups (bg_store bst)) = Some g' /\
    id g' = id g /\
    m = {| action := lit "applyGroup"; group := Some g';
           settings := Some (bgLoadSettings (bg_store bst)) |} /\
    bgHandleContextMenuClick (item_id (group_item g)) (Some t) bst
      = sendMessage t m bst /\
    ctApplyCalendarGroup host g' (disableOthers (bgLoadSettings (bg_store bst)))
      (page_world st) = Ok tt w' /\
    ctHandleMessage host u uuid m st = AOk tt (respond RespOk (with_world st w')).
Proof.
  intros Ht Hin.
  destruct (find_group_member g _ Hin) as (g' & Hf & Hid & _).
  set (m := {| action := lit "applyGroup"; group := Some g';
               settings := Some (bgLoadSettings (bg_store bst)) |}).
  destruct (handle_apply host u uuid m st g' (bgLoadSettings (bg_store bst))
              eq_refl eq_refl eq_refl) as (w' & Hrun & Hh).
  exists g', m, w'. repeat split; auto.
  change (item_id (group_item g)) with (MENU_PREFIX ++ id g).
  rewrite (click_prefixed (id g) t bst Ht).
  unfold bgSendApplyGroupMessage. rewrite Hf. reflexivity.
Qed.

(** X24 on the sample: the group "Work" is applied to the static list. *)
Lemma group_click_is_applied_witness :
  exists g' m w',
    find_group (id (group_of ["A"])) (bgLoadGroups (bg_store sample_bg)) = Some g' /\
    id g' = id (group_of ["A"]) /\
    m = {| action := lit "applyGroup"; group := Some g';
           settings := Some (bgLoadSettings (bg_store sample_bg)) |} /\
    bgHandleContextMenuClick (item_id (group_item (group_of ["A"]))) (Some 12) sample_bg
      = sendMessage 12 m sample_bg /\
    ctApplyCalendarGroup static_host g'
      (disableOthers (bgLoadSettings (bg_store sample_bg)))
      (page_world sample_app) = Ok tt w' /\
    ctHandleMessage static_host sample_dialog (lit "u2") m sample_app
      = AOk tt (respond RespOk (with_world sample_app w')).
Proof.
  apply (group_click_is_applied (group_of ["A"]) 12 sample_bg static_host
           sample_dialog (lit "u2") sample_app).
  - lia.
  - apply list_elem_of_singleton. reflexivity.
Defined.

(** *** The menu [bgUpdateContextMenus] builds *)

Lemma ids_app (l k : list menu_item) : ids (l ++ k) = ids l ++ ids k.
Proof. apply map_app. Qed.

Lemma taken_spec (i : jstr) (l : list menu_item) :
  existsb (fun x => JS.eqb (item_id x) i) l = true <-> i ∈ ids l.
Proof.
  unfold ids. rewrite existsb_exists, list_elem_of_fmap. split.
  - intros (x & Hx & He). apply bool_decide_eq_true in He.
    exists x. split; [auto|]. now apply list_elem_of_In.
  - intros (x & He & Hx). exists x. split; [now apply list_elem_of_In|].
    now apply bool_decide_eq_true.
Qed.

Lemma create_cases (item : menu_item) (l : list menu_item) :
  ((item_id item ∈ ids l) /\ create item l = l) \/
  ((item_id item ∉ ids l) /\ create item l = l ++ [item]).
Proof.
  unfold create.
  destruct (existsb (fun i => JS.eqb (item_id i) (item_id item)) l) eqn:He.
  - left. split; [now apply taken_spec | reflexivity].
  - right. split; [|reflexivity]. intros H. apply taken_spec in H. congruence.
Qed.

Lemma create_fresh (item : menu_item) (l : list menu_item) :
  item_id item ∉ ids l -> create item l = l ++ [item].
Proof.
  intros H. destruct (create_cases item l) as [[H' _]|[_ ->]];
    [contradiction | reflexivity].
Qed.

Lemma group_entries_spec (all : list CalendarGroup) :
  forall groups acc,
    (forall g, g ∈ groups -> g ∈ all) ->
    NoDup (ids acc) ->
    (forall i, i ∈ acc -> exists g, g ∈ all /\ i = group_item g) ->
    NoDup (ids (group_entries groups acc)) /\
    (forall i, i ∈ group_entries groups acc -> exists g, g ∈ all /\ i = group_item g) /\
    (forall x, x ∈ ids acc -> x ∈ ids (group_entries groups acc)) /\
    (forall g, g ∈ groups -> MENU_PREFIX ++ id g ∈ ids (group_entries groups acc)).
Proof.
  induction groups as [|g groups IH]; intros acc Hall Hnd Hacc.
  - simpl. repeat split; auto. intros g Hg. inversion Hg.
  - assert (Hg : g ∈ all) by (apply Hall; left).
    assert (Hrest : forall h, h ∈ groups -> h ∈ all)
      by (intros h Hh; apply Hall; now right).
    change (group_entries (g :: groups) acc)
      with (group_entries groups (create (group_item g) acc)).
    assert (Hhere : MENU_PREFIX ++ id g ∈ ids (create (group_item g) acc) /\
                    (forall x, x ∈ ids acc -> x ∈ ids (create (group_item g) acc)) /\
                    NoDup (ids (create (group_item g) acc)) /\
                    (forall i, i ∈ create (group_item g) acc ->
                               exists h, h ∈ all /\ i = group_item h)).
    { destruct (create_cases (group_item g) acc) as [[Hin ->]|[Hout ->]].
      - repeat split; auto.
      - unfold ids in *. rewrite map_app. simpl. repeat split.
        + apply elem_of_app. right. now left.
        + intros x Hx. apply elem_of_app. now left.
        + apply NoDup_app. split; [exact Hnd|]. split; [|apply NoDup_singleton].
          intros x Hx Hx'. apply list_elem_of_singleton in Hx'. subst x.
          contradiction.
        + intros i Hi. apply elem_of_app in Hi. destruct Hi as [Hi|Hi]; [auto|].
          apply list_elem_of_singleton in Hi. subst i. eauto. }
    destruct Hhere as (Hnew & Hkeep & Hnd' & Hacc').
    destruct (IH (create (group_item g) acc) Hrest Hnd' Hacc')
      as (H1 & H2 & H3 & H4).
    repeat split; auto.
    intros h Hh. apply elem_of_cons in Hh. destruct Hh as [->|Hh]; auto.
Qed.

Lemma group_id_not_fixed (all : list CalendarGroup) (gs : list menu_item) (x : jstr) :
  (forall i, i ∈ gs -> exists g, g ∈ all /\ i = group_item g) ->
  x ∈ ids gs -> exists y, x = MENU_PREFIX ++ y.
Proof.
  intros Hgs Hx. apply list_elem_of_fmap in Hx. destruct Hx as (i & -> & Hi).
  destruct (Hgs i Hi) as (g & _ & ->). now exists (id g).
Qed.

Lemma build_menus_eq (groups : list CalendarGroup) :
  build_menus groups =
    group_entries groups [] ++
    (if (0 <? List.length groups)%nat then [separator_item] else []) ++
    fixed_items.
Proof.
  destruct (group_entries_spec groups groups [] (fun _ H => H)
              (NoDup_nil_2) (fun i H => match not_elem_of_nil i H with end))
    as (_ & Hgs & _).
  pose proof (group_id_not_fixed groups (group_entries groups []) ) as Hpre.
  specialize (fun x => Hpre x Hgs).
  unfold build_menus. fold (group_entries groups []). fold separator_item.
  set (gs := group_entries groups []) in *.
  assert (Hsep : create separator_item gs = gs ++ [separator_item]).
  { apply create_fresh. intros H. destruct (Hpre _ H) as [y Hy].
    vm_compute in Hy. discriminate. }
  set (sep := if (0 <? List.length groups)%nat then [separator_item] else []).
  assert (Hl : (if (0 <? List.length groups)%nat
                then create separator_item gs else gs) = gs ++ sep).
  { unfold sep. destruct (0 <? List.length groups)%nat;
      [exact Hsep | now rewrite app_nil_r]. }
  rewrite Hl.
  assert (Hids : forall x, x ∈ ids (gs ++ sep) ->
                           (exists y, x = MENU_PREFIX ++ y) \/ x = MENU_SEPARATOR).
  { intros x Hx. rewrite ids_app in Hx.
    apply elem_of_app in Hx. destruct Hx as [Hx|Hx]; [left; now apply Hpre|].
    right. unfold sep in Hx. destruct (0 <? List.length groups)%nat.
    - now apply list_elem_of_singleton in Hx.
    - inversion Hx. }
  rewrite (create_fresh (fixed_item MENU_CREATE TITLE_CREATE) (gs ++ sep)).
  2:{ intros H. destruct (Hids _ H) as [[y Hy]|Hy]; vm_compute in Hy; discriminate. }
  rewrite (create_fresh (fixed_item MENU_UNCHECK_ALL TITLE_UNCHECK_ALL)).
  2:{ intros H. rewrite ids_app in H. apply elem_of_app in H.
      destruct H as [H|H].
      - destruct (Hids _ H) as [[y Hy]|Hy]; vm_compute in Hy; discriminate.
      - apply list_elem_of_singleton in H. vm_compute in H. discriminate. }
  rewrite (create_fresh (fixed_item MENU_SETTINGS TITLE_SETTINGS)).
  2:{ intros H. rewrite ids_app in H.
      apply elem_of_app in H. destruct H as [H|H].
      - rewrite ids_app in H. apply elem_of_app in H. destruct H as [H|H].
        + destruct (Hids _ H) as [[y Hy]|Hy]; vm_compute in Hy; discriminate.
        + apply list_elem_of_singleton in H. vm_compute in H. discriminate.
      - apply list_elem_of_singleton in H. vm_compute in H. discriminate. }
  unfold fixed_items. rewrite <- !app_assoc. reflexivity.
Qed.

(** X25. The menu [bgUpdateContextMenus] builds: the entries of the
    groups, no two with the same id and each one the entry of a stored
    group, with an entry for the id of every stored group; then the
    separator when there is a group; then always "create group",
    "uncheck all" and "settings", in this order. *)
Theorem build_menus_shape (groups : list CalendarGroup) :
  exists gs,
    build_menus groups =
      gs ++ (if (0 <? List.length groups)%nat then [separator_item] else []) ++
      fixed_items /\
    NoDup (ids gs) /\
    (forall i, i ∈ gs -> exists g, g ∈ groups /\ i = group_item g) /\
    (forall g, g ∈ groups -> MENU_PREFIX ++ id g ∈ ids gs).
Proof.
  exists (group_entries groups []). split; [apply build_menus_eq|].
  destruct (group_entries_spec groups groups [] (fun _ H => H)
              (NoDup_nil_2) (fun i H => match not_elem_of_nil i H with end))
    as (H1 & H2 & _ & H4).
  auto.
Qed.

Lemma build_menus_entry (groups : list CalendarGroup) (i : menu_item) :
  i ∈ build_menus groups ->
  (exists g, g ∈ groups /\ i = group_item g) \/ i = separator_item \/ i ∈ fixed_items.
Proof.
  rewrite build_menus_eq. intros H.
  apply elem_of_app in H. destruct H as [H|H].
  - left.
    destruct (group_entries_spec groups groups [] (fun _ H => H)
                (NoDup_nil_2) (fun i H => match not_elem_of_nil i H with end))
      as (_ & H2 & _).
    auto.
  - right. apply elem_of_app in H. destruct H as [H|H]; [left|now right].
    destruct (0 <? List.length groups)%nat; [|inversion H].
    now apply list_elem_of_singleton in H.
Qed.

(** X26. No dead entry in a fresh menu: while the storage is what
    [bgUpdateContextMenus] has read, a click (in a tab with a non-zero id)
    on any entry it has built, the separator apart, sends one message to
    the tab or opens the settings page. *)
Theorem menu_entries_all_act (i : menu_item) (t : Z) (st : bg) :
  t <> 0 ->
  i ∈ menus (bgUpdateContextMenus st) ->
  is_separator i = false ->
  (exists m, bgHandleContextMenuClick (item_id i) (Some t) (bgUpdateContextMenus st)
             = sendMessage t m (bgUpdateContextMenus st)) \/
  bgHandleContextMenuClick (item_id i) (Some t) (bgUpdateContextMenus st)
    = bgOpenSettingsPage (bgUpdateContextMenus st).
Proof.
  intros Ht Hin Hsep. simpl in Hin.
  apply build_menus_entry in Hin. destruct Hin as [(g & Hg & ->) | [-> | Hin]].
  - left. change (item_id (group_item g)) with (MENU_PREFIX ++ id g).
    rewrite (click_prefixed (id g) t _ Ht).
    destruct (find_group_member g _ Hg) as (g' & Hf & _).
    unfold bgSendApplyGroupMessage.
    change (bg_store (bgUpdateContextMenus st)) with (bg_store st).
    rewrite Hf. eexists. reflexivity.
  - discriminate.
  - unfold bgHandleContextMenuClick.
    destruct (Z.eqb_spec t 0) as [|_]; [contradiction|].
    unfold fixed_items in Hin.
    repeat (apply elem_of_cons in Hin; destruct Hin as [->|Hin]);
      [left; eexists; reflexivity | left; eexists; reflexivity
       | right; reflexivity | inversion Hin].
Qed.

(** X26 for the entry of the group "Work". *)
Lemma menu_entries_all_act_witness :
  (exists m, bgHandleContextMenuClick (item_id (group_item (group_of ["A"])))
               (Some 12) (bgUpdateContextMenus sample_bg)
             = sendMessage 12 m (bgUpdateContextMenus sample_bg)) \/
  bgHandleContextMenuClick (item_id (group_item (group_of ["A"])))
    (Some 12) (bgUpdateContextMenus sample_bg)
    = bgOpenSettingsPage (bgUpdateContextMenus sample_bg).
Proof.
  apply (menu_entries_all_act (group_item (group_of ["A"])) 12 sample_bg).
  - lia.
  - vm_compute. left.
  - reflexivity.
Defined.

(** X27. From the page to the menu: when reads of the storage work, a
    group added by [ctAddGroup] has an entry in the menu the background
    script rebuilds on the storage change. *)
Theorem added_group_gets_menu_entry (g : CalendarGroup) (s : storage) (st : bg) :
  get_rejects s = false ->
  ctAddGroup g s = Resolved (bg_store st) ->
  MENU_PREFIX ++ id g ∈ ids (menus (bgHandleStorageChange true (lit "local") st)).
Proof.
  intros Hget Hadd.
  destruct (add_resolved g s _ Hadd) as (Hv & _ & Hr & _).
  change (bgHandleStorageChange true (lit "local") st) with (bgUpdateContextMenus st).
  simpl. rewrite build_menus_eq. unfold ids. rewrite map_app.
  apply elem_of_app. left.
  destruct (group_entries_spec (bgLoadGroups (bg_store st)) (bgLoadGroups (bg_store st))
              [] (fun _ H => H) (NoDup_nil_2)
              (fun i H => match not_elem_of_nil i H with end))
    as (_ & _ & _ & H4).
  apply H4. unfold bgLoadGroups, get_groups. rewrite Hr, Hget, Hv.
  apply elem_of_app. right. now left.
Qed.

(** X27 for a second group added to the sample storage. *)
Lemma added_group_gets_menu_entry_witness :
  MENU_PREFIX ++ lit "u2" ∈
    ids (menus (bgHandleStorageChange true (lit "local")
                  {| bg_store :=
                       {| groups_value :=
                            Some [group_of ["A"];
                                  {| id := lit "u2"; name := lit "Home";
                                     calendars := [lit "Z"];
                                     createdAt := 5; updatedAt := 5 |}];
                          settings_value := None;
                          get_rejects := false; set_rejects := false |};
                     menus := []; sent := []; opened := [] |})).
Proof.
  apply (added_group_gets_menu_entry
           {| id := lit "u2"; name := lit "Home"; calendars := [lit "Z"];
              createdAt := 5; updatedAt := 5 |}
           one_group_store
           {| bg_store :=
                {| groups_value :=
                     Some [group_of ["A"];
                           {| id := lit "u2"; name := lit "Home";
                              calendars := [lit "Z"];
                              createdAt := 5; updatedAt := 5 |}];
                   settings_value := None;
                   get_rejects := false; set_rejects := false |};
              menus := []; sent := []; opened := [] |});
    reflexivity.
Defined.

End BackgroundFacts.
